(** * Gen7: spaced-repetition scheduling and performance analytics

    A shallow embedding of the algorithmic core of the repository:
    - [updateSRS] and [dueSRSItems] of [src/App.tsx],
    - [dissectClinicalTopic] and the topic statistics of
      [src/components/AnalyticsView.tsx],
    - [updateAnalytics] and [fullImport] of the database service.

    JavaScript numbers are IEEE 754 binary64 values.  They are modelled by
    [spec_float] with the operations of [SpecFloat] at precision 53 and
    maximal exponent 1024: round-to-nearest-even addition, subtraction,
    multiplication and division, evaluated inside the logic.  Every field
    of a card's review state is such a number, as the scheduler multiplies
    and rounds them.  In the analytics and in the database service the
    question counts and the millisecond timestamps are integers that the
    program only adds, subtracts and compares; they are kept in [Z] and
    enter binary64 through [of_Z] where the source divides them.

    Objects used as maps are finite maps from strings, or association
    lists where the order of the keys is read; their keys are ids and
    topic names, none of which names a property that a JavaScript object
    inherits.  TypeScript types are taken at their word: a value of type
    [T] is a well-formed [T].  The one exception is the payload of
    [fullImport], which the code casts from parsed JSON without a check:
    there a key may hold any value. *)

From Stdlib Require Import ZArith Lia Bool List String Ascii.
From Stdlib Require Import Sorting.Sorted Sorting.Permutation.
From Stdlib Require Import Floats.SpecFloat.
From stdpp Require Import gmap strings.

Import ListNotations.

(** ** JavaScript numbers *)

Module JS.

Local Open Scope Z_scope.

Definition Number : Type := spec_float.

Definition prec : Z := 53.
Definition emax : Z := 1024.

Definition add : Number -> Number -> Number := SFadd prec emax.
Definition sub : Number -> Number -> Number := SFsub prec emax.
Definition mul : Number -> Number -> Number := SFmul prec emax.
Definition div : Number -> Number -> Number := SFdiv prec emax.

(** [x < y], [x <= y] and [x === y] on numbers; all three are false as soon
    as one side is NaN. *)
Definition ltb : Number -> Number -> bool := SFltb.
Definition leb : Number -> Number -> bool := SFleb.
Definition eqb : Number -> Number -> bool := SFeqb.

Definition is_nan (x : Number) : bool :=
  match x with S754_nan => true | _ => false end.

Definition is_zero (x : Number) : bool :=
  match x with S754_zero _ => true | _ => false end.

(** ToBoolean on a number: [0], [-0] and [NaN] are falsy. *)
Definition truthy (x : Number) : bool := negb (is_zero x || is_nan x).

(** The number denoted by an integer (exact below [2^53]). *)
Definition of_Z (z : Z) : Number := binary_normalize prec emax z 0 false.

(** Decimal literals of the sources, as the nearest binary64 value. *)
Definition n0 : Number := S754_zero false.
Definition n1 : Number := S754_finite false 4503599627370496 (-52).
Definition n2 : Number := S754_finite false 4503599627370496 (-51).
Definition n6 : Number := S754_finite false 6755399441055744 (-50).
Definition n24 : Number := S754_finite false 6755399441055744 (-48).
Definition n60 : Number := S754_finite false 8444249301319680 (-47).
Definition n100 : Number := S754_finite false 7036874417766400 (-46).
Definition n1000 : Number := S754_finite false 8796093022208000 (-43).
Definition n3600000 : Number := S754_finite false 7730941132800000 (-31).
Definition n1_3 : Number := S754_finite false 5854679515581645 (-52).
Definition n0_2 : Number := S754_finite false 7205759403792794 (-55).
Definition n0_15 : Number := S754_finite false 5404319552844595 (-55).
Definition n2_3 : Number := S754_finite false 5179139571476070 (-51).
Definition n1_2 : Number := S754_finite false 5404319552844595 (-52).
Definition n1_5 : Number := S754_finite false 6755399441055744 (-52).
Definition n1e21 : Number := S754_finite false 7629394531250000 17.

(** [Math.max(a, b)]: NaN if either argument is NaN, else the larger. *)
Definition Math_max (a b : Number) : Number :=
  if is_nan a || is_nan b then S754_nan
  else if ltb a b then b else a.

(** [Math.ceil(x)]: the least integer not below [x]; zeros, infinities and
    NaN are returned as they are, and a negative [x] above [-1] gives [-0]. *)
Definition Math_ceil (x : Number) : Number :=
  match x with
  | S754_finite s m e =>
      if 0 <=? e then x
      else binary_normalize prec emax
             (- ((- cond_Zopp s (Zpos m)) / 2 ^ (- e))) 0 s
  | _ => x
  end.

(** [Math.round(x)]: [floor(x + 1/2)] computed exactly. *)
Definition Math_round (x : Number) : Number :=
  match x with
  | S754_finite s m e =>
      if 0 <=? e then x
      else binary_normalize prec emax
             ((2 * cond_Zopp s (Zpos m) + 2 ^ (- e)) / 2 ^ (- e + 1)) 0 s
  | _ => x
  end.

(** [Number(x.toFixed(1))]: [toFixed] picks the integer [n] with [n / 10]
    nearest to [|x|] (the larger one on a tie) and prints it with the sign of
    [x]; above [10^21] it prints [x] itself.  Reading the digits back gives
    the binary64 value nearest to [n / 10]. *)
Definition toFixed1 (x : Number) : Number :=
  match x with
  | S754_finite s m e =>
      if leb n1e21 (SFabs x) then x
      else
        let n := if 0 <=? e then 10 * Zpos m * 2 ^ e
                 else (20 * Zpos m + 2 ^ (- e)) / 2 ^ (- e + 1) in
        match n with
        | Zpos p => div (S754_finite s p 0) (S754_finite false 10 0)
        | _ => S754_zero s
        end
  | S754_zero _ => S754_zero false
  | _ => x
  end.

End JS.

Export JS(Number).

(** ** Positive normal numbers and their order

    The proofs about rounding compare values through scaled integers:
    [vle m1 e1 m2 e2] says [m1 * 2^e1 <= m2 * 2^e2]. *)

Definition vle (m1 : positive) (e1 : Z) (m2 : positive) (e2 : Z) : Prop :=
  (Zpos m1 * 2 ^ (e1 - Z.min e1 e2) <= Zpos m2 * 2 ^ (e2 - Z.min e1 e2))%Z.

(** A positive binary64 number in normal form: 53 significant bits and an
    exponent in range. *)
Definition normal (x : Number) : Prop :=
  match x with
  | S754_finite false m e =>
      (Zpos (digits2_pos m) = 53 /\ -1074 <= e <= 971)%Z
  | _ => False
  end.

(** [pos_ge F x]: [x] is [+Infinity] or a positive normal number, and
    [F <= x]. *)
Definition pos_ge (F x : Number) : Prop :=
  match F, x with
  | S754_finite false mF eF, S754_finite false m e =>
      normal x /\ (eF < e \/ (eF = e /\ Zpos mF <= Zpos m))%Z
  | S754_finite false _ _, S754_infinity false => True
  | S754_infinity false, S754_infinity false => True
  | _, _ => False
  end.

(** ** Spaced repetition: [src/App.tsx] *)

Inductive SRSRating : Type := again | hard | good | easy.

Record SRSState : Type := mkSRSState {
  cardId : string;
  nextReview : Number;
  interval : Number;
  ease : Number;
  repetitions : Number
}.

(** The body of the state updater of [updateSRS], applied to the card's
    current state; [now] is the value of [Date.now()]. The three locals are
    rebound in the order of the source. *)
Definition updateSRS_card (now : Number) (current : SRSState) (rating : SRSRating)
  : SRSState :=
  let '(interval0, ease0, repetitions0) :=
    (interval current, ease current, repetitions current) in
  let '(interval1, ease1, repetitions1) :=
    match rating with
    | again =>
        let repetitions := JS.n0 in
        let interval := JS.n0 in
        let ease := JS.Math_max JS.n1_3 (JS.sub ease0 JS.n0_2) in
        (interval, ease, repetitions)
    | _ =>
        let interval :=
          if JS.eqb repetitions0 JS.n0 then JS.n1
          else if JS.eqb repetitions0 JS.n1 then JS.n6
          else JS.Math_ceil
                 (JS.mul interval0
                    match rating with
                    | hard => JS.n1_2
                    | good => ease0
                    | _ => JS.mul ease0 JS.n1_5
                    end) in
        let repetitions := JS.add repetitions0 JS.n1 in
        let ease :=
          match rating with
          | hard => JS.Math_max JS.n1_3 (JS.sub ease0 JS.n0_15)
          | _ => ease0
          end in
        let ease :=
          match rating with
          | easy => JS.add ease JS.n0_15
          | _ => ease
          end in
        (interval, ease, repetitions)
    end in
  let nextReview :=
    JS.add now
      (JS.mul (JS.mul (JS.mul (JS.mul interval1 JS.n24) JS.n60) JS.n60) JS.n1000) in
  {| cardId := cardId current;
     nextReview := nextReview;
     interval := interval1;
     ease := ease1;
     repetitions := repetitions1 |}.

(** The state that [updateSRS] uses for an id with no entry. *)
Definition defaultSRSState (id : string) : SRSState :=
  {| cardId := id; nextReview := JS.n0; interval := JS.n0;
     ease := JS.n2_3; repetitions := JS.n0 |}.

(** [updateSRS cardId rating], as the function from the previous map of card
    states to the next one: [prev[cardId] || { ... }], then the spread with
    the new entry. *)
Definition updateSRS (now : Number) (id : string) (rating : SRSRating)
    (prev : gmap string SRSState) : gmap string SRSState :=
  let current := default (defaultSRSState id) (prev !! id) in
  <[ id := updateSRS_card now current rating ]> prev.

(** *** The transition rules in the words of the specification *)

Module Spec.

Definition daysToMs (d : Number) : Number :=
  JS.mul (JS.mul (JS.mul (JS.mul d JS.n24) JS.n60) JS.n60) JS.n1000.

Definition multiplier (rating : SRSRating) (easeFactor : Number) : Number :=
  match rating with
  | hard => JS.n1_2
  | good => easeFactor
  | _ => JS.mul easeFactor JS.n1_5
  end.

Definition intervalDays' (c : SRSState) (rating : SRSRating) : Number :=
  match rating with
  | again => JS.n0
  | _ =>
      if JS.eqb (repetitions c) JS.n0 then JS.n1
      else if JS.eqb (repetitions c) JS.n1 then JS.n6
      else JS.Math_ceil (JS.mul (interval c) (multiplier rating (ease c)))
  end.

Definition repetitionCount' (c : SRSState) (rating : SRSRating) : Number :=
  match rating with
  | again => JS.n0
  | _ => JS.add (repetitions c) JS.n1
  end.

Definition easeFactor' (c : SRSState) (rating : SRSRating) : Number :=
  match rating with
  | again => JS.Math_max JS.n1_3 (JS.sub (ease c) JS.n0_2)
  | hard => JS.Math_max JS.n1_3 (JS.sub (ease c) JS.n0_15)
  | good => ease c
  | easy => JS.add (ease c) JS.n0_15
  end.

Definition applyRating (now : Number) (c : SRSState) (rating : SRSRating)
  : SRSState :=
  {| cardId := cardId c;
     nextReview := JS.add now (daysToMs (intervalDays' c rating));
     interval := intervalDays' c rating;
     ease := easeFactor' c rating;
     repetitions := repetitionCount' c rating |}.

End Spec.


(** *** Sequences of reviews *)

(** A card as [toggleBookmark] creates it. *)
Definition freshCard (id : string) (now : Number) : SRSState :=
  {| cardId := id; nextReview := now; interval := JS.n0;
     ease := JS.n2_3; repetitions := JS.n0 |}.

(** The card after a sequence of reviews, each with the clock reading at
    which it happens. *)
Definition reviews (c : SRSState) (steps : list (Number * SRSRating)) : SRSState :=
  fold_left (fun c step => updateSRS_card (fst step) c (snd step)) steps c.

(** The card after [n] reviews that all give the same rating. *)
Fixpoint streak (rating : SRSRating) (clock : nat -> Number) (c : SRSState)
    (n : nat) : SRSState :=
  match n with
  | O => c
  | S k => updateSRS_card (clock k) (streak rating clock c k) rating
  end.

(** What is known of a fresh card after [n] reviews rated [good]. *)
Definition GoodInv (n : nat) (c : SRSState) : Prop :=
  ease c = JS.n2_3 /\
  match n with
  | 0%nat => repetitions c = JS.n0 /\ interval c = JS.n0
  | 1%nat => repetitions c = JS.n1 /\ interval c = JS.n1
  | _ => pos_ge JS.n2 (repetitions c) /\ pos_ge JS.n6 (interval c)
  end.

(** ** Topic canonicalization: [src/components/AnalyticsView.tsx]

    Strings are sequences of 8-bit characters; [toLowerCase] maps the
    letters [A]-[Z] to [a]-[z] and leaves every other character as it is. *)

Definition toLowerCase_char (c : ascii) : ascii :=
  let n := nat_of_ascii c in
  if (65 <=? n)%nat && (n <=? 90)%nat then ascii_of_nat (n + 32) else c.

Fixpoint toLowerCase (s : string) : string :=
  match s with
  | EmptyString => EmptyString
  | String c s' => String (toLowerCase_char c) (toLowerCase s')
  end.

Fixpoint startsWith (s p : string) : bool :=
  match p, s with
  | EmptyString, _ => true
  | String a p', String b s' => Ascii.eqb a b && startsWith s' p'
  | String _ _, EmptyString => false
  end.

(** [s.includes(sub)] *)
Fixpoint includes (s sub : string) : bool :=
  startsWith s sub ||
  match s with
  | EmptyString => false
  | String _ s' => includes s' sub
  end.

Definition ignoreList : list string :=
  ["step 1"; "step 2"; "step 3"; "board"; "style"; "nbme"; "free 120";
   "high yield"; "review"; "test"; "usmle"; "plab"; "comlex"]%string.

Definition broadSystems : list string :=
  ["surgery"; "medicine"; "pediatrics"; "obgyn"; "psychiatry"; "cardiology";
   "gi"; "renal"; "respiratory"; "neurology"; "gastroenterology";
   "pulmonology"; "endocrinology"; "hematology"; "oncology";
   "infectious disease"; "rheumatology"; "dermatology"; "ophthalmology";
   "ent"; "orthopedics"; "urology"; "gynecology"; "obstetrics";
   "family medicine"; "emergency medicine"; "internal medicine"]%string.

(** ToBoolean on [string | null]: [null] and the empty string are falsy. *)
Definition truthy_string (s : option string) : bool :=
  match s with
  | None => false
  | Some EmptyString => false
  | Some _ => true
  end.

(** The [for (const tag of tags)] loop of [dissectClinicalTopic], with the
    local [fallbackBroadSystem] as an accumulator; [continue] is the
    recursive call and [return tag] leaves the loop. *)
Fixpoint dissectClinicalTopic_loop (tags : list string)
    (fallbackBroadSystem : option string) : option string :=
  match tags with
  | [] => fallbackBroadSystem
  | tag :: rest =>
      let lowerTag := toLowerCase tag in
      if existsb (fun ignore => includes lowerTag ignore) ignoreList then
        dissectClinicalTopic_loop rest fallbackBroadSystem
      else if existsb (fun broad => includes lowerTag broad) broadSystems then
        dissectClinicalTopic_loop rest
          (if negb (truthy_string fallbackBroadSystem) then Some tag
           else fallbackBroadSystem)
      else Some tag
  end.

Definition dissectClinicalTopic (tags : list string) : option string :=
  match tags with
  | [] => None
  | _ => dissectClinicalTopic_loop tags None
  end.

(** *** Canonical topic in the words of the specification *)

Definition isIgnored (tag : string) : bool :=
  existsb (fun term => includes (toLowerCase tag) term) ignoreList.

Definition isBroad (tag : string) : bool :=
  existsb (fun term => includes (toLowerCase tag) term) broadSystems.

(** The first tag that is neither ignored nor broad; failing that, the first
    tag that is broad and not ignored; failing that, nothing. *)
Definition canonicalTopic (tags : list string) : option string :=
  match List.find (fun tag => negb (isIgnored tag) && negb (isBroad tag)) tags with
  | Some tag => Some tag
  | None => List.find (fun tag => negb (isIgnored tag) && isBroad tag) tags
  end.

(** ** [Array.prototype.sort]

    For a comparison function that orders the elements consistently the
    language fixes the result of [sort]: the stable arrangement in which no
    element is followed by one that sorts before it.  [Array_sort] builds
    that arrangement by insertion; [comparefn a b > 0] moves [a] after
    [b]. *)

Section ArraySort.
Context {A : Type} (comparefn : A -> A -> Number).

Definition sortsAfter (a b : A) : bool := JS.ltb JS.n0 (comparefn a b).

Fixpoint sort_insert (x : A) (sorted : list A) : list A :=
  match sorted with
  | [] => [x]
  | y :: rest =>
      if sortsAfter x y then y :: sort_insert x rest else x :: y :: rest
  end.

Fixpoint Array_sort (l : list A) : list A :=
  match l with
  | [] => []
  | x :: rest => sort_insert x (Array_sort rest)
  end.
End ArraySort.

(** ** Topic statistics: [src/components/AnalyticsView.tsx] *)

(** The fields of a question that the statistics read; an absent [tags] or
    [clinicalConcepts] is the empty list. *)
Record Question : Type := mkQuestion {
  q_id : string;
  tags : list string;
  clinicalConcepts : list string
}.

Record SessionDetail : Type := mkDetail {
  questionId : string;
  isCorrect : bool
}.

(** A stored session, with the fields that the code embedded here reads. *)
Record HistoricalSession : Type := mkSession {
  session_id : string;
  timestamp : Z;
  totalQuestions : Z;
  correctAnswers : Z;
  timeTakenMs : Z;
  details : list SessionDetail
}.

(** An entry of [tagStats]. *)
Record TagStat : Type := mkTagStat {
  stat_correct : Z;
  stat_total : Z;
  stat_history : list bool
}.

(** A row of [subtopicData]. *)
Record TopicRow : Type := mkTopicRow {
  name : string;
  accuracy : Number;
  correct : Z;
  total : Z;
  recentAccuracy : Number;
  urgency : Number
}.

(** [keysToTrack.add(key)] on a [Set] kept in insertion order. *)
Definition Set_add (keys : list string) (key : string) : list string :=
  if existsb (String.eqb key) keys then keys else keys ++ [key].

Definition keysToTrack (q : Question) : list string :=
  let cleanTopic := dissectClinicalTopic (tags q) in
  let concepts := clinicalConcepts q in
  match (if truthy_string cleanTopic then cleanTopic else None) with
  | Some topic =>
      match concepts with
      | _ :: _ =>
          fold_left Set_add
            (map (fun concept => (topic ++ ": " ++ concept)%string) concepts) []
      | [] => Set_add [] topic
      end
  | None =>
      match concepts with
      | _ :: _ => fold_left Set_add concepts []
      | [] => []
      end
  end.

(** [total += 1], [correct += 1] on a correct answer, [history.push]. *)
Definition bump (isCorrect : bool) (st : TagStat) : TagStat :=
  {| stat_correct := if isCorrect then (stat_correct st + 1)%Z else stat_correct st;
     stat_total := (stat_total st + 1)%Z;
     stat_history := stat_history st ++ [isCorrect] |}.

Definition emptyStat : TagStat :=
  {| stat_correct := 0; stat_total := 0; stat_history := [] |}.

(** The body of [keysToTrack.forEach]: [tagStats] is an object whose
    entries are kept in the order in which their keys were first set. *)
Fixpoint track (isCorrect : bool) (tagStats : list (string * TagStat))
    (key : string) : list (string * TagStat) :=
  match tagStats with
  | [] => [(key, bump isCorrect emptyStat)]
  | (k, st) :: rest =>
      if String.eqb k key then (k, bump isCorrect st) :: rest
      else (k, st) :: track isCorrect rest key
  end.

Definition trackDetail (questionLibrary : gmap string Question)
    (tagStats : list (string * TagStat)) (detail : SessionDetail)
  : list (string * TagStat) :=
  match questionLibrary !! questionId detail with
  | Some q => fold_left (track (isCorrect detail)) (keysToTrack q) tagStats
  | None => tagStats
  end.

Definition tagStats (questionLibrary : gmap string Question)
    (history : list HistoricalSession) : list (string * TagStat) :=
  fold_left
    (fun acc session => fold_left (trackDetail questionLibrary) (details session) acc)
    history [].

Definition percent (part whole : Z) : Number :=
  JS.Math_round (JS.mul (JS.div (JS.of_Z part) (JS.of_Z whole)) JS.n100).

Definition countTrue (l : list bool) : Z :=
  Z.of_nat (length (List.filter (fun b => b) l)).

Definition topicRow (entry : string * TagStat) : TopicRow :=
  let '(name, data) := entry in
  let accuracy := percent (stat_correct data) (stat_total data) in
  let recent5 := firstn 5 (stat_history data) in
  let recentCorrect := countTrue recent5 in
  let recentAccuracy :=
    match recent5 with
    | _ :: _ => percent recentCorrect (Z.of_nat (length recent5))
    | [] => accuracy
    end in
  let urgency :=
    JS.mul (JS.of_Z (stat_total data)) (JS.sub JS.n1 (JS.div accuracy JS.n100)) in
  {| name := name; accuracy := accuracy; correct := stat_correct data;
     total := stat_total data; recentAccuracy := recentAccuracy;
     urgency := urgency |}.

Definition subtopicData (questionLibrary : gmap string Question)
    (history : list HistoricalSession) : list TopicRow :=
  map topicRow (tagStats questionLibrary history).

(** The comparison function of the [weakness] sort. *)
Definition compareWeakness (a b : TopicRow) : Number :=
  let aValid := (3 <=? total a)%Z in
  let bValid := (3 <=? total b)%Z in
  if aValid && negb bValid then JS.of_Z (-1)
  else if negb aValid && bValid then JS.of_Z 1
  else
    let d := JS.sub (accuracy a) (accuracy b) in
    if JS.truthy d then d else JS.of_Z (total b - total a).

Definition sortByWeakness (rows : list TopicRow) : list TopicRow :=
  Array_sort compareWeakness rows.

(** A row whose accuracy is a whole percentage. *)
Definition percentRow (r : TopicRow) : Prop :=
  exists k : Z, (0 <= k <= 100)%Z /\ accuracy r = JS.of_Z k.

(** The answers recorded for the topic keys, in the order in which the
    nested [forEach] loops meet them. *)
Definition exposures (questionLibrary : gmap string Question)
    (history : list HistoricalSession) : list (string * bool) :=
  flat_map
    (fun session =>
       flat_map
         (fun detail =>
            match questionLibrary !! questionId detail with
            | Some q => map (fun key => (key, isCorrect detail)) (keysToTrack q)
            | None => []
            end)
         (details session))
    history.

Definition outcomesFor (key : string) (es : list (string * bool)) : list bool :=
  map snd (List.filter (fun e => String.eqb (fst e) key) es).

(** *** The recency buffer in the words of the specification *)

Module SpecStats.

(** Push to the front, keep at most five. *)
Definition pushRecent (buffer : list bool) (isCorrect : bool) : list bool :=
  firstn 5 (isCorrect :: buffer).

Definition recencyBuffer (outcomes : list bool) : list bool :=
  fold_left pushRecent outcomes [].

Definition recentAccuracy (overall : Number) (buffer : list bool) : Number :=
  match buffer with
  | _ :: _ => percent (countTrue buffer) (Z.of_nat (length buffer))
  | [] => overall
  end.

End SpecStats.

(** Structural equality of two binary64 values, as a test. *)
Definition same_number (x y : Number) : bool :=
  match x, y with
  | S754_zero s, S754_zero s' => Bool.eqb s s'
  | S754_infinity s, S754_infinity s' => Bool.eqb s s'
  | S754_nan, S754_nan => true
  | S754_finite s m e, S754_finite s' m' e' =>
      Bool.eqb s s' && Pos.eqb m m' && Z.eqb e e'
  | _, _ => false
  end.

(** The whole percentages. *)
Definition percentages : list Z := map Z.of_nat (seq 0 101).

(** On whole percentages binary64 subtraction, comparison and equality are
    those of the integers. *)
Definition percent_arith_exact (ka kb : Z) : bool :=
  same_number (JS.sub (JS.of_Z ka) (JS.of_Z kb)) (JS.of_Z (ka - kb))
  && Bool.eqb (JS.leb (JS.of_Z ka) (JS.of_Z kb)) (ka <=? kb)%Z
  && Bool.eqb (same_number (JS.of_Z ka) (JS.of_Z kb)) (ka =? kb)%Z.

(** [comparefn a b > 0] for the weakness sort, on the integers behind two
    rows: validity, percentage and total. *)
Definition weaknessAfter (va : bool) (ka ta : Z) (vb : bool) (kb tb : Z) : bool :=
  if va && negb vb then false
  else if negb va && vb then true
  else if (ka =? kb)%Z then (ta <? tb)%Z else (kb <? ka)%Z.

(** The entry that a sequence of answers builds up, first answer first. *)
Definition statFrom (outcomes : list bool) : TagStat :=
  fold_left (fun st b => bump b st) outcomes emptyStat.

(** [tagStats[key]]. *)
Definition statOf (key : string) (tagStats : list (string * TagStat))
  : option TagStat :=
  option_map snd (List.find (fun e => String.eqb (fst e) key) tagStats).

(** ** Due items and bookmarks: [src/App.tsx] *)

Record MasteryCard : Type := mkMasteryCard {
  mc_id : string;
  parentId : string
}.

(** What a due card resolves to. *)
Inductive DueItem : Type :=
  | vignette (data : Question)
  | mastery (data : MasteryCard).

(** [Object.values(o)].  The order of enumeration is not that of
    insertion; nothing below depends on it. *)
Definition Object_values {V : Type} (o : gmap string V) : list V :=
  (map_to_list o).*2.

(** The loop [for (const parentId in masteryCards)] with its [find]; the
    collections are kept in the order of the loop. *)
Fixpoint findMasteryCard (masteryCards : list (string * list MasteryCard))
    (id : string) : option MasteryCard :=
  match masteryCards with
  | [] => None
  | (_, cards) :: rest =>
      match List.find (fun c => String.eqb (mc_id c) id) cards with
      | Some card => Some card
      | None => findMasteryCard rest id
      end
  end.

(** The function mapped over the due cards; [None] is the [null] that the
    final [filter] drops. *)
Definition resolveDue (questionLibrary : gmap string Question)
    (masteryCards : list (string * list MasteryCard)) (s : SRSState)
  : option DueItem :=
  match questionLibrary !! cardId s with
  | Some q => Some (vignette q)
  | None => option_map mastery (findMasteryCard masteryCards (cardId s))
  end.

Definition isDue (now : Number) (s : SRSState) : bool := JS.leb (nextReview s) now.

Definition dueSRSItems (now : Number) (srsStates : gmap string SRSState)
    (questionLibrary : gmap string Question)
    (masteryCards : list (string * list MasteryCard)) : list DueItem :=
  let due := List.filter (isDue now) (Object_values srsStates) in
  omap id (map (resolveDue questionLibrary masteryCards) due).

(** A card that neither source knows. *)
Definition isOrphan (questionLibrary : gmap string Question)
    (masteryCards : list (string * list MasteryCard)) (s : SRSState) : bool :=
  match resolveDue questionLibrary masteryCards s with
  | Some _ => false
  | None => true
  end.

(** The part of the application state that bookmarking touches. *)
Record AppState : Type := mkAppState {
  bookmarks : list Question;
  questionLibrary : gmap string Question;
  srsStates : gmap string SRSState;
  masteryCards : list (string * list MasteryCard)
}.

Definition addToLibrary (questions : list Question) (prev : gmap string Question)
  : gmap string Question :=
  fold_left
    (fun next q => match next !! q_id q with
                   | Some _ => next
                   | None => <[ q_id q := q ]> next
                   end)
    questions prev.

Definition toggleBookmark (now : Number) (q : Question) (st : AppState) : AppState :=
  let isAlreadyBookmarked :=
    existsb (fun b => String.eqb (q_id b) (q_id q)) (bookmarks st) in
  if isAlreadyBookmarked then
    {| bookmarks :=
         List.filter (fun b => negb (String.eqb (q_id b) (q_id q))) (bookmarks st);
       questionLibrary := questionLibrary st;
       srsStates := srsStates st;
       masteryCards := masteryCards st |}
  else
    {| bookmarks := bookmarks st ++ [q];
       questionLibrary := addToLibrary [q] (questionLibrary st);
       srsStates :=
         match srsStates st !! q_id q with
         | Some _ => srsStates st
         | None => <[ q_id q := freshCard (q_id q) now ]> (srsStates st)
         end;
       masteryCards := masteryCards st |}.

Definition initialAppState : AppState :=
  {| bookmarks := []; questionLibrary := ∅; srsStates := ∅; masteryCards := [] |}.

(** *** Due items in the words of the specification *)

Module SpecDue.

(** First the bookmarked questions by id, then the mastery collections. *)
Definition resolve (bookmarked : list Question)
    (masteryCards : list (string * list MasteryCard)) (s : SRSState)
  : option DueItem :=
  match List.find (fun q => String.eqb (q_id q) (cardId s)) bookmarked with
  | Some q => Some (vignette q)
  | None => option_map mastery (findMasteryCard masteryCards (cardId s))
  end.

Definition dueItems (now : Number) (allCards : gmap string SRSState)
    (bookmarked : list Question)
    (masteryCards : list (string * list MasteryCard)) : list DueItem :=
  omap (resolve bookmarked masteryCards)
       (List.filter (isDue now) (Object_values allCards)).

End SpecDue.

(** *** Examples *)

Definition exampleQuestion (id : string) : Question :=
  {| q_id := id;
     tags := ["Step 2"; "Cardiology"; "Aortic Dissection"]%string;
     clinicalConcepts := [] |}.

Definition exampleLibrary : gmap string Question :=
  addToLibrary
    (map exampleQuestion ["q-1"; "q-2"; "q-3"; "q-4"; "q-5"; "q-6"]%string) ∅.

(** One block of six questions on the same topic, the last one missed. *)
Definition exampleSession : HistoricalSession :=
  {| session_id := "s-1"; timestamp := 1700000000000;
     totalQuestions := 6; correctAnswers := 5; timeTakenMs := 360000;
     details :=
       [ {| questionId := "q-1"; isCorrect := true |};
         {| questionId := "q-2"; isCorrect := true |};
         {| questionId := "q-3"; isCorrect := true |};
         {| questionId := "q-4"; isCorrect := true |};
         {| questionId := "q-5"; isCorrect := true |};
         {| questionId := "q-6"; isCorrect := false |} ] |}.

(** A question bookmarked at time 1000 and un-bookmarked at time 2000. *)
Definition unbookmarkedState : AppState :=
  toggleBookmark (JS.of_Z 2000) (exampleQuestion "q-1")
    (toggleBookmark (JS.of_Z 1000) (exampleQuestion "q-1") initialAppState).

(** *** The order of the answers *)

(** The answers recorded under a key in the order in which they were given.
    The history is kept newest first, as [saveSession] puts each session in
    front; the answers of a session are kept in the order of the quiz. *)
Definition chronological (lib : gmap string Question)
    (history : list HistoricalSession) (key : string) : list bool :=
  outcomesFor key (exposures lib (rev history)).

(** A session of one answer. *)
Definition oneAnswer (id question : string) (time : Z) (right : bool)
  : HistoricalSession :=
  {| session_id := id; timestamp := time;
     totalQuestions := 1; correctAnswers := if right then 1 else 0;
     timeTakenMs := 60000;
     details := [ {| questionId := question; isCorrect := right |} ] |}.

(** The six answers of [exampleSession], given in six sessions: the miss
    is the newest and comes first. *)
Definition exampleSessions : list HistoricalSession :=
  [ oneAnswer "s-6" "q-6" 1700000500000 false;
    oneAnswer "s-5" "q-5" 1700000400000 true;
    oneAnswer "s-4" "q-4" 1700000300000 true;
    oneAnswer "s-3" "q-3" 1700000200000 true;
    oneAnswer "s-2" "q-2" 1700000100000 true;
    oneAnswer "s-1" "q-1" 1700000000000 true ].

(** ** The database service *)

Record LifetimeStats : Type := mkLifetimeStats {
  stats_totalQuestions : Z;
  stats_totalCorrect : Z;
  totalHours : Number;
  avgAccuracy : Number;
  firstSessionDate : Z
}.

(** The study plan is stored and restored but never read by the code
    embedded here; it is kept as its text. *)
Definition StudyPlan : Type := string.

(** A value as [JSON.parse] builds it, with nothing known of its shape.  The
    fields of an object are listed once per key. *)
#[warnings="-register-all"] Inductive Json : Type :=
  | JsNull
  | JsBool (b : bool)
  | JsNumber (n : Number)
  | JsString (s : string)
  | JsArray (items : list Json)
  | JsObject (fields : list (string * Json)).

(** The values of the key-value store: the values of the seven types that
    the service declares, and [VJSON] for a value that has none of these
    types, which an import can put under any key. *)
Inductive StoreValue : Type :=
  | VSessions (history : list HistoricalSession)
  | VQuestions (bookmarks : list Question)
  | VCards (masteryCards : list (string * list MasteryCard))
  | VStates (srsStates : gmap string SRSState)
  | VLibrary (questionLibrary : gmap string Question)
  | VPlan (studyPlan : option StudyPlan)
  | VStats (lifetimeStats : LifetimeStats)
  | VJSON (value : Json).

(** [get<HistoricalSession[]>('history') || []]: the store is read at the
    type that the call declares. *)
Definition loadHistory (db : gmap string StoreValue) : list HistoricalSession :=
  match db !! "history"%string with
  | Some (VSessions h) => h
  | _ => []
  end.

(** [(a, b) => a.timestamp - b.timestamp] *)
Definition compareTimestamp (a b : HistoricalSession) : Number :=
  JS.of_Z (timestamp a - timestamp b).

(** [updateAnalytics(historyOverride)]: the statistics returned and the
    store after the write.  [now] is [Date.now()]; an array, even an empty
    one, is truthy, so an override is always used.  The result [None]
    stands for the [TypeError] of reading [sortedHistory[0].timestamp] from
    an empty array. *)
Definition updateAnalytics (now : Z) (historyOverride : option (list HistoricalSession))
    (db : gmap string StoreValue)
  : option LifetimeStats * gmap string StoreValue :=
  let history :=
    match historyOverride with
    | Some h => h
    | None => loadHistory db
    end in
  match history with
  | [] =>
      let empty :=
        {| stats_totalQuestions := 0; stats_totalCorrect := 0;
           totalHours := JS.n0; avgAccuracy := JS.n0; firstSessionDate := now |} in
      (Some empty, <[ "lifetimeStats"%string := VStats empty ]> db)
  | _ :: _ =>
      let totalQuestions := fold_left (fun acc s => acc + totalQuestions s)%Z history 0%Z in
      let totalCorrect := fold_left (fun acc s => acc + correctAnswers s)%Z history 0%Z in
      let totalTimeMs := fold_left (fun acc s => acc + timeTakenMs s)%Z history 0%Z in
      let sortedHistory := Array_sort compareTimestamp history in
      match sortedHistory with
      | [] => (None, db)
      | first :: _ =>
          let firstSessionDate := timestamp first in
          let stats :=
            {| stats_totalQuestions := totalQuestions;
               stats_totalCorrect := totalCorrect;
               totalHours := JS.toFixed1 (JS.div (JS.of_Z totalTimeMs) JS.n3600000);
               avgAccuracy := percent totalCorrect totalQuestions;
               firstSessionDate := firstSessionDate |} in
          (Some stats, <[ "lifetimeStats"%string := VStats stats ]> db)
      end
  end.

(** What a backup holds under one of the seven keys, for a key declared
    with type [T]: nothing ([undefined] or [null]), a value of type [T], or
    any other value.  The cast to [Partial<AppData>] checks nothing, so the
    third case is as possible as the second. *)
Inductive Field (T : Type) : Type :=
  | Missing
  | Present (value : T)
  | Other (value : Json).

Arguments Missing {T}.
Arguments Present {T} value.
Arguments Other {T} value.

(** An object read at the seven keys of [AppData]; its other keys are never
    read. *)
Record ImportData : Type := mkImportData {
  data_history : Field (list HistoricalSession);
  data_bookmarks : Field (list Question);
  data_masteryCards : Field (list (string * list MasteryCard));
  data_srsStates : Field (gmap string SRSState);
  data_questionLibrary : Field (gmap string Question);
  data_studyPlan : Field StudyPlan;
  data_lifetimeStats : Field LifetimeStats
}.

(** What [JSON.parse] can return: a primitive, an array, or an object, which
    is given by what it holds under the seven keys. *)
Inductive JSONValue : Type :=
  | JNull
  | JBool (b : bool)
  | JNumber (n : Number)
  | JString (s : string)
  | JArray (items : list Json)
  | JObject (data : ImportData).

Definition JSON_truthy (v : JSONValue) : bool :=
  match v with
  | JNull => false
  | JBool b => b
  | JNumber n => JS.truthy n
  | JString EmptyString => false
  | JString (String _ _) => true
  | JArray _ | JObject _ => true
  end.

(** [typeof v === 'object'] *)
Definition typeof_object (v : JSONValue) : bool :=
  match v with
  | JNull | JArray _ | JObject _ => true
  | JBool _ | JNumber _ | JString _ => false
  end.

Definition noData : ImportData :=
  {| data_history := Missing; data_bookmarks := Missing;
     data_masteryCards := Missing; data_srsStates := Missing;
     data_questionLibrary := Missing; data_studyPlan := Missing;
     data_lifetimeStats := Missing |}.

(** [const data: Partial<AppData> = parsed]; an array has none of the seven
    keys. *)
Definition dataOf (v : JSONValue) : ImportData :=
  match v with
  | JObject data => data
  | _ => noData
  end.

(** The value of a field as the store takes it; [None] when it is
    [undefined] or [null]. *)
Definition fieldValue {T : Type} (inject : T -> StoreValue) (field : Field T)
  : option StoreValue :=
  match field with
  | Missing => None
  | Present value => Some (inject value)
  | Other JsNull => None
  | Other value => Some (VJSON value)
  end.

(** [data[key]] *)
Definition dataField (data : ImportData) (key : string) : option StoreValue :=
  if String.eqb key "history" then fieldValue VSessions (data_history data)
  else if String.eqb key "bookmarks" then fieldValue VQuestions (data_bookmarks data)
  else if String.eqb key "masteryCards" then fieldValue VCards (data_masteryCards data)
  else if String.eqb key "srsStates" then fieldValue VStates (data_srsStates data)
  else if String.eqb key "questionLibrary" then
    fieldValue VLibrary (data_questionLibrary data)
  else if String.eqb key "studyPlan" then
    fieldValue (fun p => VPlan (Some p)) (data_studyPlan data)
  else if String.eqb key "lifetimeStats" then fieldValue VStats (data_lifetimeStats data)
  else None.

Definition importKeys : list string :=
  ["history"; "bookmarks"; "masteryCards"; "srsStates"; "questionLibrary";
   "studyPlan"; "lifetimeStats"]%string.

(** The body of [keys.forEach]: the value to put, or nothing for a skipped
    key. *)
Definition importValue (data : ImportData) (key : string) : option StoreValue :=
  match dataField data key with
  | Some value => Some value
  | None =>
      if String.eqb key "history" then Some (VSessions [])
      else if String.eqb key "bookmarks" then Some (VQuestions [])
      else if String.eqb key "masteryCards" then Some (VCards [])
      else if String.eqb key "srsStates" then Some (VStates ∅)
      else if String.eqb key "questionLibrary" then Some (VLibrary ∅)
      else if String.eqb key "studyPlan" then Some (VPlan None)
      else None
  end.

Definition putKey (data : ImportData) (db : gmap string StoreValue) (key : string)
  : gmap string StoreValue :=
  match importValue data key with
  | Some value => <[ key := value ]> db
  | None => db
  end.

(** ToBoolean of a value, negated. *)
Definition falsy (v : Json) : bool :=
  match v with
  | JsNull => true
  | JsBool b => negb b
  | JsNumber n => negb (JS.truthy n)
  | JsString EmptyString => true
  | JsString (String _ _) => false
  | JsArray _ | JsObject _ => false
  end.

(** [o[key]] on the fields of an object. *)
Fixpoint property (fields : list (string * Json)) (key : string) : option Json :=
  match fields with
  | [] => None
  | (k, v) :: rest => if String.eqb k key then Some v else property rest key
  end.

Definition isNull (v : Json) : bool :=
  match v with
  | JsNull => true
  | _ => false
  end.

(** How [updateAnalytics] goes on its argument: it computes statistics of a
    history, it throws, or it does arithmetic on entries that are not
    sessions, which is not modelled. *)
Inductive Analysis : Type :=
  | Computes (history : list HistoricalSession)
  | Raises
  | Unmodelled.

(** [updateAnalytics(v || [])] for a value [v] that is not an array of
    sessions.  A falsy value gives way to the empty array.  Of the others,
    only an array has [reduce]; an object that holds [length: 0] takes the
    branch of the empty history before [reduce] is called; an array with a
    [null] entry throws when the entry is read. *)
Definition analysisOf (v : Json) : Analysis :=
  if falsy v then Computes []
  else
    match v with
    | JsArray [] => Computes []
    | JsArray items => if existsb isNull items then Raises else Unmodelled
    | JsObject fields =>
        match property fields "length" with
        | Some (JsNumber n) => if JS.is_zero n then Computes [] else Raises
        | _ => Raises
        end
    | _ => Raises
    end.

(** [data['history'] || []] as the argument of [updateAnalytics]. *)
Definition historyArgument (data : ImportData) : Analysis :=
  match data_history data with
  | Missing => Computes []
  | Present history => Computes history
  | Other v => analysisOf v
  end.

(** [fullImport(jsonData)]; [parsed] is the result of [JSON.parse], [None]
    when it throws.  The store is cleared once validation has passed; every
    exception is caught and turns into [false], with the store as it is at
    that point.  The result is [None] where [historyArgument] is
    [Unmodelled]. *)
Definition fullImport (now : Z) (parsed : option JSONValue)
    (db : gmap string StoreValue) : option (bool * gmap string StoreValue) :=
  match parsed with
  | None => Some (false, db)
  | Some parsed =>
      if negb (JSON_truthy parsed) || negb (typeof_object parsed) then Some (false, db)
      else
        let data := dataOf parsed in
        let db := (∅ : gmap string StoreValue) in
        let db := fold_left (putKey data) importKeys db in
        match historyArgument data with
        | Computes history =>
            match updateAnalytics now (Some history) db with
            | (Some _, db) => Some (true, db)
            | (None, db) => Some (false, db)
            end
        | Raises => Some (false, db)
        | Unmodelled => None
        end
  end.

(** A JSON object, as the specification means it: not a primitive, not
    [null] and not an array. *)
Definition isObject (v : JSONValue) : bool :=
  match v with
  | JObject _ => true
  | _ => false
  end.

(** The value that ends up under a key: the field, or the default of the
    key. *)
Definition slot {T : Type} (inject : T -> StoreValue) (empty : StoreValue)
    (field : Field T) : StoreValue :=
  default empty (fieldValue inject field).

(** The six collections of a payload, each absent one at its default. *)
Definition collectionsOf (data : ImportData) : gmap string StoreValue :=
  <[ "studyPlan"%string :=
       slot (fun p => VPlan (Some p)) (VPlan None) (data_studyPlan data) ]>
  (<[ "questionLibrary"%string := slot VLibrary (VLibrary ∅) (data_questionLibrary data) ]>
  (<[ "srsStates"%string := slot VStates (VStates ∅) (data_srsStates data) ]>
  (<[ "masteryCards"%string := slot VCards (VCards []) (data_masteryCards data) ]>
  (<[ "bookmarks"%string := slot VQuestions (VQuestions []) (data_bookmarks data) ]>
  (<[ "history"%string := slot VSessions (VSessions []) (data_history data) ]> ∅))))).

(** An object that holds nothing but [history]. *)
Definition onlyHistory (history : Field (list HistoricalSession)) : ImportData :=
  {| data_history := history; data_bookmarks := Missing;
     data_masteryCards := Missing; data_srsStates := Missing;
     data_questionLibrary := Missing; data_studyPlan := Missing;
     data_lifetimeStats := Missing |}.

(** An object that holds [history] and [lifetimeStats]. *)
Definition historyAndStats (history : Field (list HistoricalSession))
    (stats : LifetimeStats) : ImportData :=
  {| data_history := history; data_bookmarks := Missing;
     data_masteryCards := Missing; data_srsStates := Missing;
     data_questionLibrary := Missing; data_studyPlan := Missing;
     data_lifetimeStats := Present stats |}.

(** The statistics of an empty history. *)
Definition emptyStats (now : Z) : LifetimeStats :=
  {| stats_totalQuestions := 0; stats_totalCorrect := 0;
     totalHours := JS.n0; avgAccuracy := JS.n0; firstSessionDate := now |}.

(** ** More of the analytics view *)

Definition sumTotals (tagStats : list (string * TagStat)) : Z :=
  fold_right (fun e acc => (stat_total (snd e) + acc)%Z) 0%Z tagStats.

(** The details of a history whose question is still in the library. *)
Definition knownDetails (questionLibrary : gmap string Question)
    (session : HistoricalSession) : HistoricalSession :=
  {| session_id := session_id session; timestamp := timestamp session;
     totalQuestions := totalQuestions session;
     correctAnswers := correctAnswers session;
     timeTakenMs := timeTakenMs session;
     details :=
       List.filter
         (fun detail =>
            match questionLibrary !! questionId detail with
            | Some _ => true
            | None => false
            end)
         (details session) |}.

Definition n10 : Number := S754_finite false 5629499534213120 (-49).

(** The momentum flags and the low-sample mark of a topic row, as the list
    of topics computes them. *)
Definition isLowSample (topic : TopicRow) : bool := (total topic <? 3)%Z.

Definition showImprovement (topic : TopicRow) : bool :=
  JS.ltb (JS.add (accuracy topic) n10) (recentAccuracy topic).

Definition showDecline (topic : TopicRow) : bool :=
  JS.ltb (recentAccuracy topic) (JS.sub (accuracy topic) n10).

(** Neither flag shows for a row whose recent accuracy is its accuracy
    [percent c t]. *)
Definition neutralAt (c t : Z) : bool :=
  negb (JS.ltb (JS.add (percent c t) n10) (percent c t))
  && negb (JS.ltb (percent c t) (JS.sub (percent c t) n10)).

Definition upToFive : list Z := map Z.of_nat (seq 0 6).

(** The comparison function of the [strength] sort. *)
Definition compareStrength (a b : TopicRow) : Number :=
  let aValid := (3 <=? total a)%Z in
  let bValid := (3 <=? total b)%Z in
  if aValid && negb bValid then JS.of_Z (-1)
  else if negb aValid && bValid then JS.of_Z 1
  else
    let d := JS.sub (accuracy b) (accuracy a) in
    if JS.truthy d then d else JS.of_Z (total b - total a).

Definition sortByStrength (rows : list TopicRow) : list TopicRow :=
  Array_sort compareStrength rows.

(** [comparefn a b > 0] for the strength sort, on the integers behind two
    rows. *)
Definition strengthAfter (va : bool) (ka ta : Z) (vb : bool) (kb tb : Z) : bool :=
  if va && negb vb then false
  else if negb va && vb then true
  else if (ka =? kb)%Z then (ta <? tb)%Z else (ka <? kb)%Z.

(** The [lifetime] memo of the analytics view: the persisted statistics
    when there are any, nothing for an empty history, and else statistics
    derived from the history.  [sorted] has the length of [history], so its
    empty case does not arise. *)
Definition lifetime (lifetimeStats : option LifetimeStats)
    (history : list HistoricalSession) : option LifetimeStats :=
  match lifetimeStats with
  | Some stats => Some stats
  | None =>
      match history with
      | [] => None
      | _ :: _ =>
          let totalQuestions := fold_left (fun acc s => acc + totalQuestions s)%Z history 0%Z in
          let totalCorrect := fold_left (fun acc s => acc + correctAnswers s)%Z history 0%Z in
          let totalTimeMs := fold_left (fun acc s => acc + timeTakenMs s)%Z history 0%Z in
          let sorted := Array_sort compareTimestamp history in
          match sorted with
          | first :: _ =>
              Some {| stats_totalQuestions := totalQuestions;
                      stats_totalCorrect := totalCorrect;
                      totalHours := JS.toFixed1 (JS.div (JS.of_Z totalTimeMs) JS.n3600000);
                      avgAccuracy := percent totalCorrect totalQuestions;
                      firstSessionDate := timestamp first |}
          | [] => None
          end
      end
  end.

(** ** The database service: saving a session and reading everything *)


(** [resetData()]: [store.clear()]. *)
Definition resetData (db : gmap string StoreValue) : gmap string StoreValue := ∅.






(** ** Spaced repetition: the states that reviews reach *)

(** What is known of a card after any sequence of ratings: the ease is at
    least 1.3, and the card is new or reset (no repetition, interval 0),
    or rated once since then (interval 1), or rated at least twice
    (interval at least 6). *)
Definition SRSInv (c : SRSState) : Prop :=
  pos_ge JS.n1_3 (ease c) /\
  ((repetitions c = JS.n0 /\ interval c = JS.n0) \/
   (repetitions c = JS.n1 /\ interval c = JS.n1) \/
   (pos_ge JS.n2 (repetitions c) /\ pos_ge JS.n6 (interval c))).

(** ** Mastery cards: [dissectQuestion] *)

(** [{ ...o, [key]: value }] for an object kept as the list of its entries:
    an existing key keeps its place, a new one goes last. *)
Fixpoint Object_set {V : Type} (o : list (string * V)) (key : string) (value : V)
  : list (string * V) :=
  match o with
  | [] => [(key, value)]
  | (k, v) :: rest =>
      if String.eqb k key then (key, value) :: rest
      else (k, v) :: Object_set rest key value
  end.

(** [o[key]] read as a condition; the values are arrays, which are truthy. *)
Definition hasKey {V : Type} (o : list (string * V)) (key : string) : bool :=
  existsb (fun entry => String.eqb (fst entry) key) o.

(** [layers.forEach(card => updateSRS(card.id, 'again'))]: the queued state
    updates run in order; [clock i] is what [Date.now()] returns in the
    update of index [i]. *)
Fixpoint rateAll (clock : nat -> Z) (i : nat) (layers : list MasteryCard)
    (states : gmap string SRSState) : gmap string SRSState :=
  match layers with
  | [] => states
  | card :: rest =>
      rateAll clock (S i) rest
        (updateSRS (JS.of_Z (clock i)) (mc_id card) again states)
  end.

(** [generateMasteryCards] ends with
    [cards.map(c => ({ ...c, parentId: question.id }))]. *)
Definition withParent (question : Question) (cards : list MasteryCard)
  : list MasteryCard :=
  map (fun c => {| mc_id := mc_id c; parentId := q_id question |}) cards.

(** [dissectQuestion(q, forceRegen)].  [generated] is what the call of the
    model returned and [JSON.parse] made of it, [None] when the call or the
    parsing fails: the error is caught and the state stays as it is. *)
Definition dissectQuestion (clock : nat -> Z) (q : Question) (forceRegen : bool)
    (generated : option (list MasteryCard)) (st : AppState) : AppState :=
  if hasKey (masteryCards st) (q_id q) && negb forceRegen then st
  else
    match generated with
    | None => st
    | Some cards =>
        let layers := withParent q cards in
        {| bookmarks := bookmarks st;
           questionLibrary := questionLibrary st;
           srsStates := rateAll clock 0 layers (srsStates st);
           masteryCards := Object_set (masteryCards st) (q_id q) layers |}
    end.

(** Every card state is stored under its own id. *)
Definition keyed (states : gmap string SRSState) : Prop :=
  map_Forall (fun id s => cardId s = id) states.

Definition isBookmarked (q : Question) (st : AppState) : bool :=
  existsb (fun b => String.eqb (q_id b) (q_id q)) (bookmarks st).

(** ** The quiz session: [src/App.tsx] *)

Module Quiz.

(** A question of a running session, with the one further field that the
    session flow reads. *)
Record QuizQuestion : Type := mkQuizQuestion {
  question : Question;
  correctIndex : Z
}.

(** The fields of [QuizSession] that the handlers below read or write.  An
    element [None] of [userAnswers] is [undefined]. *)
Record QuizSession : Type := mkQuizSession {
  questions : list QuizQuestion;
  currentQuestionIndex : nat;
  userAnswers : list (option Z);
  autoReinforce : bool
}.

(** The React state that the handlers share. *)
Record QuizState : Type := mkQuizState {
  session : option QuizSession;
  selectedAnswer : option Z;
  history : list HistoricalSession
}.

(** [a[i] = v] on a copy of the array: writing past the end extends it. *)
Fixpoint array_set {A : Type} (a : list (option A)) (i : nat) (v : A)
  : list (option A) :=
  match i, a with
  | O, [] => [Some v]
  | O, _ :: rest => Some v :: rest
  | S k, [] => None :: array_set [] k v
  | S k, x :: rest => x :: array_set rest k v
  end.

(** [a[i] ?? null] *)
Definition array_get (a : list (option Z)) (i : nat) : option Z :=
  match a !! i with
  | Some (Some v) => Some v
  | _ => None
  end.

(** [ans === q.correctIndex] *)
Definition answerIs (ans : option Z) (q : QuizQuestion) : bool :=
  match ans with
  | Some a => (a =? correctIndex q)%Z
  | None => false
  end.

(** The [reduce] of [processSessionCompletion]; [None] is the [TypeError]
    of reading [correctIndex] from a question that is not there. *)
Fixpoint correctCount (acc : Z) (answers : list (option Z))
    (questions : list QuizQuestion) : option Z :=
  match answers with
  | [] => Some acc
  | ans :: answers =>
      match questions with
      | [] => None
      | q :: questions =>
          correctCount (if answerIs ans q then acc + 1 else acc)%Z answers questions
      end
  end.

(** [questions.map((q, idx) => ({ questionId: q.id,
    isCorrect: userAnswers[idx] === q.correctIndex }))] *)
Fixpoint detailsOf (questions : list QuizQuestion) (answers : list (option Z))
  : list SessionDetail :=
  match questions with
  | [] => []
  | q :: questions =>
      {| questionId := q_id (question q);
         isCorrect := answerIs (match answers with a :: _ => a | [] => None end) q |}
      :: detailsOf questions (tl answers)
  end.

(** [processSessionCompletion(finalSession)] up to the history entry; [id]
    is the fresh identifier, [now] the clock reading and [timeTaken] the
    active time. *)
Definition processSessionCompletion (id : string) (now timeTaken : Z)
    (finalSession : QuizSession) : option HistoricalSession :=
  match correctCount 0 (userAnswers finalSession) (questions finalSession) with
  | None => None
  | Some correctCount =>
      Some {| session_id := id; timestamp := now;
              totalQuestions := Z.of_nat (length (questions finalSession));
              correctAnswers := correctCount;
              timeTakenMs := timeTaken;
              details := detailsOf (questions finalSession) (userAnswers finalSession) |}
  end.

(** [setHistory(prev => [newHistoryEntry, ...prev])]; a completion that
    throws is a rejected promise and leaves the history as it is. *)
Definition record (entry : option HistoricalSession)
    (history : list HistoricalSession) : list HistoricalSession :=
  match entry with
  | Some e => e :: history
  | None => history
  end.

(** The session that [startQuiz] sets once the first batch is there; an
    empty batch throws before any state is set. *)
Definition startSession (batch : list QuizQuestion) (autoReinforce : bool)
    (st : QuizState) : QuizState :=
  match batch with
  | [] => {| session := session st; selectedAnswer := None; history := history st |}
  | _ :: _ =>
      {| session := Some {| questions := batch; currentQuestionIndex := 0;
                            userAnswers := []; autoReinforce := autoReinforce |};
         selectedAnswer := None;
         history := history st |}
  end.

(** The updater that a background batch or a remediation set runs:
    [{ ...prev, questions: [...prev.questions, ...batch] }]. *)
Definition appendQuestions (batch : list QuizQuestion) (st : QuizState) : QuizState :=
  match session st with
  | None => st
  | Some s =>
      {| session := Some {| questions := questions s ++ batch;
                            currentQuestionIndex := currentQuestionIndex s;
                            userAnswers := userAnswers s;
                            autoReinforce := autoReinforce s |};
         selectedAnswer := selectedAnswer st;
         history := history st |}
  end.

(** [onAnswer={setSelectedAnswer}] *)
Definition selectAnswer (answer : option Z) (st : QuizState) : QuizState :=
  {| session := session st; selectedAnswer := answer; history := history st |}.

Definition handlePrev (st : QuizState) : QuizState :=
  match session st with
  | None => st
  | Some s =>
      match currentQuestionIndex s with
      | O => st
      | S prevIdx =>
          {| session := Some {| questions := questions s;
                                currentQuestionIndex := prevIdx;
                                userAnswers := userAnswers s;
                                autoReinforce := autoReinforce s |};
             selectedAnswer := array_get (userAnswers s) prevIdx;
             history := history st |}
      end
  end.

(** [handleNext]; the result [None] is the [TypeError] of reading
    [currentQuestion.correctIndex] when the index is past the questions.
    The remediation that it may start arrives later, through
    [appendQuestions]. *)
Definition handleNext (id : string) (now timeTaken : Z) (st : QuizState)
  : option QuizState :=
  match session st, selectedAnswer st with
  | Some s, Some selected =>
      let currentIdx := currentQuestionIndex s in
      match questions s !! currentIdx with
      | None => None
      | Some currentQuestion =>
          let updatedAnswers := array_set (userAnswers s) currentIdx selected in
          let nextIndex := S currentIdx in
          if (nextIndex <? length (questions s))%nat then
            Some {| session := Some {| questions := questions s;
                                       currentQuestionIndex := nextIndex;
                                       userAnswers := updatedAnswers;
                                       autoReinforce := autoReinforce s |};
                    selectedAnswer := array_get (userAnswers s) nextIndex;
                    history := history st |}
          else
            let finalSession :=
              {| questions := questions s; currentQuestionIndex := currentIdx;
                 userAnswers := updatedAnswers; autoReinforce := autoReinforce s |} in
            Some {| session := None;
                    selectedAnswer := selectedAnswer st;
                    history :=
                      record (processSessionCompletion id now timeTaken finalSession)
                             (history st) |}
      end
  | _, _ => Some st
  end.

(** [shouldReinforce] of [handleNext], for the chosen answer; [None] is the
    same [TypeError] as there. *)
Definition shouldReinforce (manualReinforce : bool) (s : QuizSession)
    (selected : Z) : option bool :=
  let currentIdx := currentQuestionIndex s in
  match questions s !! currentIdx with
  | None => None
  | Some currentQuestion =>
      let isCorrect := answerIs (Some selected) currentQuestion in
      let unanswered :=
        match array_get (userAnswers s) currentIdx with
        | Some _ => false
        | None => true
        end in
      Some (manualReinforce || (negb isCorrect && unanswered && autoReinforce s))
  end.

Definition answered (a : option Z) : bool :=
  match a with
  | Some _ => true
  | None => false
  end.

(** [executeQuit], with the answer that [handleQuitQuiz] has put aside. *)
Definition executeQuit (id : string) (now timeTaken : Z)
    (pendingQuitAnswer : option Z) (st : QuizState) : QuizState :=
  match session st with
  | None => st
  | Some s =>
      let finalAnswers :=
        match pendingQuitAnswer with
        | Some a => array_set (userAnswers s) (currentQuestionIndex s) a
        | None => userAnswers s
        end in
      let answeredCount := length (List.filter answered finalAnswers) in
      match answeredCount with
      | O => {| session := None; selectedAnswer := selectedAnswer st;
                history := history st |}
      | S _ =>
          let finalQuestions := firstn answeredCount (questions s) in
          let finalAnswers := firstn answeredCount finalAnswers in
          let finalSession :=
            {| questions := finalQuestions;
               currentQuestionIndex := currentQuestionIndex s;
               userAnswers := finalAnswers;
               autoReinforce := autoReinforce s |} in
          {| session := None;
             selectedAnswer := selectedAnswer st;
             history :=
               record (processSessionCompletion id now timeTaken finalSession)
                      (history st) |}
      end
  end.

(** What holds of a running session: the index points at a question, every
    question before it has an answer, and no answer is missing or goes past
    the questions. *)
Definition quizInv (st : QuizState) : bool :=
  match session st with
  | None => true
  | Some s =>
      (currentQuestionIndex s <? length (questions s))%nat
      && (currentQuestionIndex s <=? length (userAnswers s))%nat
      && (length (userAnswers s) <=? length (questions s))%nat
      && forallb answered (userAnswers s)
  end.

End Quiz.

(** ** Question generation: [src/unnamed/part_000]

    What [generateQuestions] and [generateSimilarQuestions] do to each
    question of the parsed response: the correct index is normalised, the
    options are shuffled, and tags are appended. *)

(** [a[k]]: [undefined], here [None], past the end. *)
Definition array_read (a : list (option string)) (k : nat) : option string :=
  match a !! k with
  | Some cell => cell
  | None => None
  end.

(** [a[k] = v]: writing past the end extends the array. *)
Fixpoint array_put (a : list (option string)) (k : nat) (v : option string)
  : list (option string) :=
  match k, a with
  | O, [] => [v]
  | O, _ :: rest => v :: rest
  | S k', [] => None :: array_put [] k' v
  | S k', x :: rest => x :: array_put rest k' v
  end.

(** [[a[i], a[j]] = [a[j], a[i]]]: both reads come first. *)
Definition swap (a : list (option string)) (i j : nat) : list (option string) :=
  let aj := array_read a j in
  let ai := array_read a i in
  array_put (array_put a i aj) j ai.

(** The loop [for (let i = ...; i > 0; i--)], entered at index [i];
    [draw i] is the value of [Math.floor(Math.random() * (i + 1))] in the
    iteration of index [i]. *)
Fixpoint shuffleFrom (draw : nat -> nat) (i : nat) (a : list (option string))
  : list (option string) :=
  match i with
  | O => a
  | S k => shuffleFrom draw k (swap a (S k) (draw (S k)))
  end.

Definition shuffledOptions (draw : nat -> nat) (options : list string)
  : list (option string) :=
  shuffleFrom draw (length options - 1) (map Some options).

(** [===] on array cells. *)
Definition cell_eqb (x y : option string) : bool :=
  match x, y with
  | Some s, Some t => String.eqb s t
  | None, None => true
  | _, _ => false
  end.

(** [a.indexOf(x)], counting from [k]. *)
Fixpoint indexOf_from (a : list (option string)) (x : option string) (k : Z) : Z :=
  match a with
  | [] => (-1)%Z
  | cell :: rest => if cell_eqb cell x then k else indexOf_from rest x (k + 1)%Z
  end.

Definition indexOf (a : list (option string)) (x : option string) : Z :=
  indexOf_from a x 0%Z.

(** The index of the response, an integer or [undefined], brought into the
    range of the options. *)
Definition actualCorrectIndex (correctIndex : option Z) (options : list string) : Z :=
  match correctIndex with
  | None => 0%Z
  | Some c =>
      if (c <? 0)%Z || (Z.of_nat (length options) <=? c)%Z then 0%Z else c
  end.

Definition originalCorrectOption (correctIndex : option Z) (options : list string)
  : option string :=
  array_read (map Some options) (Z.to_nat (actualCorrectIndex correctIndex options)).

Definition newCorrectIndex (draw : nat -> nat) (correctIndex : option Z)
    (options : list string) : Z :=
  indexOf (shuffledOptions draw options) (originalCorrectOption correctIndex options).

(** [[...(q.tags || []), ...examTypes, "Board Style"]] *)
Definition generatedTags (tags : option (list string)) (examTypes : list string)
  : list string :=
  default [] tags ++ examTypes ++ ["Board Style"%string].

(** [[...(q.tags || []), ...examTypes, "Remediation", "Board Style"]] *)
Definition remediationTags (tags : option (list string)) (examTypes : list string)
  : list string :=
  default [] tags ++ examTypes ++ ["Remediation"%string; "Board Style"%string].

Definition isSpecific (tag : string) : bool :=
  negb (isIgnored tag) && negb (isBroad tag).

(** ** The batches of [startQuiz] and the active time: [src/App.tsx] *)

(** [Math.min(a, b)]: NaN as soon as one side is, and [-0] below [+0]. *)
Definition Math_min (a b : Number) : Number :=
  if JS.is_nan a || JS.is_nan b then S754_nan
  else if JS.ltb b a then b
  else
    match a, b with
    | S754_zero false, S754_zero true => b
    | _, _ => a
    end.

(** The loop [for (let i = 0; i < batchCount; i++)] with the size that each
    iteration asks for; [None] when the fuel runs out. *)
Fixpoint batchLoop (fuel : nat) (remaining batchCount i : Number)
  : option (list Number) :=
  match fuel with
  | O => None
  | S fuel =>
      if JS.ltb i batchCount then
        let currentBatchSize := Math_min (JS.sub remaining (JS.mul i n10)) n10 in
        option_map (cons currentBatchSize)
                   (batchLoop fuel remaining batchCount (JS.add i JS.n1))
      else Some []
  end.

(** The sizes that [startQuiz] asks [generateQuestions] for, the first batch
    and then the background ones, when no call fails. *)
Definition batchSizes (fuel : nat) (count : Number) : option (list Number) :=
  let initialBatchSize := Math_min count n10 in
  if JS.ltb initialBatchSize count then
    let remaining := JS.sub count initialBatchSize in
    let batchCount := JS.Math_ceil (JS.div remaining n10) in
    option_map (cons initialBatchSize)
               (batchLoop fuel remaining batchCount JS.n0)
  else Some [initialBatchSize].

Module SpecPlan.

(** The plan on integers: full batches of 10 and a last one with the
    rest. *)
Definition plan (count : Z) : list Z :=
  let initial := Z.min count 10 in
  let remaining := (count - initial)%Z in
  initial ::
  map (fun i => Z.min (remaining - Z.of_nat i * 10) 10)
      (seq 0 (Z.to_nat ((remaining + 9) / 10))).

Definition total (sizes : list Z) : Z := fold_right Z.add 0%Z sizes.

End SpecPlan.

Definition same_numbers (xs ys : list Number) : bool :=
  (length xs =? length ys)%nat
  && forallb (fun p => same_number (fst p) (snd p)) (combine xs ys).

Definition planAgrees (fuel : nat) (count : Z) : bool :=
  match batchSizes fuel (JS.of_Z count) with
  | Some sizes => same_numbers sizes (map JS.of_Z (SpecPlan.plan count))
  | None => false
  end.

Definition counts (n : nat) : list Z := map (fun k => Z.of_nat (S k)) (seq 0 n).

(** The two time-tracking refs. *)
Record Timer : Type := mkTimer {
  activeTimeMs : Z;
  lastActiveTime : Z
}.

(** What [startQuiz] sets the refs to. *)
Definition startTimer (now : Z) : Timer :=
  {| activeTimeMs := 0; lastActiveTime := now |}.

(** [handleVisibilityChange], with [document.hidden] and [Date.now()]. *)
Definition handleVisibilityChange (hidden : bool) (now : Z) (t : Timer) : Timer :=
  if hidden then
    let delta := (now - lastActiveTime t)%Z in
    if (0 <? delta)%Z && (delta <? 86400000)%Z then
      {| activeTimeMs := activeTimeMs t + delta; lastActiveTime := lastActiveTime t |}
    else t
  else {| activeTimeMs := activeTimeMs t; lastActiveTime := now |}.

(** The final active time of [processSessionCompletion]; [now] and
    [later] are its two readings of the clock. *)
Definition finalTimer (hidden : bool) (now later : Z) (t : Timer) : Timer :=
  if negb hidden then
    {| activeTimeMs := activeTimeMs t + (now - lastActiveTime t);
       lastActiveTime := later |}
  else t.

Definition visibilityEvents (events : list (bool * Z)) (t : Timer) : Timer :=
  fold_left (fun t e => handleVisibilityChange (fst e) (snd e) t) events t.

(** ** The list of topics shown: [src/components/AnalyticsView.tsx] *)

(** [.filter(topic => topic.name.toLowerCase().includes(
    searchQuery.toLowerCase())).slice(0, searchQuery ? undefined : 20)] *)
Definition visibleTopics (searchQuery : string) (rows : list TopicRow)
  : list TopicRow :=
  let matching :=
    List.filter
      (fun topic => includes (toLowerCase (name topic)) (toLowerCase searchQuery))
      rows in
  if truthy_string (Some searchQuery) then matching else firstn 20 matching.

(** ** Retrying a request: [src/unnamed/part_000] *)

Section Retry.

(** Values and errors are left abstract; [retryable] stands for
    [isRateLimit || isRpcError], and [withStatus] for the error with its
    [status] filled in before it is thrown again. *)
Context {T E : Type}.
Variable retryable : E -> bool.
Variable withStatus : E -> E.

Inductive Outcome : Type :=
  | Resolved (value : T)
  | Rejected (error : E)
  | ResolvedUndefined.

(** The [while] loop of [fetchWithRetry]: [fn k] is how the call number [k]
    of [fn()] ends; the result is how [fetchWithRetry] ends and how many
    calls it made.  [None] when the fuel runs out. *)
Fixpoint retryLoop (fuel : nat) (fn : nat -> T + E) (maxRetries retries : nat)
  : option (Outcome * nat) :=
  match fuel with
  | O => None
  | S fuel =>
      if (retries <=? maxRetries)%nat then
        match fn retries with
        | inl value => Some (Resolved value, S retries)
        | inr error =>
            if retryable error && (retries <? maxRetries)%nat then
              retryLoop fuel fn maxRetries (S retries)
            else Some (Rejected (withStatus error), S retries)
        end
      else Some (ResolvedUndefined, retries)
  end.

Definition fetchWithRetry (fuel : nat) (fn : nat -> T + E) (maxRetries : nat)
  : option (Outcome * nat) :=
  retryLoop fuel fn maxRetries 0.

(** The call number [k] fails with an error that is tried again. *)
Definition failsRetryably (fn : nat -> T + E) (k : nat) : Prop :=
  match fn k with
  | inr error => retryable error = true
  | inl _ => False
  end.

End Retry.

(** ** Theorems *)

(** The literals are the correctly rounded quotients of their decimal
    numerators and denominators. *)
Lemma literals_correctly_rounded :
  JS.n1_3 = JS.div (JS.of_Z 13) (JS.of_Z 10) /\
  JS.n0_2 = JS.div (JS.of_Z 2) (JS.of_Z 10) /\
  JS.n0_15 = JS.div (JS.of_Z 15) (JS.of_Z 100) /\
  JS.n2_3 = JS.div (JS.of_Z 23) (JS.of_Z 10) /\
  JS.n1_2 = JS.div (JS.of_Z 12) (JS.of_Z 10) /\
  JS.n1_5 = JS.div (JS.of_Z 15) (JS.of_Z 10) /\
  JS.n0 = JS.of_Z 0 /\ JS.n1 = JS.of_Z 1 /\ JS.n6 = JS.of_Z 6 /\
  JS.n24 = JS.of_Z 24 /\ JS.n60 = JS.of_Z 60 /\ JS.n100 = JS.of_Z 100 /\
  JS.n1000 = JS.of_Z 1000 /\ JS.n3600000 = JS.of_Z 3600000 /\
  JS.n1e21 = JS.of_Z (10 ^ 21).
Proof. vm_compute. repeat split. Qed.

(** *** Rounding to nearest: lower bounds *)

Section Rounding.
Local Open Scope Z_scope.

(** [digits2_pos p] is the number of binary digits of [p]. *)
Lemma digits2_pos_bounds (p : positive) :
  2 ^ (Zpos (digits2_pos p) - 1) <= Zpos p < 2 ^ Zpos (digits2_pos p).
Proof.
  induction p as [p IH | p IH | ]; cbn [digits2_pos].
  - rewrite Pos2Z.inj_succ.
    replace (Z.succ (Zpos (digits2_pos p)) - 1) with (Z.succ (Zpos (digits2_pos p) - 1)) by lia.
    rewrite !Z.pow_succ_r by lia. lia.
  - rewrite Pos2Z.inj_succ.
    replace (Z.succ (Zpos (digits2_pos p)) - 1) with (Z.succ (Zpos (digits2_pos p) - 1)) by lia.
    rewrite !Z.pow_succ_r by lia. lia.
  - cbn. lia.
Qed.

Lemma digits2_pos_unique (p : positive) (n : Z) :
  2 ^ (n - 1) <= Zpos p < 2 ^ n -> Zpos (digits2_pos p) = n.
Proof.
  intros [Hlo Hhi].
  pose proof (digits2_pos_bounds p) as [Dlo Dhi].
  assert (Hn : 0 < n).
  { destruct (Z_lt_le_dec 0 n) as [|Hn]; [done|].
    assert (2 ^ n <= 2 ^ 0) by (destruct (Z_lt_le_dec n 0); [rewrite Z.pow_neg_r by lia; lia| apply Z.pow_le_mono_r; lia]).
    change (2 ^ 0) with 1 in *. lia. }
  destruct (Z.lt_trichotomy (Zpos (digits2_pos p)) n) as [Hlt | [Heq | Hgt]]; [|done|].
  - assert (2 ^ Zpos (digits2_pos p) <= 2 ^ (n - 1)) by (apply Z.pow_le_mono_r; lia). lia.
  - assert (2 ^ n <= 2 ^ (Zpos (digits2_pos p) - 1)) by (apply Z.pow_le_mono_r; lia). lia.
Qed.

(** Shifting right drops the low bit of the mantissa. *)
Lemma shr_1_m (r : shr_record) :
  0 <= shr_m r -> shr_m (shr_1 r) = shr_m r / 2 /\ 0 <= shr_m (shr_1 r).
Proof.
  destruct r as [m rb sb]; cbn [shr_m]. intros Hm.
  destruct m as [ | [p | p | ] | p ]; cbn [shr_1 shr_m]; try lia;
    (split; [ | lia ]).
  all: try reflexivity.
  - apply Z.div_unique with 1; lia.
  - apply Z.div_unique with 0; lia.
Qed.

Lemma pow2_pos (n : Z) : 0 <= n -> 0 < 2 ^ n.
Proof. intros; apply Z.pow_pos_nonneg; lia. Qed.

Lemma iter_shr_1_m (p : positive) :
  forall r, 0 <= shr_m r ->
    shr_m (SpecFloat.iter_pos shr_1 p r) = shr_m r / 2 ^ Zpos p
    /\ 0 <= shr_m (SpecFloat.iter_pos shr_1 p r).
Proof.
  pose proof (pow2_pos (Zpos p) ltac:(lia)) as Hp.
  induction p as [p IH | p IH | ]; intros r Hr; cbn [SpecFloat.iter_pos].
  - pose proof (pow2_pos (Zpos p) ltac:(lia)) as Hq.
    specialize (IH Hq).
    destruct (shr_1_m r Hr) as [E1 P1].
    destruct (IH _ P1) as [E2 P2]. destruct (IH _ P2) as [E3 P3].
    split; [|done]. rewrite E3, E2, E1.
    rewrite !Z.div_div by lia. f_equal.
    replace (Zpos p~1) with (Z.succ (Zpos p + Zpos p)) by lia.
    rewrite Z.pow_succ_r, Z.pow_add_r by lia. lia.
  - pose proof (pow2_pos (Zpos p) ltac:(lia)) as Hq.
    specialize (IH Hq).
    destruct (IH _ Hr) as [E2 P2]. destruct (IH _ P2) as [E3 P3].
    split; [|done]. rewrite E3, E2.
    rewrite !Z.div_div by lia. f_equal.
    replace (Zpos p~0) with (Zpos p + Zpos p) by lia.
    rewrite Z.pow_add_r by lia. lia.
  - destruct (shr_1_m r Hr) as [E1 P1]. split; [|done]. rewrite E1. reflexivity.
Qed.

(** Rounding to nearest moves the truncated mantissa up by at most one. *)
Lemma round_nearest_even_bounds (m : Z) (l : location) :
  m <= round_nearest_even m l <= m + 1.
Proof.
  destruct l as [ | [ | | ] ]; cbn; try lia. destruct (Z.even m); lia.
Qed.

(** [vle] does not depend on the common scale. *)
Lemma vle_scaled (m1 : positive) (e1 : Z) (m2 : positive) (e2 lo : Z) :
  lo <= e1 -> lo <= e2 ->
  vle m1 e1 m2 e2 <-> Zpos m1 * 2 ^ (e1 - lo) <= Zpos m2 * 2 ^ (e2 - lo).
Proof.
  intros H1 H2. unfold vle.
  set (mn := Z.min e1 e2).
  assert (Hmn : lo <= mn /\ mn <= e1 /\ mn <= e2) by (unfold mn; lia).
  replace (e1 - lo) with ((e1 - mn) + (mn - lo)) by lia.
  replace (e2 - lo) with ((e2 - mn) + (mn - lo)) by lia.
  rewrite !Z.pow_add_r by lia.
  pose proof (pow2_pos (mn - lo) ltac:(lia)) as Hs.
  rewrite !Z.mul_assoc.
  split; intros H.
  - apply Z.mul_le_mono_nonneg_r; lia.
  - apply Z.mul_le_mono_pos_r in H; lia.
Qed.

Lemma shr_spec (r : shr_record) (e n : Z) :
  0 <= shr_m r -> 0 <= n ->
  exists r', shr r e n = (r', e + n) /\ shr_m r' = shr_m r / 2 ^ n
             /\ (n = 0 -> r' = r).
Proof.
  intros Hr Hn. destruct n as [ | p | p ]; [ | | lia ].
  - exists r. cbn [shr]. rewrite Z.add_0_r, Z.div_1_r. done.
  - exists (SpecFloat.iter_pos shr_1 p r). cbn [shr].
    destruct (iter_shr_1_m p r Hr) as [E _]. split; [done|]. split; [done|]. lia.
Qed.

(** [2^(k-1) <= m * 2^e] forces the magnitude of [(m, e)] to be at least [k]. *)
Lemma magnitude_ge (mF : positive) (eF : Z) (M : positive) (E : Z) :
  2 ^ 52 <= Zpos mF -> vle mF eF M E ->
  52 + eF < Zpos (digits2_pos M) + E.
Proof.
  intros HF Hv.
  pose proof (digits2_pos_bounds M) as [_ HM].
  set (d := Zpos (digits2_pos M)) in *.
  unfold vle in Hv.
  assert (Hlo : Z.min eF E <= eF /\ Z.min eF E <= E) by lia.
  set (lo := Z.min eF E) in *.
  pose proof (pow2_pos (eF - lo) ltac:(lia)) as H1.
  pose proof (pow2_pos (E - lo) ltac:(lia)) as H2.
  assert (H3 : 2 ^ (52 + (eF - lo)) < 2 ^ (d + (E - lo))).
  { rewrite !Z.pow_add_r by lia.
    assert (2 ^ 52 * 2 ^ (eF - lo) <= Zpos mF * 2 ^ (eF - lo))
      by (apply Z.mul_le_mono_nonneg_r; lia).
    assert (Zpos M * 2 ^ (E - lo) < 2 ^ d * 2 ^ (E - lo))
      by (apply Z.mul_lt_mono_pos_r; lia).
    lia. }
  apply Z.pow_lt_mono_r_iff in H3; lia.
Qed.

Lemma fexp_normal (k : Z) : -1074 <= k - 53 -> fexp 53 1024 k = k - 53.
Proof. unfold fexp, emin. lia. Qed.

(** Rounding is monotone against a representable lower bound: if the
    normal number [F] is at most the exact value [M * 2^E], it is at most
    the rounded value, which is itself normal or [+Infinity]. *)
Lemma binary_round_aux_ge (mF : positive) (eF : Z) (M : positive) (E : Z) :
  Zpos (digits2_pos mF) = 53 -> -1074 <= eF ->
  2 ^ 52 <= Zpos M ->
  vle mF eF M E ->
  pos_ge (S754_finite false mF eF)
         (binary_round_aux 53 1024 false (Zpos M) E loc_Exact).
Proof.
  intros HdF HeF HM Hv.
  pose proof (digits2_pos_bounds mF) as [HFlo HFhi]. rewrite HdF in HFlo, HFhi.
  pose proof (magnitude_ge mF eF M E HFlo Hv) as Hk.
  pose proof (digits2_pos_bounds M) as [HMlo HMhi].
  set (d := Zpos (digits2_pos M)) in *.
  assert (Hd : 53 <= d).
  { destruct (Z_lt_le_dec d 53); [ | lia ].
    assert (2 ^ d <= 2 ^ 52) by (apply Z.pow_le_mono_r; lia). lia. }
  unfold binary_round_aux, shr_fexp. cbn [Zdigits2]. fold d.
  rewrite (fexp_normal (d + E)) by lia.
  replace (d + E - 53 - E) with (d - 53) by lia.
  destruct (shr_spec (shr_record_of_loc (Zpos M) loc_Exact) E (d - 53))
    as (r1 & -> & Hm1 & _); [ cbn; lia | lia | ].
  cbn [shr_record_of_loc shr_m] in Hm1.
  assert (Hm1b : 2 ^ 52 <= shr_m r1 < 2 ^ 53).
  { rewrite Hm1. split.
    - apply Z.div_le_lower_bound; [ apply pow2_pos; lia | ].
      rewrite <- Z.pow_add_r by lia. replace (d - 53 + 52) with (d - 1) by lia. done.
    - apply Z.div_lt_upper_bound; [ apply pow2_pos; lia | ].
      rewrite <- Z.pow_add_r by lia. replace (d - 53 + 53) with d by lia. done. }
  pose proof (round_nearest_even_bounds (shr_m r1) (loc_of_shr_record r1)) as Hm2.
  set (m2 := round_nearest_even (shr_m r1) (loc_of_shr_record r1)) in *.
  set (e1 := E + (d - 53)).
  assert (He1 : eF <= e1) by (unfold e1; lia).
  destruct m2 as [ | q | q ] eqn:Eq2; [ lia | | lia ].
  cbn [Zdigits2].
  destruct (Z_lt_le_dec (Zpos q) (2 ^ 53)) as [Hlt | Hge].
  - (* the rounded mantissa still has 53 digits *)
    assert (Hdq : Zpos (digits2_pos q) = 53) by (apply digits2_pos_unique; lia).
    rewrite Hdq, (fexp_normal (53 + e1)) by lia.
    replace (53 + e1 - 53 - e1) with 0 by lia.
    cbn [shr shr_record_of_loc shr_m].
    destruct (e1 <=? 1024 - 53) eqn:Ee; [ | exact I ].
    apply Z.leb_le in Ee.
    cbn [pos_ge normal]. split; [ split; [ done | lia ] | ].
    destruct (Z.eq_dec eF e1) as [Heq | Hne]; [ right | left; lia ].
    split; [ done | ].
    assert (HE : E <= eF) by (unfold e1 in Heq; lia).
    apply (proj1 (vle_scaled mF eF M E E HE (Z.le_refl E))) in Hv.
    rewrite Z.sub_diag, Z.mul_1_r in Hv.
    assert (Zpos mF <= shr_m r1); [ | lia ].
    rewrite Hm1. apply Z.div_le_lower_bound; [ apply pow2_pos; lia | ].
    replace (d - 53) with (eF - E) by (unfold e1 in Heq; lia). lia.
  - (* rounding carried into the next binade *)
    assert (Hq : Zpos q = 2 ^ 53) by lia.
    assert (Hdq : Zpos (digits2_pos q) = 54).
    { apply digits2_pos_unique. rewrite Hq. cbn. lia. }
    rewrite Hdq, (fexp_normal (54 + e1)) by lia.
    replace (54 + e1 - 53 - e1) with 1 by lia.
    destruct (shr_spec (shr_record_of_loc (Zpos q) loc_Exact) e1 1)
      as (r2 & -> & Hm3 & _); [ cbn; lia | lia | ].
    cbn [shr_record_of_loc shr_m] in Hm3. rewrite Hq in Hm3.
    change (2 ^ 53 / 2 ^ 1) with (Zpos 4503599627370496) in Hm3.
    rewrite Hm3.
    destruct (e1 + 1 <=? 1024 - 53) eqn:Ee; [ | exact I ].
    apply Z.leb_le in Ee.
    cbn [pos_ge normal]. split; [ split; [ reflexivity | lia ] | left; lia ].
Qed.

Lemma iter_xO (d m : positive) : Zpos (Pos.iter xO m d) = Zpos m * 2 ^ Zpos d.
Proof.
  induction d as [ | d IH ] using Pos.peano_ind.
  - cbn. lia.
  - rewrite Pos.iter_succ, Pos2Z.inj_succ, Z.pow_succ_r by lia.
    rewrite Pos2Z.inj_xO, IH. lia.
Qed.

Lemma shl_align_spec (mx : positive) (ex ex' : Z) :
  snd (shl_align mx ex ex') = Z.min ex ex' /\
  Zpos (fst (shl_align mx ex ex')) = Zpos mx * 2 ^ (ex - Z.min ex ex').
Proof.
  unfold shl_align. destruct (ex' - ex) as [ | p | p ] eqn:Ed; cbn [fst snd].
  - replace (Z.min ex ex') with ex by lia. rewrite Z.sub_diag. lia.
  - replace (Z.min ex ex') with ex by lia. rewrite Z.sub_diag. lia.
  - replace (Z.min ex ex') with ex' by lia. rewrite iter_xO.
    replace (ex - ex') with (Zpos p) by lia. done.
Qed.

Lemma vle_trans (m1 : positive) (e1 : Z) (m2 : positive) (e2 : Z)
    (m3 : positive) (e3 : Z) :
  vle m1 e1 m2 e2 -> vle m2 e2 m3 e3 -> vle m1 e1 m3 e3.
Proof.
  intros H12 H23.
  set (lo := Z.min e1 (Z.min e2 e3)).
  assert (Hlo : lo <= e1 /\ lo <= e2 /\ lo <= e3) by (unfold lo; lia).
  apply (proj1 (vle_scaled _ _ _ _ lo (proj1 Hlo) (proj1 (proj2 Hlo)))) in H12.
  apply (proj1 (vle_scaled _ _ _ _ lo (proj1 (proj2 Hlo)) (proj2 (proj2 Hlo)))) in H23.
  apply (proj2 (vle_scaled _ _ _ _ lo (proj1 Hlo) (proj2 (proj2 Hlo)))). lia.
Qed.

(** The same for [binary_round], which first aligns the mantissa. *)
Lemma binary_round_ge (mF : positive) (eF : Z) (M : positive) (E : Z) :
  Zpos (digits2_pos mF) = 53 -> -1074 <= eF ->
  vle mF eF M E ->
  pos_ge (S754_finite false mF eF) (binary_round 53 1024 false M E).
Proof.
  intros HdF HeF Hv.
  pose proof (digits2_pos_bounds mF) as [HFlo HFhi]. rewrite HdF in HFlo, HFhi.
  pose proof (magnitude_ge mF eF M E HFlo Hv) as Hk.
  pose proof (digits2_pos_bounds M) as [HMlo HMhi].
  unfold binary_round.
  set (d := Zpos (digits2_pos M)) in *.
  rewrite (fexp_normal (d + E)) by lia.
  pose proof (shl_align_spec M E (d + E - 53)) as [He' Hm'].
  destruct (shl_align M E (d + E - 53)) as [M' E']. cbn [fst snd] in He', Hm'.
  assert (HE' : E' <= E) by lia.
  apply binary_round_aux_ge; [ done | done | | ].
  - rewrite Hm'. destruct (Z_le_gt_dec E (d + E - 53)) as [Hc | Hc].
    + replace (E - Z.min E (d + E - 53)) with 0 by lia.
      assert (2 ^ 52 <= 2 ^ (d - 1)) by (apply Z.pow_le_mono_r; lia). lia.
    + replace (E - Z.min E (d + E - 53)) with (53 - d) by lia.
      assert (2 ^ (d - 1) * 2 ^ (53 - d) <= Zpos M * 2 ^ (53 - d))
        by (apply Z.mul_le_mono_nonneg_r; [ apply Z.lt_le_incl, pow2_pos | ]; lia).
      rewrite <- Z.pow_add_r in H by lia.
      replace (d - 1 + (53 - d)) with 52 in H by lia. done.
  - apply vle_trans with M E; [ done | ].
    apply (proj2 (vle_scaled M E M' E' E' HE' (Z.le_refl E'))).
    rewrite Z.sub_diag, Z.mul_1_r, Hm', <- He'. lia.
Qed.

Lemma pos_ge_vle (mF : positive) (eF : Z) (m : positive) (e : Z) :
  Zpos (digits2_pos mF) = 53 ->
  pos_ge (S754_finite false mF eF) (S754_finite false m e) ->
  vle mF eF m e.
Proof.
  intros HdF [[Hd _] Hord].
  pose proof (digits2_pos_bounds mF) as [_ HFhi]. rewrite HdF in HFhi.
  pose proof (digits2_pos_bounds m) as [Hlo _]. rewrite Hd in Hlo.
  change (53 - 1) with 52 in Hlo.
  destruct Hord as [Hlt | [-> Hle]].
  - apply (proj2 (vle_scaled mF eF m e eF (Z.le_refl eF) ltac:(lia))).
    rewrite Z.sub_diag, Z.mul_1_r.
    assert (2 ^ 1 <= 2 ^ (e - eF)) by (apply Z.pow_le_mono_r; lia).
    change (2 ^ 1) with 2 in *.
    assert (2 ^ 52 * 2 <= Zpos m * 2 ^ (e - eF)) by (apply Z.mul_le_mono_nonneg; lia).
    change (2 ^ 52 * 2) with (2 ^ 53) in *. lia.
  - apply (proj2 (vle_scaled mF e m e e (Z.le_refl e) (Z.le_refl e))).
    rewrite Z.sub_diag. lia.
Qed.

(** Adding a positive number does not go below a lower bound. *)
Lemma add_ge (mF : positive) (eF : Z) (x : Number) (my : positive) (ey : Z) :
  Zpos (digits2_pos mF) = 53 -> -1074 <= eF ->
  pos_ge (S754_finite false mF eF) x ->
  pos_ge (S754_finite false mF eF) (JS.add x (S754_finite false my ey)).
Proof.
  intros HdF HeF Hx.
  destruct x as [ [ | ] | [ | ] | | [ | ] mx ex ]; try contradiction; [ exact I | ].
  unfold JS.add, SFadd. cbn [cond_Zopp].
  pose proof (shl_align_spec mx ex (Z.min ex ey)) as [_ Ha].
  pose proof (shl_align_spec my ey (Z.min ex ey)) as [_ Hb].
  set (a := fst (shl_align mx ex (Z.min ex ey))) in *.
  set (b := fst (shl_align my ey (Z.min ex ey))) in *.
  change (Zpos a + Zpos b) with (Zpos (a + b)). cbn [binary_normalize].
  apply binary_round_ge; [ done | done | ].
  apply vle_trans with mx ex; [ apply pos_ge_vle; done | ].
  apply (proj2 (vle_scaled mx ex (a + b) _ (Z.min ex ey) ltac:(lia) (Z.le_refl _))).
  rewrite Z.sub_diag, Z.mul_1_r, Pos2Z.inj_add, Ha.
  replace (Z.min ex (Z.min ex ey)) with (Z.min ex ey) by lia. lia.
Qed.

(** Subtracting a small constant: if [G + y <= F] then [x >= F] gives
    [x - y >= G]. *)
Lemma sub_ge (mF : positive) (eF : Z) (mG : positive) (eG : Z)
    (x : Number) (my : positive) (ey : Z) :
  Zpos (digits2_pos mF) = 53 -> Zpos (digits2_pos mG) = 53 -> -1074 <= eG ->
  ey <= eF -> ey <= eG ->
  Zpos mG * 2 ^ (eG - ey) + Zpos my <= Zpos mF * 2 ^ (eF - ey) ->
  pos_ge (S754_finite false mF eF) x ->
  pos_ge (S754_finite false mG eG) (JS.sub x (S754_finite false my ey)).
Proof.
  intros HdF HdG HeG HyF HyG Hsum Hx.
  destruct x as [ [ | ] | [ | ] | | [ | ] mx ex ]; try contradiction; [ exact I | ].
  pose proof (pos_ge_vle _ _ _ _ HdF Hx) as Hv.
  assert (Hex : eF <= ex) by (destruct Hx as [_ [ | [ ] ]]; lia).
  unfold JS.sub, SFsub. cbn [cond_Zopp].
  replace (Z.min ex ey) with ey by lia.
  pose proof (shl_align_spec mx ex ey) as [_ Ha].
  pose proof (shl_align_spec my ey ey) as [_ Hb].
  replace (Z.min ex ey) with ey in Ha by lia.
  replace (Z.min ey ey) with ey in Hb by lia.
  rewrite Z.sub_diag, Z.mul_1_r in Hb.
  set (a := fst (shl_align mx ex ey)) in *.
  set (b := fst (shl_align my ey ey)) in *.
  apply (proj1 (vle_scaled mF eF mx ex ey HyF ltac:(lia))) in Hv.
  pose proof (pow2_pos (eG - ey) ltac:(lia)) as HpG.
  destruct (Zpos a - Zpos b) as [ | M | M ] eqn:EM; [ lia | | lia ].
  cbn [binary_normalize].
  apply binary_round_ge; [ done | done | ].
  apply (proj2 (vle_scaled mG eG M ey ey HyG (Z.le_refl _))).
  rewrite Z.sub_diag, Z.mul_1_r. lia.
Qed.

(** Multiplying by a constant that is at least one does not go below [x]. *)
Lemma mul_ge (x : Number) (mc : positive) (ec : Z) :
  ec <= 0 -> 2 ^ (- ec) <= Zpos mc ->
  normal x \/ x = S754_infinity false ->
  pos_ge x (JS.mul x (S754_finite false mc ec)).
Proof.
  intros Hec Hmc [Hx | ->]; [ | exact I ].
  destruct x as [ [ | ] | [ | ] | | [ | ] mx ex ]; try contradiction.
  destruct Hx as [Hd He].
  pose proof (digits2_pos_bounds mx) as [Hlo _]. rewrite Hd in Hlo.
  change (53 - 1) with 52 in Hlo.
  pose proof (pow2_pos (- ec) ltac:(lia)) as Hp.
  unfold JS.mul, SFmul. cbn [xorb].
  apply binary_round_aux_ge; [ done | lia | | ].
  - rewrite Pos2Z.inj_mul. nia.
  - apply (proj2 (vle_scaled mx ex (mx * mc) (ex + ec) (ex + ec) ltac:(lia) (Z.le_refl _))).
    rewrite Z.sub_diag, Z.mul_1_r, Pos2Z.inj_mul.
    replace (ex - (ex + ec)) with (- ec) by lia. nia.
Qed.

(** [Math.ceil] does not go below a lower bound of its argument. *)
Lemma ceil_ge (mF : positive) (eF : Z) (y : Number) :
  Zpos (digits2_pos mF) = 53 -> -1074 <= eF ->
  pos_ge (S754_finite false mF eF) y ->
  pos_ge (S754_finite false mF eF) (JS.Math_ceil y).
Proof.
  intros HdF HeF Hy.
  destruct y as [ [ | ] | [ | ] | | [ | ] m e ]; try contradiction; [ exact I | ].
  unfold JS.Math_ceil.
  destruct (0 <=? e) eqn:Ee; [ done | ].
  apply Z.leb_gt in Ee. cbn [cond_Zopp].
  pose proof (pow2_pos (- e) ltac:(lia)) as Hp.
  pose proof (Z.div_mod (- Zpos m) (2 ^ (- e)) ltac:(lia)) as Hdm.
  pose proof (Z.mod_pos_bound (- Zpos m) (2 ^ (- e)) Hp) as Hr.
  set (q := - Zpos m / 2 ^ (- e)) in *.
  destruct (- q) as [ | c | c ] eqn:Ec; [ nia | | nia ].
  cbn [binary_normalize].
  apply binary_round_ge; [ done | done | ].
  apply vle_trans with m e; [ apply pos_ge_vle; done | ].
  apply (proj2 (vle_scaled m e c 0 e (Z.le_refl _) ltac:(lia))).
  rewrite Z.sub_diag, Z.mul_1_r, Z.sub_0_l. nia.
Qed.

Lemma pos_ge_leb (F x : Number) :
  pos_ge F x -> JS.leb F x = true.
Proof.
  destruct F as [ [ | ] | [ | ] | | [ | ] mF eF ];
    destruct x as [ [ | ] | [ | ] | | [ | ] m e ]; cbn [pos_ge]; try contradiction;
    try reflexivity.
  intros [_ Hord]. unfold JS.leb, SFleb, SFcompare.
  destruct Hord as [Hlt | [-> Hle]].
  - apply Z.compare_lt_iff in Hlt. rewrite Hlt. reflexivity.
  - rewrite Z.compare_refl. change (Pos.compare_cont Eq mF m) with (Pos.compare mF m).
    destruct (Pos.compare_spec mF m); try reflexivity. lia.
Qed.

Lemma pos_ge_trans (F x y : Number) :
  pos_ge F x -> pos_ge x y -> pos_ge F y.
Proof.
  destruct F as [ [ | ] | [ | ] | | [ | ] mF eF ];
    destruct x as [ [ | ] | [ | ] | | [ | ] mx ex ];
    destruct y as [ [ | ] | [ | ] | | [ | ] my ey ]; cbn [pos_ge]; try tauto.
  intros [_ H1] [Hn H2]. split; [ done | lia ].
Qed.

Lemma pos_ge_refl (x : Number) :
  normal x \/ x = S754_infinity false -> pos_ge x x.
Proof.
  intros [Hx | ->]; [ | exact I ].
  destruct x as [ [ | ] | [ | ] | | [ | ] m e ]; try contradiction.
  cbn [pos_ge]. split; [ done | right; lia ].
Qed.

Lemma pos_ge_normal_or_inf (F x : Number) :
  pos_ge F x -> normal x \/ x = S754_infinity false.
Proof.
  destruct F as [ [ | ] | [ | ] | | [ | ] mF eF ];
    destruct x as [ [ | ] | [ | ] | | [ | ] m e ]; cbn [pos_ge]; try tauto.
Qed.

(** [Math.max(1.3, y)] is at least 1.3 whenever [y] is a number not below 1. *)
Lemma max_floor_ge (y : Number) :
  pos_ge JS.n1 y -> pos_ge JS.n1_3 (JS.Math_max JS.n1_3 y).
Proof.
  intros Hy. unfold JS.Math_max.
  destruct y as [ [ | ] | [ | ] | | [ | ] m e ]; try contradiction; [ exact I | ].
  cbn [JS.is_nan orb]. destruct Hy as [Hn _].
  unfold JS.ltb, SFltb, SFcompare, JS.n1_3.
  destruct (Z.compare_spec (-52) e) as [<- | Hlt | Hgt].
  - change (Pos.compare_cont Eq 5854679515581645 m) with (Pos.compare 5854679515581645 m).
    destruct (Pos.compare_spec 5854679515581645 m) as [ | Hl | ].
    + vm_compute. split; [ split; [ done | split; discriminate ] | right; split; [ done | discriminate ] ].
    + cbn [pos_ge]. split; [ done | right; lia ].
    + vm_compute. split; [ split; [ done | split; discriminate ] | right; split; [ done | discriminate ] ].
  - cbn [pos_ge]. split; [ done | left; lia ].
  - vm_compute. split; [ split; [ done | split; discriminate ] | right; split; [ done | discriminate ] ].
Qed.

End Rounding.

(** *** The review transition *)

(** The sequential rebinding of the three locals in [updateSRS] amounts to
    the field-wise rules. *)
Lemma updateSRS_card_unfold (now : Number) (c : SRSState) (rating : SRSRating) :
  updateSRS_card now c rating =
  {| cardId := cardId c;
     nextReview := JS.add now (Spec.daysToMs (Spec.intervalDays' c rating));
     interval := Spec.intervalDays' c rating;
     ease := Spec.easeFactor' c rating;
     repetitions := Spec.repetitionCount' c rating |}.
Proof.
  destruct c as [id nr iv e r].
  destruct rating; unfold updateSRS_card; cbn;
    try reflexivity;
    destruct (JS.eqb r JS.n0); try reflexivity;
    destruct (JS.eqb r JS.n1); reflexivity.
Qed.

(** C1. For every card state and every rating, the state computed by
    [updateSRS] is the one given by the transition rules of the
    specification: the reset on [again]; otherwise the interval 1, 6 or
    [ceil(interval * multiplier)] with the pre-adjustment ease, one more
    repetition and the adjusted ease; and the next review at
    [now + interval] days. *)
Theorem updateSRS_card_applyRating :
  forall (now : Number) (c : SRSState) (rating : SRSRating),
    updateSRS_card now c rating = Spec.applyRating now c rating.
Proof.
  intros now c rating. rewrite updateSRS_card_unfold. reflexivity.
Qed.

(** *** The ease floor *)

Lemma ease_floor_step (now : Number) (c : SRSState) (rating : SRSRating) :
  pos_ge JS.n1_3 (ease c) -> pos_ge JS.n1_3 (ease (updateSRS_card now c rating)).
Proof.
  intros H. rewrite updateSRS_card_unfold. cbn [ease].
  destruct rating; cbn [Spec.easeFactor'].
  - apply max_floor_ge.
    apply (sub_ge 5854679515581645 (-52) 4503599627370496 (-52)); try done.
  - apply max_floor_ge.
    apply (sub_ge 5854679515581645 (-52) 4503599627370496 (-52)); try done.
  - done.
  - apply add_ge; done.
Qed.

(** C2. From the creation baseline [ease = 2.3], after every sequence of
    ratings the ease is at least 1.3; as the sequence is arbitrary, this
    holds after each application in it. *)
Theorem ease_floor (c : SRSState) (steps : list (Number * SRSRating)) :
  ease c = JS.n2_3 ->
  JS.leb JS.n1_3 (ease (reviews c steps)) = true.
Proof.
  intros Hc. apply pos_ge_leb.
  assert (H : pos_ge JS.n1_3 (ease c)).
  { rewrite Hc. vm_compute. split; [ split; [ done | split; discriminate ] | left; done ]. }
  clear Hc. revert c H.
  induction steps as [ | [now rating] steps IH ]; intros c H; [ done | ].
  cbn [reviews fold_left fst snd]. apply IH. apply ease_floor_step. done.
Qed.

(** *** Streaks of [good] *)

Lemma pos_ge_2_not_0_1 (r : Number) :
  pos_ge JS.n2 r -> JS.eqb r JS.n0 = false /\ JS.eqb r JS.n1 = false.
Proof.
  destruct r as [ [ | ] | [ | ] | | [ | ] m e ]; try contradiction; [ done | ].
  intros [_ Hord]. unfold JS.eqb, SFeqb, SFcompare, JS.n0, JS.n1.
  split; [ done | ].
  destruct (Z.compare_spec e (-52)); try done. lia.
Qed.

Ltac pos_ge_const :=
  match goal with
  | |- pos_ge ?F ?x =>
      let F' := eval vm_compute in F in
      let x' := eval vm_compute in x in
      change (pos_ge F' x'); cbn [pos_ge normal];
      first [ exact I | split; [ split; [ reflexivity | lia ] | lia ] ]
  end.

Lemma good_step (now : Number) (n : nat) (c : SRSState) :
  GoodInv n c ->
  GoodInv (S n) (updateSRS_card now c good) /\
  JS.leb (interval c) (interval (updateSRS_card now c good)) = true /\
  ((2 <= n)%nat ->
   interval (updateSRS_card now c good)
   = JS.Math_ceil (JS.mul (interval c) JS.n2_3)).
Proof.
  intros [He Hcase]. rewrite updateSRS_card_unfold.
  unfold GoodInv. cbn [ease repetitions interval].
  unfold Spec.intervalDays', Spec.repetitionCount', Spec.easeFactor', Spec.multiplier.
  rewrite He.
  destruct n as [ | [ | n ] ].
  - destruct Hcase as [-> ->].
    split; [ split; [ done | split; done ] | split; [ done | lia ] ].
  - destruct Hcase as [-> ->].
    split; [ split; [ done | split; pos_ge_const ] | split; [ done | lia ] ].
  - destruct Hcase as [Hr Hi].
    destruct (pos_ge_2_not_0_1 _ Hr) as [-> ->].
    assert (Hstep : pos_ge (interval c) (JS.Math_ceil (JS.mul (interval c) JS.n2_3))).
    { pose proof (pos_ge_normal_or_inf _ _ Hi) as Hn.
      pose proof (mul_ge (interval c) 5179139571476070 (-51) ltac:(lia) ltac:(done) Hn) as Hm.
      fold JS.n2_3 in Hm.
      destruct (interval c) as [ [ | ] | [ | ] | | [ | ] m e ] eqn:Ei;
        try (destruct Hn as [ [] | Hn ]; discriminate Hn).
      - destruct (JS.mul _ _) as [ [ | ] | [ | ] | | [ | ] m' e' ]; try contradiction. exact I.
      - destruct Hn as [ [Hd Hb] | Hn ]; [ | discriminate Hn ].
        apply ceil_ge; [ done | lia | done ]. }
    split; [ split; [ done | split ] | split ].
    + apply (add_ge 4503599627370496 (-51)); done.
    + apply pos_ge_trans with (interval c); done.
    + apply pos_ge_leb. done.
    + done.
Qed.

Lemma streak_good_inv (id : string) (t0 : Number) (clock : nat -> Number) (n : nat) :
  GoodInv n (streak good clock (freshCard id t0) n).
Proof.
  induction n as [ | n IH ].
  - split; done.
  - cbn [streak]. apply good_step. done.
Qed.

(** C3. From a fresh card rated [good] again and again, the intervals are
    0, 1, 6, [ceil(6 * 2.3)], and from then on the ceiling of the previous
    interval times the ease; each is at least the one before it. *)
Theorem good_streak_intervals :
  forall (id : string) (t0 : Number) (clock : nat -> Number),
    let card := streak good clock (freshCard id t0) in
    interval (card 0%nat) = JS.n0 /\
    interval (card 1%nat) = JS.n1 /\
    interval (card 2%nat) = JS.n6 /\
    interval (card 3%nat) = JS.Math_ceil (JS.mul JS.n6 JS.n2_3) /\
    (forall n : nat, (2 <= n)%nat ->
       interval (card (S n)) = JS.Math_ceil (JS.mul (interval (card n)) JS.n2_3)) /\
    (forall n : nat, JS.leb (interval (card n)) (interval (card (S n))) = true).
Proof.
  intros id t0 clock card.
  assert (Hstep : forall n : nat, (2 <= n)%nat ->
            interval (card (S n)) = JS.Math_ceil (JS.mul (interval (card n)) JS.n2_3)).
  { intros n Hn. unfold card. cbn [streak].
    apply (good_step (clock n) n _ (streak_good_inv id t0 clock n)). done. }
  assert (H1 : interval (card 1%nat) = JS.n1).
  { pose proof (streak_good_inv id t0 clock 1) as [_ [_ H]]. done. }
  assert (H2 : interval (card 2%nat) = JS.n6).
  { unfold card. cbn [streak]. rewrite updateSRS_card_unfold.
    cbn [interval]. unfold Spec.intervalDays'.
    pose proof (streak_good_inv id t0 clock 1) as [_ [Hr _]].
    cbn [streak] in Hr. rewrite Hr. done. }
  split; [ reflexivity | ]. split; [ exact H1 | ]. split; [ exact H2 | ].
  split; [ rewrite (Hstep 2%nat) by lia; rewrite H2; reflexivity | ].
  split; [ exact Hstep | ].
  intros n. unfold card. cbn [streak].
  apply (good_step (clock n) n _ (streak_good_inv id t0 clock n)).
Qed.

Example ceil_6_ease : JS.Math_ceil (JS.mul JS.n6 JS.n2_3) = JS.of_Z 14.
Proof. vm_compute. reflexivity. Qed.

(** A run of the ease floor on a concrete sequence of reviews. *)
Lemma ease_floor_witness :
  JS.leb JS.n1_3
    (ease (reviews (defaultSRSState "q-1")
             [(JS.n0, hard); (JS.n1000, again); (JS.n1000, again); (JS.n1000, easy)]))
  = true.
Proof.
  apply (ease_floor (defaultSRSState "q-1")). reflexivity.
Defined.

(** *** Rating an id that has no state *)

(** C10. Rating an id with no entry in the map of card states stores the
    transition of the default state (interval 0, ease 2.3, no repetition,
    next review 0) under that id and leaves every other entry as it was. *)
Theorem updateSRS_untracked :
  forall (now : Number) (id : string) (rating : SRSRating)
         (prev : gmap string SRSState),
    prev !! id = None ->
    defaultSRSState id =
      {| cardId := id; nextReview := JS.n0; interval := JS.n0;
         ease := JS.n2_3; repetitions := JS.n0 |} /\
    updateSRS now id rating prev !! id
      = Some (Spec.applyRating now (defaultSRSState id) rating) /\
    (forall other : string, other <> id ->
       updateSRS now id rating prev !! other = prev !! other).
Proof.
  intros now id rating prev Hnone. unfold updateSRS. rewrite Hnone. cbn [default].
  split; [ reflexivity | split ].
  - rewrite lookup_insert_eq, updateSRS_card_unfold. reflexivity.
  - intros other Hne. apply lookup_insert_ne. congruence.
Qed.

Lemma updateSRS_untracked_witness :
  updateSRS JS.n1000 "q-2" good {[ "q-1" := freshCard "q-1" JS.n0 ]} !! "q-2"
    = Some (Spec.applyRating JS.n1000 (defaultSRSState "q-2") good) /\
  updateSRS JS.n1000 "q-2" good {[ "q-1" := freshCard "q-1" JS.n0 ]} !! "q-1"
    = Some (freshCard "q-1" JS.n0).
Proof.
  destruct (updateSRS_untracked JS.n1000 "q-2" good
              {[ "q-1" := freshCard "q-1" JS.n0 ]}) as (_ & H1 & H2).
  - apply lookup_singleton_ne. discriminate.
  - split; [ exact H1 | ]. rewrite H2 by discriminate. apply lookup_singleton_eq.
Defined.
(** *** Topic canonicalization *)

Lemma isBroad_nonempty (tag : string) : isBroad tag = true -> tag <> EmptyString.
Proof. intros H ->. vm_compute in H. discriminate. Qed.

(** The loop, started with a fallback that is either absent or a non-empty
    tag, returns the first specific tag; failing that, the fallback it
    started with if there is one, and else the first broad tag. *)
Lemma dissectClinicalTopic_loop_spec (tags : list string) :
  forall fallback : option string,
    (forall t, fallback = Some t -> t <> EmptyString) ->
    dissectClinicalTopic_loop tags fallback =
    match List.find (fun tag => negb (isIgnored tag) && negb (isBroad tag)) tags with
    | Some tag => Some tag
    | None =>
        match fallback with
        | Some t => Some t
        | None => List.find (fun tag => negb (isIgnored tag) && isBroad tag) tags
        end
    end.
Proof.
  induction tags as [ | tag rest IH ]; intros fallback Hfb.
  - destruct fallback; reflexivity.
  - cbn [dissectClinicalTopic_loop List.find].
    fold (isIgnored tag). fold (isBroad tag).
    destruct (isIgnored tag) eqn:Ei; cbn [negb andb].
    + apply IH. exact Hfb.
    + destruct (isBroad tag) eqn:Eb; cbn [negb]; [ | reflexivity ].
      destruct fallback as [ t | ].
      * assert (Ht : truthy_string (Some t) = true).
        { destruct t; [ | reflexivity ]. exfalso. apply (Hfb EmptyString); reflexivity. }
        rewrite Ht. cbn [negb]. rewrite IH by exact Hfb. reflexivity.
      * cbn [truthy_string negb]. rewrite IH.
        -- reflexivity.
        -- intros t [= <-]. apply isBroad_nonempty. exact Eb.
Qed.

(** C4. [dissectClinicalTopic] scans the tags in order, skips the ignored
    ones, returns the first tag that is neither ignored nor broad, and
    otherwise the first broad tag it met, or null; the three examples of the
    specification evaluate as stated. *)
Theorem dissectClinicalTopic_canonical :
  (forall tags : list string, dissectClinicalTopic tags = canonicalTopic tags) /\
  dissectClinicalTopic ["Step 2"; "Cardiology"; "Aortic Dissection"]%string
    = Some "Aortic Dissection"%string /\
  dissectClinicalTopic ["USMLE"; "Surgery"]%string = Some "Surgery"%string /\
  dissectClinicalTopic ["NBME"; "Step 1"]%string = None.
Proof.
  split; [ | vm_compute; auto ].
  intros [ | tag rest ]; [ reflexivity | ].
  unfold dissectClinicalTopic, canonicalTopic.
  rewrite dissectClinicalTopic_loop_spec by discriminate. reflexivity.
Qed.

(** *** [Array.prototype.sort] with a consistent comparison *)

Section ArraySortFacts.
Context {A : Type} (comparefn : A -> A -> Number) (P : A -> Prop).

Let R (a b : A) : Prop := sortsAfter comparefn a b = false.

Hypothesis after_asym :
  forall a b, P a -> P b ->
    sortsAfter comparefn a b = true -> sortsAfter comparefn b a = false.
Hypothesis not_after_trans :
  forall a b c, P a -> P b -> P c ->
    sortsAfter comparefn a b = false -> sortsAfter comparefn b c = false ->
    sortsAfter comparefn a c = false.

Lemma sort_insert_perm (x : A) (l : list A) :
  Permutation (x :: l) (sort_insert comparefn x l).
Proof.
  induction l as [ | y l IH ]; cbn [sort_insert]; [ reflexivity | ].
  destruct (sortsAfter comparefn x y); [ | reflexivity ].
  rewrite perm_swap. apply perm_skip. exact IH.
Qed.

Lemma Array_sort_perm (l : list A) : Permutation l (Array_sort comparefn l).
Proof.
  induction l as [ | x l IH ]; cbn [Array_sort]; [ reflexivity | ].
  rewrite <- sort_insert_perm. apply perm_skip. exact IH.
Qed.

Lemma sort_insert_sorted (x : A) (l : list A) :
  P x -> Forall P l -> StronglySorted R l ->
  StronglySorted R (sort_insert comparefn x l).
Proof.
  intros Px Pl Hs. induction Hs as [ | y l Hs IH Hy ]; cbn [sort_insert].
  - constructor; constructor.
  - apply Forall_cons_iff in Pl as [Py Pl].
    destruct (sortsAfter comparefn x y) eqn:Exy.
    + constructor; [ apply IH; exact Pl | ].
      apply (Permutation_Forall (sort_insert_perm x l)).
      constructor; [ apply after_asym; assumption | exact Hy ].
    + constructor; [ constructor; assumption | ].
      constructor; [ exact Exy | ].
      rewrite Forall_forall in Hy, Pl |- *.
      intros z Hz.
      exact (not_after_trans x y z Px Py (Pl z Hz) Exy (Hy z Hz)).
Qed.

Lemma Array_sort_sorted (l : list A) :
  Forall P l -> StronglySorted R (Array_sort comparefn l).
Proof.
  induction l as [ | x l IH ]; intros Pl; cbn [Array_sort]; [ constructor | ].
  apply Forall_cons_iff in Pl as [Px Pl].
  apply sort_insert_sorted; [ exact Px | | apply IH; exact Pl ].
  apply (Permutation_Forall (Array_sort_perm l)). exact Pl.
Qed.

Lemma Array_sort_order (l : list A) (i j : nat) (a b : A) :
  Forall P l -> (i < j)%nat ->
  Array_sort comparefn l !! i = Some a ->
  Array_sort comparefn l !! j = Some b ->
  sortsAfter comparefn a b = false.
Proof.
  intros Pl. pose proof (Array_sort_sorted l Pl) as Hs.
  revert i j. induction Hs as [ | y out Hs IH Hy ]; intros i j Hij Hi Hj.
  - discriminate.
  - destruct j as [ | j ]; [ lia | ]. cbn in Hj.
    destruct i as [ | i ].
    + cbn in Hi. injection Hi as ->.
      rewrite Forall_forall in Hy. apply Hy.
      eapply list_elem_of_lookup_2. exact Hj.
    + cbn in Hi. apply (IH i j); [ lia | assumption | assumption ].
Qed.
End ArraySortFacts.

(** *** Integers as numbers *)

Section OfZ.
Local Open Scope Z_scope.

Lemma binary_round_aux_opp (mx ex : Z) (lx : location) :
  binary_round_aux 53 1024 true mx ex lx
  = SFopp (binary_round_aux 53 1024 false mx ex lx).
Proof.
  unfold binary_round_aux.
  destruct (shr_fexp 53 1024 mx ex lx) as [r1 e1].
  destruct (shr_fexp 53 1024 _ e1 loc_Exact) as [r2 e2].
  destruct (shr_m r2); try reflexivity.
  destruct (e2 <=? 1024 - 53); reflexivity.
Qed.

Lemma of_Z_pos (z : Z) : 0 < z -> pos_ge JS.n1 (JS.of_Z z).
Proof.
  intros Hz. destruct z as [ | p | p ]; try lia.
  unfold JS.of_Z, JS.n1. cbn [binary_normalize].
  apply binary_round_ge; [ reflexivity | lia | ].
  apply (proj2 (vle_scaled 4503599627370496 (-52) p 0 (-52) ltac:(lia) ltac:(lia))).
  change (2 ^ (-52 - -52)) with 1. change (2 ^ (0 - -52)) with (2 ^ 52).
  change (Z.pos 4503599627370496) with (2 ^ 52). lia.
Qed.

Lemma of_Z_neg (z : Z) : z < 0 -> JS.of_Z z = SFopp (JS.of_Z (- z)).
Proof.
  intros Hz. destruct z as [ | p | p ]; try lia.
  unfold JS.of_Z. change (- Z.neg p) with (Z.pos p).
  cbn [binary_normalize]. unfold binary_round.
  destruct (shl_align _ _ _) as [m e]. apply binary_round_aux_opp.
Qed.

Lemma pos_ge_1_sign (y : Number) :
  pos_ge JS.n1 y ->
  JS.ltb JS.n0 y = true /\ JS.truthy y = true /\
  JS.ltb JS.n0 (SFopp y) = false /\ JS.truthy (SFopp y) = true.
Proof.
  destruct y as [ [ | ] | [ | ] | | [ | ] m e ]; try contradiction; done.
Qed.

(** The sign of [of_Z z] is the sign of [z]. *)
Lemma of_Z_sign (z : Z) :
  JS.ltb JS.n0 (JS.of_Z z) = (0 <? z) /\ JS.truthy (JS.of_Z z) = negb (z =? 0).
Proof.
  destruct (Z.lt_trichotomy z 0) as [Hneg | [-> | Hpos]].
  - rewrite (of_Z_neg z Hneg).
    destruct (pos_ge_1_sign _ (of_Z_pos (- z) ltac:(lia))) as (_ & _ & -> & ->).
    split; symmetry; [ apply Z.ltb_ge; lia | ].
    destruct (Z.eqb_spec z 0); [ lia | reflexivity ].
  - done.
  - destruct (pos_ge_1_sign _ (of_Z_pos z Hpos)) as (-> & -> & _).
    split; symmetry; [ apply Z.ltb_lt; lia | ].
    destruct (Z.eqb_spec z 0); [ lia | reflexivity ].
Qed.

Lemma same_number_eq (x y : Number) : same_number x y = true -> x = y.
Proof.
  destruct x as [ s | s | | s m e ]; destruct y as [ s' | s' | | s' m' e' ];
    cbn [same_number]; try discriminate; try reflexivity.
  - intros H. apply Bool.eqb_prop in H. congruence.
  - intros H. apply Bool.eqb_prop in H. congruence.
  - intros H. apply andb_prop in H as [H He]. apply andb_prop in H as [Hs Hm].
    apply Bool.eqb_prop in Hs. apply Pos.eqb_eq in Hm. apply Z.eqb_eq in He.
    congruence.
Qed.

Lemma same_number_refl (x : Number) : same_number x x = true.
Proof.
  destruct x as [ [ | ] | [ | ] | | [ | ] m e ]; cbn [same_number Bool.eqb andb];
    try reflexivity; rewrite Pos.eqb_refl, Z.eqb_refl; reflexivity.
Qed.

Lemma percentages_exact :
  forallb (fun ka => forallb (percent_arith_exact ka) percentages) percentages
  = true.
Proof. vm_compute. reflexivity. Qed.

Lemma percentages_in (k : Z) : 0 <= k <= 100 -> In k percentages.
Proof.
  intros Hk. unfold percentages. apply in_map_iff.
  exists (Z.to_nat k). split; [ lia | ]. apply in_seq. lia.
Qed.

Lemma percent_arith (ka kb : Z) :
  0 <= ka <= 100 -> 0 <= kb <= 100 ->
  JS.sub (JS.of_Z ka) (JS.of_Z kb) = JS.of_Z (ka - kb) /\
  JS.leb (JS.of_Z ka) (JS.of_Z kb) = (ka <=? kb) /\
  (JS.of_Z ka = JS.of_Z kb -> ka = kb).
Proof.
  intros Ha Hb.
  pose proof percentages_exact as H.
  rewrite forallb_forall in H. specialize (H ka (percentages_in ka Ha)).
  rewrite forallb_forall in H. specialize (H kb (percentages_in kb Hb)).
  unfold percent_arith_exact in H.
  apply andb_prop in H as [H H3]. apply andb_prop in H as [H1 H2].
  apply same_number_eq in H1. apply Bool.eqb_prop in H2. apply Bool.eqb_prop in H3.
  split; [ exact H1 | split; [ exact H2 | ] ].
  intros Heq. rewrite Heq, same_number_refl in H3.
  apply Z.eqb_eq. symmetry. exact H3.
Qed.

End OfZ.

(** *** The weakness sort *)

Section Weakness.
Local Open Scope Z_scope.

Lemma compareWeakness_after (a b : TopicRow) (ka kb : Z) :
  0 <= ka <= 100 -> accuracy a = JS.of_Z ka ->
  0 <= kb <= 100 -> accuracy b = JS.of_Z kb ->
  sortsAfter compareWeakness a b
  = weaknessAfter (3 <=? total a) ka (total a) (3 <=? total b) kb (total b).
Proof.
  intros Ha Ea Hb Eb. unfold sortsAfter, compareWeakness, weaknessAfter.
  destruct ((3 <=? total a) && negb (3 <=? total b)); [ reflexivity | ].
  destruct (negb (3 <=? total a) && (3 <=? total b)); [ reflexivity | ].
  rewrite Ea, Eb.
  destruct (percent_arith ka kb Ha Hb) as (-> & _ & _).
  destruct (of_Z_sign (ka - kb)) as [Hlt ->].
  destruct (Z.eqb_spec (ka - kb) 0) as [E0 | N0]; cbn [negb].
  - destruct (Z.eqb_spec ka kb); [ | lia ].
    destruct (of_Z_sign (total b - total a)) as [-> _].
    destruct (Z.ltb_spec 0 (total b - total a)), (Z.ltb_spec (total a) (total b));
      try reflexivity; lia.
  - destruct (Z.eqb_spec ka kb); [ lia | ]. rewrite Hlt.
    destruct (Z.ltb_spec 0 (ka - kb)), (Z.ltb_spec kb ka); try reflexivity; lia.
Qed.

Lemma weaknessAfter_asym (va : bool) (ka ta : Z) (vb : bool) (kb tb : Z) :
  weaknessAfter va ka ta vb kb tb = true -> weaknessAfter vb kb tb va ka ta = false.
Proof.
  unfold weaknessAfter. destruct va, vb; cbn [andb negb]; try done;
    destruct (Z.eqb_spec ka kb), (Z.eqb_spec kb ka); try lia;
    intros H; first [ apply Z.ltb_lt in H; apply Z.ltb_ge; lia ].
Qed.

Lemma weaknessAfter_trans (va : bool) (ka ta : Z) (vb : bool) (kb tb : Z)
    (vc : bool) (kc tc : Z) :
  weaknessAfter va ka ta vb kb tb = false ->
  weaknessAfter vb kb tb vc kc tc = false ->
  weaknessAfter va ka ta vc kc tc = false.
Proof.
  unfold weaknessAfter. destruct va, vb, vc; cbn [andb negb]; try done;
    destruct (Z.eqb_spec ka kb), (Z.eqb_spec kb kc), (Z.eqb_spec ka kc); try lia;
    intros H1 H2; apply Z.ltb_ge in H1; apply Z.ltb_ge in H2; apply Z.ltb_ge; lia.
Qed.

Lemma compareWeakness_asym (a b : TopicRow) :
  percentRow a -> percentRow b ->
  sortsAfter compareWeakness a b = true -> sortsAfter compareWeakness b a = false.
Proof.
  intros (ka & Ha & Ea) (kb & Hb & Eb).
  rewrite (compareWeakness_after a b ka kb), (compareWeakness_after b a kb ka)
    by assumption.
  apply weaknessAfter_asym.
Qed.

Lemma compareWeakness_trans (a b c : TopicRow) :
  percentRow a -> percentRow b -> percentRow c ->
  sortsAfter compareWeakness a b = false ->
  sortsAfter compareWeakness b c = false ->
  sortsAfter compareWeakness a c = false.
Proof.
  intros (ka & Ha & Ea) (kb & Hb & Eb) (kc & Hc & Ec).
  rewrite (compareWeakness_after a b ka kb), (compareWeakness_after b c kb kc),
    (compareWeakness_after a c ka kc) by assumption.
  apply weaknessAfter_trans.
Qed.

(** What it means for [a] not to sort after [b]. *)
Lemma compareWeakness_before (a b : TopicRow) :
  percentRow a -> percentRow b ->
  sortsAfter compareWeakness a b = false ->
  (3 <= total b -> 3 <= total a) /\
  ((3 <= total a <-> 3 <= total b) ->
   JS.leb (accuracy a) (accuracy b) = true /\
   (accuracy a = accuracy b -> total b <= total a)).
Proof.
  intros (ka & Ha & Ea) (kb & Hb & Eb).
  rewrite (compareWeakness_after a b ka kb) by assumption.
  destruct (percent_arith ka kb Ha Hb) as (_ & Hle & Hinj).
  rewrite Ea, Eb, Hle. unfold weaknessAfter. intros Hw.
  assert (Hkey : (3 <=? total a) = (3 <=? total b) ->
                 ka <= kb /\ (ka = kb -> total b <= total a)).
  { intros Hv. rewrite Hv in Hw.
    destruct (3 <=? total b); cbn [andb negb] in Hw;
      destruct (Z.eqb_spec ka kb); apply Z.ltb_ge in Hw; lia. }
  destruct (Z.leb_spec 3 (total a)) as [Va | Va],
           (Z.leb_spec 3 (total b)) as [Vb | Vb];
    cbn [andb negb] in Hw; try discriminate.
  - destruct (Hkey eq_refl) as [Hk Ht].
    split; [ lia | ]. intros _. split; [ apply Z.leb_le; lia | ].
    intros Heq. apply Ht, Hinj, Heq.
  - split; [ lia | ]. intros [Hab _]. lia.
  - destruct (Hkey eq_refl) as [Hk Ht].
    split; [ lia | ]. intros _. split; [ apply Z.leb_le; lia | ].
    intros Heq. apply Ht, Hinj, Heq.
Qed.

(** C5. The weakness sort keeps every bucket; a bucket with fewer than
    three answers never comes before one with at least three; inside each
    of the two groups the accuracy ascends and, for equal accuracy, the
    total descends.  Bucket B (total 5, accuracy 40) comes before bucket A
    (total 2, accuracy 0) whichever way round they start. *)
Theorem weakness_sort_order :
  (forall rows : list TopicRow,
     Forall percentRow rows ->
     Permutation rows (sortByWeakness rows) /\
     (forall (i j : nat) (a b : TopicRow),
        (i < j)%nat ->
        sortByWeakness rows !! i = Some a ->
        sortByWeakness rows !! j = Some b ->
        (3 <= total b -> 3 <= total a) /\
        ((3 <= total a <-> 3 <= total b) ->
         JS.leb (accuracy a) (accuracy b) = true /\
         (accuracy a = accuracy b -> total b <= total a)))) /\
  (let A := {| name := "A"; accuracy := JS.of_Z 0; correct := 0; total := 2;
               recentAccuracy := JS.of_Z 0; urgency := JS.of_Z 2 |} in
   let B := {| name := "B"; accuracy := JS.of_Z 40; correct := 2; total := 5;
               recentAccuracy := JS.of_Z 40; urgency := JS.of_Z 3 |} in
   sortByWeakness [A; B] = [B; A] /\ sortByWeakness [B; A] = [B; A]).
Proof.
  split; [ | vm_compute; split; reflexivity ].
  intros rows Hrows. split.
  - apply Array_sort_perm.
  - intros i j a b Hij Hi Hj.
    assert (Hout : Forall percentRow (sortByWeakness rows)).
    { apply (Permutation_Forall (Array_sort_perm compareWeakness rows)). exact Hrows. }
    rewrite Forall_forall in Hout.
    apply compareWeakness_before.
    + apply Hout. eapply list_elem_of_lookup_2. exact Hi.
    + apply Hout. eapply list_elem_of_lookup_2. exact Hj.
    + exact (Array_sort_order compareWeakness percentRow
               compareWeakness_asym compareWeakness_trans rows i j a b
               Hrows Hij Hi Hj).
Qed.

End Weakness.

(** *** Topic statistics *)

Lemma fold_left_flat_map {A B C : Type} (f : A -> B -> A) (g : C -> list B)
    (l : list C) (acc : A) :
  fold_left f (flat_map g l) acc
  = fold_left (fun acc x => fold_left f (g x) acc) l acc.
Proof.
  revert acc. induction l as [ | x l IH ]; intros acc; [ reflexivity | ].
  cbn [flat_map fold_left]. rewrite fold_left_app. apply IH.
Qed.

Lemma fold_left_ext_in {A B : Type} (f g : A -> B -> A) (l : list B) (acc : A) :
  (forall a b, f a b = g a b) -> fold_left f l acc = fold_left g l acc.
Proof.
  intros H. revert acc. induction l as [ | x l IH ]; intros acc; [ reflexivity | ].
  cbn [fold_left]. rewrite H. apply IH.
Qed.

(** The nested loops record the exposures one after the other. *)
Lemma tagStats_exposures (lib : gmap string Question)
    (history : list HistoricalSession) :
  tagStats lib history
  = fold_left (fun acc e => track (snd e) acc (fst e)) (exposures lib history) [].
Proof.
  unfold tagStats, exposures.
  rewrite fold_left_flat_map. apply fold_left_ext_in. intros acc session.
  rewrite fold_left_flat_map. apply fold_left_ext_in. intros acc' detail.
  unfold trackDetail. destruct (lib !! questionId detail) as [ q | ]; [ | reflexivity ].
  generalize (keysToTrack q). intros keys. revert acc'.
  induction keys as [ | k keys IH ]; intros acc'; [ reflexivity | ].
  cbn [map fold_left fst snd]. apply IH.
Qed.

Lemma statOf_track (b : bool) (l : list (string * TagStat)) (key key' : string) :
  statOf key' (track b l key)
  = if String.eqb key key' then Some (bump b (default emptyStat (statOf key' l)))
    else statOf key' l.
Proof.
  unfold statOf. induction l as [ | [k st] l IH ]; cbn [track List.find fst].
  - destruct (String.eqb_spec key key'); reflexivity.
  - destruct (String.eqb_spec k key) as [-> | Hk]; cbn [List.find fst].
    + destruct (String.eqb_spec key key'); reflexivity.
    + destruct (String.eqb_spec k key') as [-> | Hk']; cbn [option_map snd].
      * destruct (String.eqb_spec key key'); [ congruence | reflexivity ].
      * exact IH.
Qed.

Lemma track_keys (b : bool) (l : list (string * TagStat)) (key : string) :
  map fst (track b l key)
  = if existsb (String.eqb key) (map fst l) then map fst l else map fst l ++ [key].
Proof.
  induction l as [ | [k st] l IH ]; cbn [track map fst existsb app]; [ reflexivity | ].
  rewrite (String.eqb_sym key k).
  destruct (String.eqb k key); cbn [map fst orb]; [ reflexivity | ].
  rewrite IH. destruct (existsb (String.eqb key) (map fst l)); reflexivity.
Qed.

Lemma track_NoDup (b : bool) (l : list (string * TagStat)) (key : string) :
  List.NoDup (map fst l) -> List.NoDup (map fst (track b l key)).
Proof.
  intros Hnd. rewrite track_keys.
  destruct (existsb (String.eqb key) (map fst l)) eqn:Ex; [ exact Hnd | ].
  apply NoDup_ListNoDup, NoDup_app. apply NoDup_ListNoDup in Hnd.
  split; [ exact Hnd | split; [ | apply NoDup_singleton ] ].
  intros x Hx Hx'. apply list_elem_of_singleton in Hx'. subst x.
  assert (existsb (String.eqb key) (map fst l) = true); [ | congruence ].
  apply existsb_exists. exists key. split; [ | apply String.eqb_refl ].
  apply list_elem_of_In. exact Hx.
Qed.

Lemma statOf_In (key : string) (st : TagStat) (l : list (string * TagStat)) :
  List.NoDup (map fst l) -> In (key, st) l -> statOf key l = Some st.
Proof.
  unfold statOf. induction l as [ | [k s] l IH ]; intros Hnd Hin; [ destruct Hin | ].
  cbn [map fst] in Hnd. apply List.NoDup_cons_iff in Hnd as [Hk Hnd].
  cbn [List.find fst]. destruct Hin as [Heq | Hin].
  - injection Heq as -> ->. rewrite String.eqb_refl. reflexivity.
  - destruct (String.eqb_spec k key) as [-> | Hne]; [ | apply IH; assumption ].
    exfalso. apply Hk. apply in_map_iff. exists (key, st). split; [ reflexivity | exact Hin ].
Qed.

Lemma outcomesFor_snoc (key : string) (es : list (string * bool)) (e : string * bool) :
  outcomesFor key (es ++ [e])
  = outcomesFor key es ++ (if String.eqb (fst e) key then [snd e] else []).
Proof.
  unfold outcomesFor. rewrite List.filter_app, map_app. cbn [List.filter].
  destruct (String.eqb (fst e) key); reflexivity.
Qed.

Lemma statFrom_snoc (os : list bool) (b : bool) :
  statFrom (os ++ [b]) = bump b (statFrom os).
Proof. unfold statFrom. rewrite fold_left_app. reflexivity. Qed.

(** After any sequence of exposures the entries have distinct keys and the
    entry of a key is built from the answers recorded for it. *)
Lemma fold_track_inv (es : list (string * bool)) :
  let l := fold_left (fun acc e => track (snd e) acc (fst e)) es [] in
  List.NoDup (map fst l) /\
  forall key : string,
    statOf key l =
    match outcomesFor key es with
    | [] => None
    | _ :: _ => Some (statFrom (outcomesFor key es))
    end.
Proof.
  induction es as [ | e es IH ] using rev_ind; cbn zeta.
  - split; [ constructor | reflexivity ].
  - cbn zeta in IH. destruct IH as [Hnd Hst].
    rewrite fold_left_app. cbn [fold_left].
    split; [ apply track_NoDup; exact Hnd | ].
    intros key. rewrite statOf_track, outcomesFor_snoc, Hst.
    destruct (String.eqb (fst e) key).
    + destruct (outcomesFor key es) as [ | o os ] eqn:Eo.
      * reflexivity.
      * cbn [default app].
        change (o :: os ++ [snd e]) with ((o :: os) ++ [snd e]).
        rewrite statFrom_snoc. reflexivity.
    + rewrite app_nil_r. reflexivity.
Qed.

Lemma countTrue_snoc (os : list bool) (b : bool) :
  countTrue (os ++ [b]) = (countTrue os + if b then 1 else 0)%Z.
Proof.
  unfold countTrue. rewrite List.filter_app, length_app.
  destruct b; cbn [List.filter length]; lia.
Qed.

Lemma statFrom_fields (os : list bool) :
  stat_history (statFrom os) = os /\
  stat_total (statFrom os) = Z.of_nat (length os) /\
  stat_correct (statFrom os) = countTrue os.
Proof.
  induction os as [ | b os IH ] using rev_ind; [ done | ].
  destruct IH as (Hh & Ht & Hc).
  rewrite statFrom_snoc, countTrue_snoc, length_app. cbn [bump stat_history stat_total stat_correct length].
  rewrite Hh, Ht, Hc. split; [ reflexivity | split; [ lia | ] ].
  destruct b; lia.
Qed.

(** What the code keeps for a bucket.  Every recorded answer is appended
    to the end of its bucket's list, which is never cut: the list is the
    sequence of the
    answers recorded for the key, its length is the total, and
    [recentAccuracy] is the rounded percentage of correct answers among the
    first five entries of that list.  A bucket with an empty list would
    take the overall accuracy. *)
Theorem tagStats_recent_accuracy :
  (forall (lib : gmap string Question) (history : list HistoricalSession)
          (key : string) (st : TagStat),
     In (key, st) (tagStats lib history) ->
     let outcomes := outcomesFor key (exposures lib history) in
     outcomes <> [] /\
     stat_history st = outcomes /\
     stat_total st = Z.of_nat (length outcomes) /\
     stat_correct st = countTrue outcomes /\
     recentAccuracy (topicRow (key, st))
       = percent (countTrue (firstn 5 outcomes))
                 (Z.of_nat (length (firstn 5 outcomes)))) /\
  (forall (key : string) (c t : Z),
     let st := {| stat_correct := c; stat_total := t; stat_history := [] |} in
     recentAccuracy (topicRow (key, st)) = accuracy (topicRow (key, st))).
Proof.
  split; [ | reflexivity ].
  intros lib history key st Hin outcomes.
  rewrite tagStats_exposures in Hin.
  destruct (fold_track_inv (exposures lib history)) as [Hnd Hst].
  cbn zeta in Hnd, Hst.
  pose proof (statOf_In key st _ Hnd Hin) as Hs. rewrite Hst in Hs.
  fold outcomes in Hs.
  destruct outcomes as [ | o os ] eqn:Eo; [ discriminate | ].
  injection Hs as <-.
  destruct (statFrom_fields (o :: os)) as (Hh & Ht & Hc).
  split; [ discriminate | ]. split; [ exact Hh | ].
  split; [ exact Ht | ]. split; [ exact Hc | ].
  cbn [topicRow recentAccuracy]. rewrite Hh. reflexivity.
Qed.

(** The example block: one bucket, six answers. *)
Lemma exampleSession_outcomes :
  outcomesFor "Aortic Dissection" (exposures exampleLibrary [exampleSession])
  = [true; true; true; true; true; false].
Proof. vm_compute. reflexivity. Qed.

(** The buffer of the specification holds the five most recent answers,
    the newest first. *)
Lemma recencyBuffer_most_recent (given : list bool) :
  SpecStats.recencyBuffer given = firstn 5 (rev given).
Proof.
  unfold SpecStats.recencyBuffer.
  induction given as [ | x given IH ] using rev_ind; [ reflexivity | ].
  rewrite fold_left_app, rev_app_distr, IH. cbn [fold_left rev app].
  unfold SpecStats.pushRecent.
  destruct (rev given) as [ | a [ | b [ | c [ | d [ | e rest ] ] ] ] ]; reflexivity.
Qed.

(** C6.  The code reads [history.slice(0, 5)] as the recent answers, and
    across sessions, which are kept newest first, these are the most recent
    ones: six sessions of one answer each, the newest a miss, give 80 as
    the buffer of the specification does.  Inside a session the answers are
    appended oldest first, and there the code misses: for one session of
    five correct answers followed by a miss it reports 100, where the five
    most recent answers hold the miss and give 80. *)
Theorem recent_accuracy_within_session :
  let key := "Aortic Dissection"%string in
  let recent history :=
    SpecStats.recencyBuffer (chronological exampleLibrary history key) in
  chronological exampleLibrary [exampleSession] key
    = [true; true; true; true; true; false] /\
  chronological exampleLibrary exampleSessions key
    = [true; true; true; true; true; false] /\
  recent [exampleSession] = [false; true; true; true; true] /\
  recent exampleSessions = [false; true; true; true; true] /\
  map (fun row => (name row, recentAccuracy row))
      (subtopicData exampleLibrary exampleSessions)
    = [(key, JS.of_Z 80)] /\
  map (fun row => (name row,
                   SpecStats.recentAccuracy (accuracy row) (recent [exampleSession])))
      (subtopicData exampleLibrary [exampleSession])
    = [(key, JS.of_Z 80)] /\
  map (fun row => (name row, recentAccuracy row))
      (subtopicData exampleLibrary [exampleSession])
    = [(key, JS.of_Z 100)] /\
  JS.of_Z 100 <> JS.of_Z 80.
Proof.
  vm_compute. repeat split; discriminate.
Qed.

Lemma tagStats_recent_accuracy_witness :
  let st := {| stat_correct := 5; stat_total := 6;
               stat_history := [true; true; true; true; true; false] |} in
  let outcomes :=
    outcomesFor "Aortic Dissection" (exposures exampleLibrary [exampleSession]) in
  stat_history st = outcomes /\
  recentAccuracy (topicRow ("Aortic Dissection"%string, st))
    = percent (countTrue (firstn 5 outcomes)) (Z.of_nat (length (firstn 5 outcomes))).
Proof.
  intros st outcomes.
  destruct (proj1 tagStats_recent_accuracy exampleLibrary [exampleSession]
              "Aortic Dissection"%string st) as (_ & H1 & _ & _ & H2).
  - vm_compute. left. reflexivity.
  - split; [ exact H1 | exact H2 ].
Defined.

(** *** Due items *)

Lemma findMasteryCard_Some (masteryCards : list (string * list MasteryCard))
    (id : string) (card : MasteryCard) :
  findMasteryCard masteryCards id = Some card ->
  mc_id card = id /\
  exists (parent : string) (cards : list MasteryCard),
    In (parent, cards) masteryCards /\ In card cards.
Proof.
  induction masteryCards as [ | [parent cards] rest IH ]; [ discriminate | ].
  cbn [findMasteryCard].
  destruct (List.find _ cards) as [ c | ] eqn:Ef.
  - intros [= ->]. apply find_some in Ef as [Hin Hid].
    apply String.eqb_eq in Hid. split; [ exact Hid | ].
    exists parent, cards. split; [ left; reflexivity | exact Hin ].
  - intros H. destruct (IH H) as (Hid & p & cs & Hp & Hc).
    split; [ exact Hid | ]. exists p, cs. split; [ right; exact Hp | exact Hc ].
Qed.

Lemma findMasteryCard_None (masteryCards : list (string * list MasteryCard))
    (id : string) :
  findMasteryCard masteryCards id = None <->
  (forall (parent : string) (cards : list MasteryCard) (card : MasteryCard),
     In (parent, cards) masteryCards -> In card cards -> mc_id card <> id).
Proof.
  induction masteryCards as [ | [parent cards] rest IH ]; cbn [findMasteryCard].
  - split; [ intros _ p cs c [] | reflexivity ].
  - destruct (List.find _ cards) as [ c | ] eqn:Ef.
    + split; [ discriminate | ]. intros H. exfalso.
      apply find_some in Ef as [Hin Hid]. apply String.eqb_eq in Hid.
      exact (H parent cards c (or_introl eq_refl) Hin Hid).
    + rewrite IH. split.
      * intros H p cs c [ [= <- <-] | Hp ] Hc.
        -- apply (find_none _ _ Ef) in Hc. apply String.eqb_neq. exact Hc.
        -- exact (H p cs c Hp Hc).
      * intros H p cs c Hp Hc. exact (H p cs c (or_intror Hp) Hc).
Qed.

Lemma Object_values_lookup {V : Type} (o : gmap string V) (v : V) :
  In v (Object_values o) <-> exists key : string, o !! key = Some v.
Proof.
  unfold Object_values. rewrite <- list_elem_of_In, list_elem_of_fmap. split.
  - intros ([key v'] & -> & Hkv). exists key.
    apply elem_of_map_to_list. exact Hkv.
  - intros (key & Hkv). exists (key, v). split; [ reflexivity | ].
    apply elem_of_map_to_list. exact Hkv.
Qed.

Lemma omap_id_map {A B : Type} (f : A -> option B) (l : list A) :
  omap id (map f l) = omap f l.
Proof.
  induction l as [ | x l IH ]; [ reflexivity | ].
  cbn [map]. cbn. rewrite IH. reflexivity.
Qed.

Lemma length_omap_filter {A B : Type} (f : A -> option B) (p : A -> bool)
    (l : list A) :
  length (omap f (List.filter p l))
  = length (List.filter
              (fun x => p x && match f x with Some _ => true | None => false end) l).
Proof.
  induction l as [ | x l IH ]; [ reflexivity | ].
  cbn [List.filter]. destruct (p x); cbn [andb]; [ | exact IH ].
  cbn. destruct (f x); cbn; rewrite IH; reflexivity.
Qed.

(** C7, as the code has it. The due items are the artifacts of the cards
    whose next review is at or before [now]; a card is resolved through the
    question library first (every question ever added to it, bookmarked or
    not) and otherwise through the first mastery card with its id; a card
    that neither knows contributes nothing. *)
Theorem dueSRSItems_resolution :
  forall (now : Number) (states : gmap string SRSState)
         (lib : gmap string Question)
         (cards : list (string * list MasteryCard)),
    (forall item : DueItem,
       In item (dueSRSItems now states lib cards) <->
       exists (key : string) (s : SRSState),
         states !! key = Some s /\
         JS.leb (nextReview s) now = true /\
         ((exists q, lib !! cardId s = Some q /\ item = vignette q) \/
          (lib !! cardId s = None /\
           exists c, findMasteryCard cards (cardId s) = Some c /\
                     mc_id c = cardId s /\ item = mastery c))) /\
    length (dueSRSItems now states lib cards)
      = length (List.filter (fun s => isDue now s && negb (isOrphan lib cards s))
                  (Object_values states)) /\
    (forall s : SRSState,
       isOrphan lib cards s = true <->
       lib !! cardId s = None /\
       forall (parent : string) (cs : list MasteryCard) (c : MasteryCard),
         In (parent, cs) cards -> In c cs -> mc_id c <> cardId s).
Proof.
  intros now states lib cards. unfold dueSRSItems. rewrite omap_id_map.
  split; [ | split ].
  - intros item. rewrite <- list_elem_of_In, list_elem_of_omap. split.
    + intros (s & Hs & Hres).
      apply list_elem_of_In, filter_In in Hs as [Hin Hdue].
      apply Object_values_lookup in Hin as [key Hkey].
      exists key, s. split; [ exact Hkey | ]. split; [ exact Hdue | ].
      unfold resolveDue in Hres.
      destruct (lib !! cardId s) as [ q | ].
      * left. exists q. split; [ reflexivity | congruence ].
      * right. split; [ reflexivity | ].
        destruct (findMasteryCard cards (cardId s)) as [ c | ] eqn:Ec;
          [ | discriminate ].
        exists c. split; [ reflexivity | ].
        split; [ apply (findMasteryCard_Some _ _ _ Ec) | ].
        cbn in Hres. congruence.
    + intros (key & s & Hkey & Hdue & Hres). exists s. split.
      * apply list_elem_of_In, filter_In. split; [ | exact Hdue ].
        apply Object_values_lookup. exists key. exact Hkey.
      * unfold resolveDue.
        destruct Hres as [ (q & -> & ->) | (-> & c & -> & _ & ->) ]; reflexivity.
  - rewrite length_omap_filter.
    f_equal. apply filter_ext. intros s. unfold isOrphan.
    destruct (resolveDue lib cards s); destruct (isDue now s); reflexivity.
  - intros s. unfold isOrphan, resolveDue.
    destruct (lib !! cardId s) as [ q | ].
    + split; [ discriminate | intros [? _]; discriminate ].
    + rewrite <- findMasteryCard_None.
      destruct (findMasteryCard cards (cardId s)); cbn [option_map]; split;
        try discriminate; try (intros [_ ?]; discriminate); auto.
Qed.

(** C7, as the specification words it, fails: a question that was
    bookmarked and then un-bookmarked keeps its card and stays in the
    library, so the code still serves it, while a lookup among the
    bookmarked questions finds nothing. *)
Lemma due_items_bookmarks_counterexample :
  let st := unbookmarkedState in
  let now := JS.of_Z 3000 in
  bookmarks st = [] /\
  dueSRSItems now (srsStates st) (questionLibrary st) (masteryCards st)
    = [vignette (exampleQuestion "q-1")] /\
  SpecDue.dueItems now (srsStates st) (bookmarks st) (masteryCards st) = [] /\
  dueSRSItems now (srsStates st) (questionLibrary st) (masteryCards st)
    <> SpecDue.dueItems now (srsStates st) (bookmarks st) (masteryCards st).
Proof.
  vm_compute. repeat split; discriminate.
Qed.

(** *** Lifetime statistics *)

Lemma compareTimestamp_after (a b : HistoricalSession) :
  sortsAfter compareTimestamp a b = (timestamp b <? timestamp a)%Z.
Proof.
  unfold sortsAfter, compareTimestamp.
  destruct (of_Z_sign (timestamp a - timestamp b)) as [-> _].
  destruct (Z.ltb_spec 0 (timestamp a - timestamp b)),
           (Z.ltb_spec (timestamp b) (timestamp a)); try reflexivity; lia.
Qed.

Lemma compareTimestamp_asym (a b : HistoricalSession) :
  True -> True ->
  sortsAfter compareTimestamp a b = true -> sortsAfter compareTimestamp b a = false.
Proof.
  intros _ _. rewrite !compareTimestamp_after.
  intros H. apply Z.ltb_lt in H. apply Z.ltb_ge. lia.
Qed.

Lemma compareTimestamp_trans (a b c : HistoricalSession) :
  True -> True -> True ->
  sortsAfter compareTimestamp a b = false ->
  sortsAfter compareTimestamp b c = false ->
  sortsAfter compareTimestamp a c = false.
Proof.
  intros _ _ _. rewrite !compareTimestamp_after.
  intros H1 H2. apply Z.ltb_ge in H1. apply Z.ltb_ge in H2. apply Z.ltb_ge. lia.
Qed.

(** The first session of the sorted history is an earliest one. *)
Lemma sorted_history_head (history : list HistoricalSession)
    (first : HistoricalSession) (rest : list HistoricalSession) :
  Array_sort compareTimestamp history = first :: rest ->
  In first history /\
  forall s, In s history -> (timestamp first <= timestamp s)%Z.
Proof.
  intros Hsort.
  pose proof (Array_sort_perm compareTimestamp history) as Hperm.
  rewrite Hsort in Hperm.
  split.
  - apply (Permutation_in _ (Permutation_sym Hperm)). left. reflexivity.
  - intros s Hs.
    apply (Permutation_in _ Hperm) in Hs. destruct Hs as [<- | Hs]; [ lia | ].
    apply In_nth_error in Hs as [j Hj].
    assert (Hall : Forall (fun _ : HistoricalSession => True) history).
    { apply Forall_forall. intros; exact I. }
    pose proof (Array_sort_order compareTimestamp (fun _ => True)
                  compareTimestamp_asym compareTimestamp_trans
                  history 0 (S j) first s Hall ltac:(lia)) as Hord.
    rewrite Hsort in Hord. cbn in Hord.
    assert (Hlook : rest !! j = Some s).
    { clear -Hj. revert j Hj. induction rest as [ | r rest IH ]; intros [ | j ] Hj;
        try discriminate; cbn in *; auto. }
    specialize (Hord eq_refl Hlook).
    rewrite compareTimestamp_after in Hord. apply Z.ltb_ge in Hord. exact Hord.
Qed.

Lemma Array_sort_nonempty {A : Type} (comparefn : A -> A -> Number)
    (x : A) (l : list A) :
  Array_sort comparefn (x :: l) <> [].
Proof.
  intros H. pose proof (Array_sort_perm comparefn (x :: l)) as Hperm.
  rewrite H in Hperm. apply Permutation_length in Hperm. discriminate.
Qed.

(** [updateAnalytics] returns statistics for every history and writes them
    under [lifetimeStats]; they do not depend on the store. *)
Lemma updateAnalytics_returns (now : Z) (history : list HistoricalSession)
    (db : gmap string StoreValue) :
  exists stats : LifetimeStats,
    updateAnalytics now (Some history) db
      = (Some stats, <[ "lifetimeStats"%string := VStats stats ]> db) /\
    fst (updateAnalytics now (Some history) ∅) = Some stats.
Proof.
  unfold updateAnalytics. destruct history as [ | s history ].
  - eexists. split; reflexivity.
  - destruct (Array_sort compareTimestamp (s :: history)) as [ | first rest ] eqn:Es.
    + exfalso. exact (Array_sort_nonempty _ _ _ Es).
    + eexists. split; reflexivity.
Qed.

(** C8. On an empty history the lifetime statistics are all zero, dated
    [now], and nothing is thrown; every history yields statistics.  One
    session of 10 questions, 7 correct, in 600000 ms gives an accuracy of
    70, 0.2 hours and 10 questions.  The first session date is the
    timestamp of an earliest session. *)
Theorem updateAnalytics_lifetime :
  (forall (now : Z) (db : gmap string StoreValue),
     let empty := {| stats_totalQuestions := 0; stats_totalCorrect := 0;
                     totalHours := JS.n0; avgAccuracy := JS.n0;
                     firstSessionDate := now |} in
     updateAnalytics now (Some []) db
       = (Some empty, <[ "lifetimeStats"%string := VStats empty ]> db)) /\
  (forall (now : Z) (history : list HistoricalSession) (db : gmap string StoreValue),
     exists stats : LifetimeStats,
       updateAnalytics now (Some history) db
         = (Some stats, <[ "lifetimeStats"%string := VStats stats ]> db)) /\
  (forall (now : Z) (db : gmap string StoreValue) (id : string) (ts : Z)
          (ds : list SessionDetail),
     let session := {| session_id := id; timestamp := ts; totalQuestions := 10;
                       correctAnswers := 7; timeTakenMs := 600000;
                       details := ds |} in
     fst (updateAnalytics now (Some [session]) db)
       = Some {| stats_totalQuestions := 10; stats_totalCorrect := 7;
                 totalHours := JS.n0_2; avgAccuracy := JS.of_Z 70;
                 firstSessionDate := ts |}) /\
  (forall (now : Z) (db : gmap string StoreValue)
          (history : list HistoricalSession) (stats : LifetimeStats),
     history <> [] ->
     fst (updateAnalytics now (Some history) db) = Some stats ->
     (exists s, In s history /\ firstSessionDate stats = timestamp s) /\
     (forall s, In s history -> (firstSessionDate stats <= timestamp s)%Z)).
Proof.
  split; [ reflexivity | ]. split; [ | split ].
  - intros now history db.
    destruct (updateAnalytics_returns now history db) as (stats & H & _).
    exists stats. exact H.
  - intros now db id ts ds session. reflexivity.
  - intros now db history stats Hne Hstats.
    unfold updateAnalytics in Hstats.
    destruct history as [ | s0 history ]; [ contradiction | ].
    destruct (Array_sort compareTimestamp (s0 :: history)) as [ | first rest ] eqn:Es;
      [ discriminate | ].
    cbn [fst] in Hstats. injection Hstats as <-. cbn [firstSessionDate].
    destruct (sorted_history_head _ _ _ Es) as [Hin Hmin].
    split; [ exists first; split; [ exact Hin | reflexivity ] | exact Hmin ].
Qed.

(** *** Full import *)

(** The test of the code lets through every object and every array. *)
Lemma validation_passes (v : JSONValue) :
  negb (JSON_truthy v) || negb (typeof_object v)
  = match v with
    | JArray _ | JObject _ => false
    | _ => true
    end.
Proof.
  destruct v as [ | b | n | s | items | data ]; cbn; try reflexivity.
  - destruct b; reflexivity.
  - rewrite orb_true_r. reflexivity.
  - destruct s; reflexivity.
Qed.


(** A payload that does not parse, or that fails the test of the code, is
    rejected with the store as it was. *)
Lemma fullImport_rejected (now : Z) (db : gmap string StoreValue) :
  fullImport now None db = Some (false, db) /\
  forall v : JSONValue,
    match v with JArray _ | JObject _ => False | _ => True end ->
    fullImport now (Some v) db = Some (false, db).
Proof.
  split; [ reflexivity | ].
  intros v Hv. unfold fullImport. rewrite validation_passes.
  destruct v; first [ reflexivity | contradiction ].
Qed.


(** C9.  The code does not do what the claim says on three payloads.
    A top-level array is not a JSON object, but it passes the test of the
    code: whatever the store held is replaced by empty collections and zero
    statistics, and the import reports success.  An object whose history
    is the number 5 passes too: the store is cleared and the six
    collections are put, then the statistics throw, and the import reports
    failure with the earlier state gone.  And with a history that holds a
    [null] entry, the statistics of the payload are put and stay, as the
    recomputation that should replace them throws. *)
Theorem fullImport_defects :
  (forall (now : Z) (items : list Json) (db : gmap string StoreValue),
     isObject (JArray items) = false /\
     fullImport now (Some (JArray items)) db
     = Some (true, <[ "lifetimeStats"%string := VStats (emptyStats now) ]>
                     (collectionsOf noData))) /\
  (forall (now : Z) (db : gmap string StoreValue),
     fullImport now (Some (JObject (onlyHistory (Other (JsNumber (JS.of_Z 5)))))) db
     = Some (false,
             collectionsOf (onlyHistory (Other (JsNumber (JS.of_Z 5))))) /\
     collectionsOf (onlyHistory (Other (JsNumber (JS.of_Z 5)))) !! "history"%string
     = Some (VJSON (JsNumber (JS.of_Z 5)))) /\
  (forall (now : Z) (entries : list Json) (stats : LifetimeStats)
          (db : gmap string StoreValue),
     let payload :=
       historyAndStats (Other (JsArray (JsNull :: entries))) stats in
     exists db' : gmap string StoreValue,
       fullImport now (Some (JObject payload)) db = Some (false, db') /\
       db' !! "lifetimeStats"%string = Some (VStats stats) /\
       db' !! "history"%string = Some (VJSON (JsArray (JsNull :: entries)))).
Proof.
  split; [ | split ].
  - intros now items db. split; reflexivity.
  - intros now db. split; reflexivity.
  - intros now entries stats db payload. eexists.
    split; [ reflexivity | ]. split; reflexivity.
Qed.

(** *** Instances on concrete inputs *)

Lemma good_streak_intervals_witness :
  interval (streak good (fun _ => JS.n1000) (freshCard "q-1" JS.n0) 4)
  = JS.Math_ceil
      (JS.mul (interval (streak good (fun _ => JS.n1000) (freshCard "q-1" JS.n0) 3))
         JS.n2_3).
Proof.
  destruct (good_streak_intervals "q-1" JS.n0 (fun _ => JS.n1000))
    as (_ & _ & _ & _ & H & _).
  apply (H 3%nat). lia.
Defined.

Lemma weakness_sort_order_witness :
  let A := {| name := "A"; accuracy := JS.of_Z 0; correct := 0; total := 2;
              recentAccuracy := JS.of_Z 0; urgency := JS.of_Z 2 |} in
  let B := {| name := "B"; accuracy := JS.of_Z 40; correct := 2; total := 5;
              recentAccuracy := JS.of_Z 40; urgency := JS.of_Z 3 |} in
  Permutation [A; B] (sortByWeakness [A; B]).
Proof.
  intros A B. apply (proj1 weakness_sort_order [A; B]).
  repeat constructor; [ exists 0%Z | exists 40%Z ]; split; first [ lia | reflexivity ].
Defined.

Lemma updateAnalytics_lifetime_witness :
  (exists s, In s [exampleSession] /\ 1700000000000%Z = timestamp s) /\
  (forall s, In s [exampleSession] -> (1700000000000 <= timestamp s)%Z).
Proof.
  apply (proj2 (proj2 (proj2 updateAnalytics_lifetime)) 0%Z ∅ [exampleSession]
           {| stats_totalQuestions := 6; stats_totalCorrect := 5;
              totalHours := JS.toFixed1 (JS.div (JS.of_Z 360000) JS.n3600000);
              avgAccuracy := percent 5 6;
              firstSessionDate := 1700000000000 |}).
  - discriminate.
  - reflexivity.
Defined.

(** ** Further properties of the code *)

(** *** Topic buckets *)

Lemma sumTotals_track (b : bool) (l : list (string * TagStat)) (key : string) :
  sumTotals (track b l key) = (sumTotals l + 1)%Z.
Proof.
  induction l as [ | [k st] l IH ]; cbn [track sumTotals fold_right snd].
  - cbn. lia.
  - destruct (String.eqb k key); cbn [sumTotals fold_right snd bump stat_total].
    + fold (sumTotals l). lia.
    + fold (sumTotals (track b l key)). fold (sumTotals l). rewrite IH. lia.
Qed.

Lemma sumTotals_fold (es : list (string * bool)) :
  sumTotals (fold_left (fun acc e => track (snd e) acc (fst e)) es [])
  = Z.of_nat (length es).
Proof.
  induction es as [ | e es IH ] using rev_ind; [ reflexivity | ].
  rewrite fold_left_app, length_app. cbn [fold_left length].
  rewrite sumTotals_track, IH. lia.
Qed.

Lemma countTrue_bounds (os : list bool) :
  (0 <= countTrue os <= Z.of_nat (length os))%Z.
Proof.
  unfold countTrue. pose proof (List.filter_length_le (fun b : bool => b) os). lia.
Qed.

(** What the entry of a key holds, for every entry of [tagStats]. *)
Lemma tagStats_entry (lib : gmap string Question)
    (history : list HistoricalSession) (key : string) (st : TagStat) :
  In (key, st) (tagStats lib history) ->
  outcomesFor key (exposures lib history) <> [] /\
  st = statFrom (outcomesFor key (exposures lib history)).
Proof.
  intros Hin. rewrite tagStats_exposures in Hin.
  destruct (fold_track_inv (exposures lib history)) as [Hnd Hst].
  cbn zeta in Hnd, Hst.
  pose proof (statOf_In key st _ Hnd Hin) as Hs. rewrite Hst in Hs.
  destruct (outcomesFor key (exposures lib history)) as [ | o os ];
    [ discriminate | ].
  injection Hs as <-. split; [ discriminate | reflexivity ].
Qed.

(** X1. The aggregation loses and invents nothing: the bucket names are
    distinct, every bucket has at least one answer and between none and all
    of them correct, and the totals of the buckets add up to the number of
    answers recorded under a key. *)
Theorem tagStats_accounting :
  forall (lib : gmap string Question) (history : list HistoricalSession),
    List.NoDup (map name (subtopicData lib history)) /\
    (forall row : TopicRow,
       In row (subtopicData lib history) ->
       (1 <= total row /\ 0 <= correct row <= total row)%Z) /\
    sumTotals (tagStats lib history)
      = Z.of_nat (length (exposures lib history)).
Proof.
  intros lib history. split; [ | split ].
  - unfold subtopicData. rewrite map_map.
    destruct (fold_track_inv (exposures lib history)) as [Hnd _].
    cbn zeta in Hnd. rewrite <- tagStats_exposures in Hnd.
    erewrite map_ext; [ exact Hnd | ]. intros [k st]. reflexivity.
  - intros row Hrow. unfold subtopicData in Hrow.
    apply in_map_iff in Hrow as ([key st] & <- & Hin).
    destruct (tagStats_entry lib history key st Hin) as [Hne ->].
    destruct (statFrom_fields (outcomesFor key (exposures lib history)))
      as (_ & Ht & Hc).
    cbn [topicRow total correct]. rewrite Ht, Hc.
    pose proof (countTrue_bounds (outcomesFor key (exposures lib history))).
    destruct (outcomesFor key (exposures lib history)); [ contradiction | ].
    cbn [length] in *. lia.
  - rewrite tagStats_exposures. apply sumTotals_fold.
Qed.

Lemma flat_map_filter_nil {A B : Type} (f : A -> list B) (p : A -> bool)
    (l : list A) :
  (forall x, p x = false -> f x = []) ->
  flat_map f (List.filter p l) = flat_map f l.
Proof.
  intros H. induction l as [ | x l IH ]; [ reflexivity | ].
  cbn [List.filter flat_map]. destruct (p x) eqn:Ep; cbn [flat_map].
  - rewrite IH. reflexivity.
  - rewrite IH, (H x Ep). reflexivity.
Qed.

(** X2. An answer whose question is no longer in the library is left out of
    the topic statistics: dropping those answers from the history changes
    no bucket. *)
Theorem tagStats_unknown_questions :
  forall (lib : gmap string Question) (history : list HistoricalSession),
    tagStats lib (map (knownDetails lib) history) = tagStats lib history /\
    subtopicData lib (map (knownDetails lib) history) = subtopicData lib history.
Proof.
  intros lib history.
  assert (H : tagStats lib (map (knownDetails lib) history) = tagStats lib history).
  { rewrite !tagStats_exposures. f_equal. unfold exposures.
    rewrite flat_map_concat_map, map_map, <- flat_map_concat_map.
    apply flat_map_ext. intros session. cbn [knownDetails details].
    apply flat_map_filter_nil. intros detail.
    destruct (lib !! questionId detail); [ discriminate | reflexivity ]. }
  split; [ exact H | ]. unfold subtopicData. rewrite H. reflexivity.
Qed.

Lemma Set_add_spec (keys : list string) (key : string) :
  List.NoDup keys ->
  List.NoDup (Set_add keys key) /\
  (forall k, In k (Set_add keys key) <-> In k keys \/ k = key).
Proof.
  intros Hnd. unfold Set_add.
  destruct (existsb (String.eqb key) keys) eqn:Ex.
  - split; [ exact Hnd | ]. intros k. split; [ auto | ].
    intros [Hk | ->]; [ exact Hk | ].
    apply existsb_exists in Ex as (k' & Hk' & Heq).
    apply String.eqb_eq in Heq. subst k'. exact Hk'.
  - split.
    + apply NoDup_ListNoDup, NoDup_app. apply NoDup_ListNoDup in Hnd.
      split; [ exact Hnd | split; [ | apply NoDup_singleton ] ].
      intros x Hx Hx'. apply list_elem_of_singleton in Hx'. subst x.
      assert (existsb (String.eqb key) keys = true); [ | congruence ].
      apply existsb_exists. exists key. split; [ | apply String.eqb_refl ].
      apply list_elem_of_In. exact Hx.
    + intros k. rewrite in_app_iff. cbn [In]. split.
      * intros [H | [H | []]]; auto.
      * intros [H | H]; auto.
Qed.

Lemma fold_Set_add_NoDup (new keys : list string) :
  List.NoDup keys -> List.NoDup (fold_left Set_add new keys).
Proof.
  revert keys. induction new as [ | k new IH ]; intros keys Hnd; [ exact Hnd | ].
  cbn [fold_left]. apply IH. apply Set_add_spec. exact Hnd.
Qed.

Lemma keysToTrack_NoDup (q : Question) : List.NoDup (keysToTrack q).
Proof.
  unfold keysToTrack.
  destruct (if truthy_string (dissectClinicalTopic (tags q))
            then dissectClinicalTopic (tags q) else None) as [ topic | ];
    destruct (clinicalConcepts q) as [ | c cs ];
    try apply fold_Set_add_NoDup; try apply Set_add_spec; constructor.
Qed.

Lemma NoDup_filter_le_1 (key : string) (keys : list string) :
  List.NoDup keys ->
  (length (List.filter (fun k => String.eqb k key) keys) <= 1)%nat.
Proof.
  induction keys as [ | k keys IH ]; intros Hnd; [ cbn; lia | ].
  apply List.NoDup_cons_iff in Hnd as [Hk Hnd].
  cbn [List.filter]. destruct (String.eqb_spec k key) as [-> | Hne].
  - cbn [length].
    assert (Hnil : List.filter (fun k => String.eqb k key) keys = []).
    { clear -Hk. induction keys as [ | k' keys IHk ]; [ reflexivity | ].
      cbn [List.filter]. destruct (String.eqb_spec k' key) as [-> | ].
      - exfalso. apply Hk. left. reflexivity.
      - apply IHk. intros H. apply Hk. right. exact H. }
    rewrite Hnil. cbn. lia.
  - apply IH. exact Hnd.
Qed.

(** One answered question adds at most one answer to a bucket. *)
Lemma outcomes_per_detail (lib : gmap string Question) (key : string)
    (detail : SessionDetail) :
  (length (outcomesFor key
             match lib !! questionId detail with
             | Some q => map (fun k => (k, isCorrect detail)) (keysToTrack q)
             | None => []
             end) <= 1)%nat.
Proof.
  unfold outcomesFor. rewrite length_map.
  destruct (lib !! questionId detail) as [ q | ]; [ | cbn; lia ].
  pose proof (NoDup_filter_le_1 key (keysToTrack q) (keysToTrack_NoDup q)) as H.
  assert (Hlen : forall keys : list string,
            length (List.filter (fun e : string * bool => String.eqb (fst e) key)
                      (map (fun k => (k, isCorrect detail)) keys))
            = length (List.filter (fun k => String.eqb k key) keys)).
  { intros keys. induction keys as [ | k keys IH ]; [ reflexivity | ].
    cbn [map List.filter fst]. destruct (String.eqb k key); cbn [length];
      rewrite IH; reflexivity. }
  rewrite Hlen. exact H.
Qed.

Lemma outcomesFor_app (key : string) (es es' : list (string * bool)) :
  outcomesFor key (es ++ es') = outcomesFor key es ++ outcomesFor key es'.
Proof. unfold outcomesFor. rewrite List.filter_app, map_app. reflexivity. Qed.

(** X3. The keys tracked for one question are distinct, so an answer counts
    once per bucket however often a concept is repeated, and no bucket holds
    more answers than the history has. *)
Theorem tagStats_once_per_answer :
  (forall q : Question, List.NoDup (keysToTrack q)) /\
  (forall (lib : gmap string Question) (history : list HistoricalSession)
          (row : TopicRow),
     In row (subtopicData lib history) ->
     (total row <= Z.of_nat (length (flat_map details history)))%Z).
Proof.
  split; [ exact keysToTrack_NoDup | ].
  intros lib history row Hrow. unfold subtopicData in Hrow.
  apply in_map_iff in Hrow as ([key st] & <- & Hin).
  destruct (tagStats_entry lib history key st Hin) as [_ ->].
  destruct (statFrom_fields (outcomesFor key (exposures lib history)))
    as (_ & Ht & _).
  cbn [topicRow total]. rewrite Ht. apply inj_le.
  unfold exposures. clear Hin Ht.
  induction history as [ | session history IH ]; [ cbn; lia | ].
  cbn [flat_map]. rewrite outcomesFor_app, !length_app.
  apply Nat.add_le_mono; [ | exact IH ].
  generalize (details session). intros ds.
  induction ds as [ | d ds IHd ]; [ cbn; lia | ].
  cbn [flat_map length]. rewrite outcomesFor_app, length_app.
  pose proof (outcomes_per_detail lib key d). lia.
Qed.

(** *** Momentum flags *)

Lemma n10_literal : n10 = JS.of_Z 10.
Proof. vm_compute. reflexivity. Qed.

Lemma neutral_up_to_five :
  forallb (fun t => forallb (fun c => neutralAt c t) upToFive) upToFive = true.
Proof. vm_compute. reflexivity. Qed.

Lemma upToFive_in (k : Z) : (0 <= k <= 5)%Z -> In k upToFive.
Proof.
  intros Hk. unfold upToFive. apply in_map_iff.
  exists (Z.to_nat k). split; [ lia | ]. apply in_seq. lia.
Qed.

(** X4. A bucket with at most five answers has its accuracy as recent
    accuracy, and the list of topics shows neither the improving nor the
    declining mark for it. *)
Theorem momentum_needs_six_answers :
  forall (lib : gmap string Question) (history : list HistoricalSession)
         (row : TopicRow),
    In row (subtopicData lib history) ->
    (total row <= 5)%Z ->
    recentAccuracy row = accuracy row /\
    showImprovement row = false /\ showDecline row = false.
Proof.
  intros lib history row Hrow Hfive. unfold subtopicData in Hrow.
  apply in_map_iff in Hrow as ([key st] & <- & Hin).
  destruct (tagStats_entry lib history key st Hin) as [Hne ->].
  set (os := outcomesFor key (exposures lib history)) in *.
  destruct (statFrom_fields os) as (Hh & Ht & Hc).
  cbn [topicRow total] in Hfive. rewrite Ht in Hfive.
  assert (Hrecent : recentAccuracy (topicRow (key, statFrom os))
                    = accuracy (topicRow (key, statFrom os))).
  { cbn [topicRow recentAccuracy accuracy]. rewrite Hh, Ht, Hc.
    rewrite firstn_all2 by lia.
    destruct os; [ contradiction | reflexivity ]. }
  split; [ exact Hrecent | ].
  unfold showImprovement, showDecline. rewrite Hrecent.
  cbn [topicRow accuracy]. rewrite Ht, Hc.
  pose proof (countTrue_bounds os) as Hcb.
  pose proof neutral_up_to_five as Hall.
  rewrite forallb_forall in Hall.
  assert (Hlen : (0 <= Z.of_nat (length os) <= 5)%Z) by lia.
  assert (Hcnt : (0 <= countTrue os <= 5)%Z) by lia.
  specialize (Hall _ (upToFive_in _ Hlen)). cbv beta in Hall.
  rewrite forallb_forall in Hall.
  specialize (Hall _ (upToFive_in _ Hcnt)). cbv beta in Hall.
  unfold neutralAt in Hall. apply andb_prop in Hall as [H1 H2].
  apply negb_true_iff in H1. apply negb_true_iff in H2. split; assumption.
Qed.

Lemma momentum_needs_six_answers_witness :
  let row := topicRow ("Aortic Dissection"%string,
                       {| stat_correct := 1; stat_total := 1; stat_history := [true] |}) in
  recentAccuracy row = accuracy row /\
  showImprovement row = false /\ showDecline row = false.
Proof.
  intros row.
  apply (momentum_needs_six_answers exampleLibrary
           [ {| session_id := "s-2"; timestamp := 1700000000000;
                totalQuestions := 1; correctAnswers := 1; timeTakenMs := 60000;
                details := [ {| questionId := "q-1"; isCorrect := true |} ] |} ]).
  - vm_compute. left. reflexivity.
  - vm_compute. discriminate.
Defined.

(** *** The strength sort *)

Section Strength.
Local Open Scope Z_scope.

Lemma compareStrength_after (a b : TopicRow) (ka kb : Z) :
  0 <= ka <= 100 -> accuracy a = JS.of_Z ka ->
  0 <= kb <= 100 -> accuracy b = JS.of_Z kb ->
  sortsAfter compareStrength a b
  = strengthAfter (3 <=? total a) ka (total a) (3 <=? total b) kb (total b).
Proof.
  intros Ha Ea Hb Eb. unfold sortsAfter, compareStrength, strengthAfter.
  destruct ((3 <=? total a) && negb (3 <=? total b)); [ reflexivity | ].
  destruct (negb (3 <=? total a) && (3 <=? total b)); [ reflexivity | ].
  rewrite Ea, Eb.
  destruct (percent_arith kb ka Hb Ha) as (-> & _ & _).
  destruct (of_Z_sign (kb - ka)) as [Hlt ->].
  destruct (Z.eqb_spec (kb - ka) 0) as [E0 | N0]; cbn [negb].
  - destruct (Z.eqb_spec ka kb); [ | lia ].
    destruct (of_Z_sign (total b - total a)) as [-> _].
    destruct (Z.ltb_spec 0 (total b - total a)), (Z.ltb_spec (total a) (total b));
      try reflexivity; lia.
  - destruct (Z.eqb_spec ka kb); [ lia | ]. rewrite Hlt.
    destruct (Z.ltb_spec 0 (kb - ka)), (Z.ltb_spec ka kb); try reflexivity; lia.
Qed.

Lemma strengthAfter_asym (va : bool) (ka ta : Z) (vb : bool) (kb tb : Z) :
  strengthAfter va ka ta vb kb tb = true -> strengthAfter vb kb tb va ka ta = false.
Proof.
  unfold strengthAfter. destruct va, vb; cbn [andb negb]; try done;
    destruct (Z.eqb_spec ka kb), (Z.eqb_spec kb ka); try lia;
    intros H; first [ apply Z.ltb_lt in H; apply Z.ltb_ge; lia ].
Qed.

Lemma strengthAfter_trans (va : bool) (ka ta : Z) (vb : bool) (kb tb : Z)
    (vc : bool) (kc tc : Z) :
  strengthAfter va ka ta vb kb tb = false ->
  strengthAfter vb kb tb vc kc tc = false ->
  strengthAfter va ka ta vc kc tc = false.
Proof.
  unfold strengthAfter. destruct va, vb, vc; cbn [andb negb]; try done;
    destruct (Z.eqb_spec ka kb), (Z.eqb_spec kb kc), (Z.eqb_spec ka kc); try lia;
    intros H1 H2; apply Z.ltb_ge in H1; apply Z.ltb_ge in H2; apply Z.ltb_ge; lia.
Qed.

Lemma compareStrength_asym (a b : TopicRow) :
  percentRow a -> percentRow b ->
  sortsAfter compareStrength a b = true -> sortsAfter compareStrength b a = false.
Proof.
  intros (ka & Ha & Ea) (kb & Hb & Eb).
  rewrite (compareStrength_after a b ka kb), (compareStrength_after b a kb ka)
    by assumption.
  apply strengthAfter_asym.
Qed.

Lemma compareStrength_trans (a b c : TopicRow) :
  percentRow a -> percentRow b -> percentRow c ->
  sortsAfter compareStrength a b = false ->
  sortsAfter compareStrength b c = false ->
  sortsAfter compareStrength a c = false.
Proof.
  intros (ka & Ha & Ea) (kb & Hb & Eb) (kc & Hc & Ec).
  rewrite (compareStrength_after a b ka kb), (compareStrength_after b c kb kc),
    (compareStrength_after a c ka kc) by assumption.
  apply strengthAfter_trans.
Qed.

(** X5. The strength sort keeps every bucket; buckets with at least three
    answers come first; inside each group the accuracy descends and, for
    equal accuracy, the total descends. *)
Theorem strength_sort_order :
  forall rows : list TopicRow,
    Forall percentRow rows ->
    Permutation rows (sortByStrength rows) /\
    (forall (i j : nat) (a b : TopicRow),
       (i < j)%nat ->
       sortByStrength rows !! i = Some a ->
       sortByStrength rows !! j = Some b ->
       (3 <= total b -> 3 <= total a) /\
       ((3 <= total a <-> 3 <= total b) ->
        JS.leb (accuracy b) (accuracy a) = true /\
        (accuracy a = accuracy b -> total b <= total a))).
Proof.
  intros rows Hrows. split; [ apply Array_sort_perm | ].
  intros i j a b Hij Hi Hj.
  assert (Hout : Forall percentRow (sortByStrength rows)).
  { apply (Permutation_Forall (Array_sort_perm compareStrength rows)). exact Hrows. }
  rewrite Forall_forall in Hout.
  destruct (Hout a (list_elem_of_lookup_2 _ _ _ Hi)) as (ka & Ha & Ea).
  destruct (Hout b (list_elem_of_lookup_2 _ _ _ Hj)) as (kb & Hb & Eb).
  pose proof (Array_sort_order compareStrength percentRow
                compareStrength_asym compareStrength_trans rows i j a b
                Hrows Hij Hi Hj) as Hw.
  rewrite (compareStrength_after a b ka kb) in Hw by assumption.
  destruct (percent_arith kb ka Hb Ha) as (_ & Hle & _).
  destruct (percent_arith ka kb Ha Hb) as (_ & _ & Hinj).
  rewrite Ea, Eb, Hle. unfold strengthAfter in Hw.
  assert (Hkey : (3 <=? total a) = (3 <=? total b) ->
                 kb <= ka /\ (ka = kb -> total b <= total a)).
  { intros Hv. rewrite Hv in Hw.
    destruct (3 <=? total b); cbn [andb negb] in Hw;
      destruct (Z.eqb_spec ka kb); apply Z.ltb_ge in Hw; lia. }
  destruct (Z.leb_spec 3 (total a)) as [Va | Va],
           (Z.leb_spec 3 (total b)) as [Vb | Vb];
    cbn [andb negb] in Hw; try discriminate.
  - destruct (Hkey eq_refl) as [Hk Ht].
    split; [ lia | ]. intros _. split; [ apply Z.leb_le; lia | ].
    intros Heq. apply Ht, Hinj, Heq.
  - split; [ lia | ]. intros [Hab _]. lia.
  - destruct (Hkey eq_refl) as [Hk Ht].
    split; [ lia | ]. intros _. split; [ apply Z.leb_le; lia | ].
    intros Heq. apply Ht, Hinj, Heq.
Qed.

End Strength.

Lemma strength_sort_order_witness :
  let A := {| name := "A"; accuracy := JS.of_Z 90; correct := 9; total := 10;
              recentAccuracy := JS.of_Z 80; urgency := JS.of_Z 1 |} in
  let B := {| name := "B"; accuracy := JS.of_Z 100; correct := 2; total := 2;
              recentAccuracy := JS.of_Z 100; urgency := JS.of_Z 0 |} in
  Permutation [B; A] (sortByStrength [B; A]).
Proof.
  intros A B. apply (strength_sort_order [B; A]).
  repeat constructor; [ exists 100%Z | exists 90%Z ]; split; first [ lia | reflexivity ].
Defined.

(** *** The lifetime figures of the analytics view *)

(** X6. Without persisted statistics the analytics view derives, for a
    history that is not empty, the statistics that [updateAnalytics] stores
    for it; it shows persisted statistics as they are, and nothing for an
    empty history, where [updateAnalytics] stores zeros. *)
Theorem lifetime_fallback_agrees :
  (forall (now : Z) (db : gmap string StoreValue)
          (history : list HistoricalSession),
     history <> [] ->
     lifetime None history = fst (updateAnalytics now (Some history) db)) /\
  (forall (stats : LifetimeStats) (history : list HistoricalSession),
     lifetime (Some stats) history = Some stats) /\
  lifetime None [] = None.
Proof.
  split; [ | split; reflexivity ].
  intros now db history Hne. unfold lifetime, updateAnalytics.
  destruct history as [ | s history ]; [ contradiction | ].
  destruct (Array_sort compareTimestamp (s :: history)) as [ | first rest ] eqn:Es.
  - exfalso. exact (Array_sort_nonempty _ _ _ Es).
  - reflexivity.
Qed.

Lemma lifetime_fallback_agrees_witness :
  lifetime None [exampleSession]
  = fst (updateAnalytics 0%Z (Some [exampleSession]) ∅).
Proof.
  apply (proj1 lifetime_fallback_agrees). discriminate.
Defined.

(** *** Saving a session and reading everything *)








(** *** Reviews with any ratings *)

Section Reviews.
Local Open Scope Z_scope.

(** Multiplying by a number that is at least 1 does not go below the
    multiplicand. *)
Lemma mul_ge_var (x m : Number) :
  normal x \/ x = S754_infinity false ->
  pos_ge JS.n1 m ->
  pos_ge x (JS.mul x m).
Proof.
  intros Hx Hm.
  destruct m as [ [ | ] | [ | ] | | [ | ] mc ec ]; try contradiction.
  - destruct Hx as [Hx | ->]; [ | exact I ].
    destruct x as [ [ | ] | [ | ] | | [ | ] mx ex ]; try contradiction. exact I.
  - destruct Hm as [[Hdc Hec] Hord].
    pose proof (digits2_pos_bounds mc) as [Hclo _]. rewrite Hdc in Hclo.
    change (53 - 1) with 52 in Hclo.
    destruct (Z_le_gt_dec ec 0) as [Hle | Hgt].
    + apply mul_ge; [ exact Hle | | exact Hx ].
      apply Z.le_trans with (2 ^ 52); [ | exact Hclo ].
      apply Z.pow_le_mono_r; lia.
    + destruct Hx as [Hx | ->]; [ | exact I ].
      destruct x as [ [ | ] | [ | ] | | [ | ] mx ex ]; try contradiction.
      destruct Hx as [Hd He].
      pose proof (digits2_pos_bounds mx) as [Hlo _]. rewrite Hd in Hlo.
      change (53 - 1) with 52 in Hlo.
      pose proof (pow2_pos ec ltac:(lia)) as Hp.
      unfold JS.mul, SFmul. cbn [xorb].
      apply binary_round_aux_ge; [ done | lia | | ].
      * rewrite Pos2Z.inj_mul. nia.
      * apply (proj2 (vle_scaled mx ex (mx * mc) (ex + ec) ex (Z.le_refl _) ltac:(lia))).
        rewrite Z.sub_diag, Z.mul_1_r, Pos2Z.inj_mul.
        replace (ex + ec - ex) with ec by lia.
        assert (H1 : 1 <= Z.pos mc * 2 ^ ec) by nia.
        rewrite <- Z.mul_assoc. nia.
Qed.

Lemma ceil_mul_ge (x m : Number) :
  normal x \/ x = S754_infinity false ->
  pos_ge JS.n1 m ->
  pos_ge x (JS.Math_ceil (JS.mul x m)).
Proof.
  intros Hn Hm. pose proof (mul_ge_var x m Hn Hm) as Hmul.
  destruct x as [ [ | ] | [ | ] | | [ | ] mx ex ];
    try (destruct Hn as [ [] | Hn ]; discriminate Hn).
  - destruct (JS.mul _ _) as [ [ | ] | [ | ] | | [ | ] m' e' ]; try contradiction. exact I.
  - destruct Hn as [ [Hd Hb] | Hn ]; [ | discriminate Hn ].
    apply ceil_ge; [ done | lia | done ].
Qed.

(** Adding a number that is at least 1 does not go below the first term. *)
Lemma add_ge_var (x y : Number) :
  normal x \/ x = S754_infinity false ->
  pos_ge JS.n1 y ->
  pos_ge x (JS.add x y).
Proof.
  intros Hx Hy.
  destruct y as [ [ | ] | [ | ] | | [ | ] my ey ]; try contradiction.
  - destruct Hx as [Hx | ->]; [ | exact I ].
    destruct x as [ [ | ] | [ | ] | | [ | ] mx ex ]; try contradiction. exact I.
  - destruct Hx as [Hx | ->]; [ | exact I ].
    destruct x as [ [ | ] | [ | ] | | [ | ] mx ex ]; try contradiction.
    pose proof Hx as [Hd He].
    apply add_ge; [ done | lia | ]. apply pos_ge_refl. left. exact Hx.
Qed.

(** The multipliers of the three ratings are at least 1. *)
Lemma multiplier_ge_1 (rating : SRSRating) (e : Number) :
  pos_ge JS.n1_3 e -> pos_ge JS.n1 (Spec.multiplier rating e).
Proof.
  intros He.
  assert (H1 : pos_ge JS.n1 e).
  { apply pos_ge_trans with JS.n1_3; [ pos_ge_const | exact He ]. }
  destruct rating; cbn [Spec.multiplier]; try exact H1.
  - apply pos_ge_trans with e; [ exact H1 | ].
    apply mul_ge; [ lia | done | apply (pos_ge_normal_or_inf _ _ He) ].
  - pos_ge_const.
  - apply pos_ge_trans with e; [ exact H1 | ].
    apply mul_ge; [ lia | done | apply (pos_ge_normal_or_inf _ _ He) ].
Qed.

Lemma pos_ge_6_1 (x : Number) : pos_ge JS.n6 x -> pos_ge JS.n1 x.
Proof. apply pos_ge_trans. pos_ge_const. Qed.

(** One review keeps the invariant, and a rating other than [again] does
    not shorten the interval. *)
Lemma srs_step (now : Number) (c : SRSState) (rating : SRSRating) :
  SRSInv c ->
  SRSInv (updateSRS_card now c rating) /\
  (rating <> again ->
   JS.leb (interval c) (interval (updateSRS_card now c rating)) = true /\
   pos_ge JS.n1 (interval (updateSRS_card now c rating))).
Proof.
  intros [He Hcase].
  pose proof (ease_floor_step now c rating He) as He'.
  split; [ split; [ exact He' | ] | ].
  - rewrite updateSRS_card_unfold. cbn [repetitions interval].
    destruct rating; [ left; split; reflexivity | | | ].
    all: unfold Spec.intervalDays', Spec.repetitionCount'.
    all: destruct Hcase as [ [-> ->] | [ [-> ->] | [Hr Hi] ] ].
    all: try (right; left; split; reflexivity).
    all: try (right; right; split; pos_ge_const).
    all: destruct (pos_ge_2_not_0_1 _ Hr) as [-> ->].
    all: right; right; (split; [ apply (add_ge 4503599627370496 (-51)); done | ]).
    all: apply pos_ge_trans with (interval c); [ exact Hi | ].
    all: apply ceil_mul_ge; [ apply (pos_ge_normal_or_inf _ _ Hi) | ].
    all: apply multiplier_ge_1; exact He.
  - intros Hrating. rewrite updateSRS_card_unfold. cbn [interval].
    unfold Spec.intervalDays'.
    destruct Hcase as [ [-> ->] | [ [-> ->] | [Hr Hi] ] ].
    + destruct rating; [ contradiction | | | ]; (split; [ reflexivity | pos_ge_const ]).
    + destruct rating; [ contradiction | | | ]; (split; [ reflexivity | pos_ge_const ]).
    + destruct (pos_ge_2_not_0_1 _ Hr) as [-> ->].
      assert (Hgrow : pos_ge (interval c)
                        (JS.Math_ceil (JS.mul (interval c)
                                         (Spec.multiplier rating (ease c))))).
      { apply ceil_mul_ge;
          [ apply (pos_ge_normal_or_inf _ _ Hi) | apply multiplier_ge_1; exact He ]. }
      destruct rating; [ contradiction | | | ].
      all: split; [ apply pos_ge_leb; exact Hgrow | ].
      all: apply pos_ge_6_1, pos_ge_trans with (interval c); [ exact Hi | exact Hgrow ].
Qed.

Lemma reviews_snoc (c : SRSState) (steps : list (Number * SRSRating))
    (now : Number) (rating : SRSRating) :
  reviews c (steps ++ [(now, rating)]) = updateSRS_card now (reviews c steps) rating.
Proof. unfold reviews. rewrite fold_left_app. reflexivity. Qed.

Lemma reviews_inv (id : string) (t0 : Number) (steps : list (Number * SRSRating)) :
  SRSInv (reviews (freshCard id t0) steps).
Proof.
  induction steps as [ | [now rating] steps IH ] using rev_ind.
  - split; [ pos_ge_const | left; split; reflexivity ].
  - rewrite reviews_snoc. apply srs_step. exact IH.
Qed.

Lemma pos_ge_1_not_0 (x : Number) : pos_ge JS.n1 x -> x <> JS.n0.
Proof.
  destruct x as [ [ | ] | [ | ] | | [ | ] m e ]; try contradiction; discriminate.
Qed.

(** The default state that [updateSRS] uses for an unknown id is the new
    card of [toggleBookmark] with the clock at 0. *)
Lemma freshCard_default (id : string) : freshCard id JS.n0 = defaultSRSState id.
Proof. reflexivity. Qed.

(** X10. Whatever the ratings, a card that starts as [toggleBookmark] or
    the default of [updateSRS] creates it has an interval of 0 or of at
    least 1, and of 0 exactly when it has no repetition.  Rating it [again]
    resets the interval to 0; any other rating gives an interval of at
    least 1 that is not shorter than the one before. *)
Theorem reviews_interval_never_shrinks :
  forall (id : string) (t0 : Number) (steps : list (Number * SRSRating))
         (now : Number),
    let c := reviews (freshCard id t0) steps in
    (interval c = JS.n0 \/ JS.leb JS.n1 (interval c) = true) /\
    (interval c = JS.n0 <-> repetitions c = JS.n0) /\
    interval (updateSRS_card now c again) = JS.n0 /\
    (forall rating : SRSRating,
       rating <> again ->
       JS.leb JS.n1 (interval (updateSRS_card now c rating)) = true /\
       JS.leb (interval c) (interval (updateSRS_card now c rating)) = true).
Proof.
  intros id t0 steps now c.
  pose proof (reviews_inv id t0 steps) as Hinv. fold c in Hinv.
  split; [ | split; [ | split ] ].
  - destruct Hinv as [_ [ [_ H] | [ [_ H] | [_ H] ] ] ].
    + left. exact H.
    + right. rewrite H. reflexivity.
    + right. apply pos_ge_leb, pos_ge_6_1, H.
  - destruct Hinv as [_ [ [Hr Hi] | [ [Hr Hi] | [Hr Hi] ] ] ].
    + rewrite Hr, Hi. tauto.
    + rewrite Hr, Hi. split; discriminate.
    + split; intros H0; exfalso.
      * exact (pos_ge_1_not_0 _ (pos_ge_6_1 _ Hi) H0).
      * rewrite H0 in Hr. exact Hr.
  - rewrite updateSRS_card_unfold. reflexivity.
  - intros rating Hrating.
    destruct (srs_step now c rating Hinv) as [_ Hstep].
    destruct (Hstep Hrating) as [Hle H1].
    split; [ apply pos_ge_leb; exact H1 | exact Hle ].
Qed.

Lemma add_zero_r (x : Number) : x <> S754_zero true -> JS.add x JS.n0 = x.
Proof.
  destruct x as [ [ | ] | [ | ] | | [ | ] m e ]; try reflexivity.
  intros H. contradiction.
Qed.

Lemma of_Z_not_negative_zero (z : Z) :
  JS.of_Z z <> S754_zero true /\ JS.is_nan (JS.of_Z z) = false.
Proof.
  destruct (Z.lt_trichotomy z 0) as [Hneg | [-> | Hpos]].
  - rewrite (of_Z_neg z Hneg).
    pose proof (of_Z_pos (- z) ltac:(lia)) as H.
    destruct (JS.of_Z (- z)) as [ [ | ] | [ | ] | | [ | ] m e ]; try contradiction;
      split; first [ discriminate | reflexivity ].
  - split; [ discriminate | reflexivity ].
  - pose proof (of_Z_pos z Hpos) as H.
    destruct (JS.of_Z z) as [ [ | ] | [ | ] | | [ | ] m e ]; try contradiction;
      split; first [ discriminate | reflexivity ].
Qed.

Lemma leb_refl (x : Number) : JS.is_nan x = false -> JS.leb x x = true.
Proof.
  destruct x as [ [ | ] | [ | ] | | [ | ] m e ]; try reflexivity; try discriminate.
  - intros _. unfold JS.leb, SFleb, SFcompare. rewrite Z.compare_refl.
    change (CompOpp (Pos.compare_cont Eq m m)) with (CompOpp (Pos.compare m m)).
    rewrite Pos.compare_refl. reflexivity.
  - intros _. unfold JS.leb, SFleb, SFcompare. rewrite Z.compare_refl.
    change (Pos.compare_cont Eq m m) with (Pos.compare m m).
    rewrite Pos.compare_refl. reflexivity.
Qed.

Lemma daysToMs_ge (d : Number) : pos_ge JS.n1 d -> pos_ge JS.n1 (Spec.daysToMs d).
Proof.
  intros Hd. unfold Spec.daysToMs.
  assert (Hup : forall (x : Number) (mc : positive) (ec : Z),
            ec <= 0 -> 2 ^ (- ec) <= Zpos mc ->
            pos_ge JS.n1 x -> pos_ge JS.n1 (JS.mul x (S754_finite false mc ec))).
  { intros x mc ec Hec Hmc Hx. apply pos_ge_trans with x; [ exact Hx | ].
    apply mul_ge; [ exact Hec | exact Hmc | apply (pos_ge_normal_or_inf _ _ Hx) ]. }
  apply Hup; [ lia | done | ].
  apply Hup; [ lia | done | ].
  apply Hup; [ lia | done | ].
  apply Hup; [ lia | done | exact Hd ].
Qed.

(** X11. A review at the clock reading [t] of a card reached by any
    ratings never schedules the next review before [t].  A card rated
    [again] is scheduled at [t] itself and so is due at once, whatever its
    state was. *)
Theorem next_review_not_before_now :
  forall (id : string) (t0 : Number) (steps : list (Number * SRSRating))
         (t : Z) (rating : SRSRating),
    0 < t ->
    JS.leb (JS.of_Z t)
      (nextReview (updateSRS_card (JS.of_Z t) (reviews (freshCard id t0) steps) rating))
    = true /\
    (forall c : SRSState,
       nextReview (updateSRS_card (JS.of_Z t) c again) = JS.of_Z t /\
       isDue (JS.of_Z t) (updateSRS_card (JS.of_Z t) c again) = true).
Proof.
  intros id t0 steps t rating Ht.
  destruct (of_Z_not_negative_zero t) as [Hnz Hnan].
  assert (Hagain : forall c : SRSState,
            nextReview (updateSRS_card (JS.of_Z t) c again) = JS.of_Z t).
  { intros c. rewrite updateSRS_card_unfold. cbn [nextReview Spec.intervalDays'].
    change (Spec.daysToMs JS.n0) with JS.n0. apply add_zero_r. exact Hnz. }
  split.
  - destruct rating.
    + rewrite Hagain. apply leb_refl. exact Hnan.
    + destruct (srs_step (JS.of_Z t) _ hard (reviews_inv id t0 steps)) as [_ H].
      destruct (H ltac:(discriminate)) as [_ H1].
      rewrite updateSRS_card_unfold in *. cbn [nextReview interval] in *.
      apply pos_ge_leb, add_ge_var;
        [ apply (pos_ge_normal_or_inf _ _ (of_Z_pos t Ht)) | apply daysToMs_ge, H1 ].
    + destruct (srs_step (JS.of_Z t) _ good (reviews_inv id t0 steps)) as [_ H].
      destruct (H ltac:(discriminate)) as [_ H1].
      rewrite updateSRS_card_unfold in *. cbn [nextReview interval] in *.
      apply pos_ge_leb, add_ge_var;
        [ apply (pos_ge_normal_or_inf _ _ (of_Z_pos t Ht)) | apply daysToMs_ge, H1 ].
    + destruct (srs_step (JS.of_Z t) _ easy (reviews_inv id t0 steps)) as [_ H].
      destruct (H ltac:(discriminate)) as [_ H1].
      rewrite updateSRS_card_unfold in *. cbn [nextReview interval] in *.
      apply pos_ge_leb, add_ge_var;
        [ apply (pos_ge_normal_or_inf _ _ (of_Z_pos t Ht)) | apply daysToMs_ge, H1 ].
  - intros c. split; [ apply Hagain | ].
    unfold isDue. rewrite Hagain. apply leb_refl. exact Hnan.
Qed.

End Reviews.

Lemma next_review_not_before_now_witness :
  JS.leb (JS.of_Z 1700000000000)
    (nextReview (updateSRS_card (JS.of_Z 1700000000000)
                   (reviews (freshCard "q-1" (JS.of_Z 1600000000000))
                      [(JS.of_Z 1650000000000, good); (JS.of_Z 1660000000000, hard)])
                   easy))
  = true.
Proof.
  apply (next_review_not_before_now "q-1" (JS.of_Z 1600000000000)
           [(JS.of_Z 1650000000000, good); (JS.of_Z 1660000000000, hard)]
           1700000000000 easy).
  lia.
Defined.

(** *** The question library *)

(** X12. [addToLibrary] never replaces an entry: an id that is in the
    library keeps its question, and an id that is not gets the first
    question of the batch with that id.  Adding the same batch again
    changes nothing. *)
Theorem addToLibrary_first_wins :
  forall (questions : list Question) (prev : gmap string Question),
    (forall id : string,
       addToLibrary questions prev !! id
       = match prev !! id with
         | Some q => Some q
         | None => List.find (fun q => String.eqb (q_id q) id) questions
         end) /\
    addToLibrary questions (addToLibrary questions prev)
    = addToLibrary questions prev.
Proof.
  assert (Hlookup : forall (questions : list Question) (prev : gmap string Question)
                      (id : string),
            addToLibrary questions prev !! id
            = match prev !! id with
              | Some q => Some q
              | None => List.find (fun q => String.eqb (q_id q) id) questions
              end).
  { unfold addToLibrary.
    induction questions as [ | q questions IH ]; intros prev id; cbn [fold_left List.find].
    - destruct (prev !! id); reflexivity.
    - rewrite IH. destruct (String.eqb_spec (q_id q) id) as [E | N].
      + subst id. destruct (prev !! q_id q) as [ q0 | ] eqn:Eq.
        * rewrite Eq. reflexivity.
        * rewrite lookup_insert_eq. reflexivity.
      + destruct (prev !! q_id q) as [ q0 | ]; [ reflexivity | ].
        rewrite lookup_insert_ne by done. reflexivity. }
  intros questions prev. split; [ apply Hlookup | ].
  apply map_eq. intros id. rewrite !Hlookup.
  destruct (prev !! id) as [ q | ]; [ reflexivity | ].
  destruct (List.find _ questions); reflexivity.
Qed.

(** *** Bookmarks *)

Lemma filter_other_ids (id : string) (l : list Question) :
  existsb (fun b => String.eqb (q_id b) id) l = false ->
  List.filter (fun b => negb (String.eqb (q_id b) id)) l = l.
Proof.
  induction l as [ | b l IH ]; [ reflexivity | ].
  cbn [existsb List.filter]. intros H. apply orb_false_elim in H as [Hb Hl].
  rewrite Hb. cbn [negb]. rewrite (IH Hl). reflexivity.
Qed.

Lemma existsb_snoc_self (q : Question) (l : list Question) :
  existsb (fun b => String.eqb (q_id b) (q_id q)) (l ++ [q]) = true.
Proof.
  rewrite existsb_app. cbn [existsb]. rewrite String.eqb_refl.
  rewrite orb_true_r. reflexivity.
Qed.

(** X13. Bookmarking a question that is not bookmarked and then removing
    the bookmark gives back the list of bookmarks.  The card and the
    library entry stay: the card is the one the question had, or else a
    new one due at the time of bookmarking, and the library holds the entry
    it had for the id, or else the question. *)
Theorem toggleBookmark_twice :
  forall (now later : Number) (q : Question) (st : AppState),
    isBookmarked q st = false ->
    let st1 := toggleBookmark now q st in
    let st2 := toggleBookmark later q st1 in
    isBookmarked q st1 = true /\
    bookmarks st1 = bookmarks st ++ [q] /\
    bookmarks st2 = bookmarks st /\
    srsStates st2 !! q_id q
    = Some (default (freshCard (q_id q) now) (srsStates st !! q_id q)) /\
    questionLibrary st2 !! q_id q
    = Some (default q (questionLibrary st !! q_id q)) /\
    masteryCards st2 = masteryCards st.
Proof.
  intros now later q st Hnot st1 st2.
  unfold isBookmarked in Hnot.
  assert (E1 : st1 = {| bookmarks := bookmarks st ++ [q];
                        questionLibrary := addToLibrary [q] (questionLibrary st);
                        srsStates :=
                          match srsStates st !! q_id q with
                          | Some _ => srsStates st
                          | None => <[ q_id q := freshCard (q_id q) now ]> (srsStates st)
                          end;
                        masteryCards := masteryCards st |}).
  { unfold st1, toggleBookmark. rewrite Hnot. reflexivity. }
  assert (E2 : st2 = {| bookmarks := bookmarks st;
                        questionLibrary := questionLibrary st1;
                        srsStates := srsStates st1;
                        masteryCards := masteryCards st1 |}).
  { unfold st2, toggleBookmark. rewrite E1. cbn [bookmarks].
    rewrite existsb_snoc_self, List.filter_app, (filter_other_ids _ _ Hnot).
    cbn [List.filter]. rewrite String.eqb_refl. cbn [negb].
    rewrite app_nil_r. reflexivity. }
  split; [ unfold isBookmarked; rewrite E1; apply existsb_snoc_self | ].
  split; [ rewrite E1; reflexivity | ].
  rewrite E2. cbn [bookmarks srsStates questionLibrary masteryCards].
  rewrite E1. cbn [bookmarks srsStates questionLibrary masteryCards].
  split; [ reflexivity | ]. split; [ | split; [ | reflexivity ] ].
  - destruct (srsStates st !! q_id q) as [ s | ] eqn:Es.
    + rewrite Es. reflexivity.
    + rewrite lookup_insert_eq. reflexivity.
  - unfold addToLibrary. cbn [fold_left].
    destruct (questionLibrary st !! q_id q) as [ q0 | ] eqn:Eq.
    + rewrite Eq. reflexivity.
    + rewrite lookup_insert_eq. reflexivity.
Qed.

Lemma toggleBookmark_twice_witness :
  bookmarks (toggleBookmark (JS.of_Z 2000) (exampleQuestion "q-1")
               (toggleBookmark (JS.of_Z 1000) (exampleQuestion "q-1") initialAppState))
  = bookmarks initialAppState.
Proof.
  apply (toggleBookmark_twice (JS.of_Z 1000) (JS.of_Z 2000) (exampleQuestion "q-1")
           initialAppState).
  reflexivity.
Defined.

Lemma in_ids_filter (id : string) (f : Question -> bool) (l : list Question) :
  In id (map q_id (List.filter f l)) -> In id (map q_id l).
Proof.
  rewrite !in_map_iff. intros (b & Hb & Hin).
  apply filter_In in Hin as [Hin _]. exists b. split; assumption.
Qed.

Lemma NoDup_ids_filter (f : Question -> bool) (l : list Question) :
  List.NoDup (map q_id l) -> List.NoDup (map q_id (List.filter f l)).
Proof.
  induction l as [ | b l IH ]; [ intros H; exact H | ].
  cbn [map List.filter]. intros H. inversion H as [ | x xs Hnotin Hnd ]; subst.
  destruct (f b); [ cbn [map]; constructor | ]; try apply IH; try exact Hnd.
  intros Hin. apply Hnotin. apply (in_ids_filter _ _ _ Hin).
Qed.

(** X14. Toggling a bookmark keeps the ids of the bookmarks distinct, and
    afterwards the question is bookmarked exactly when it was not
    before. *)
Theorem toggleBookmark_distinct_ids :
  forall (now : Number) (q : Question) (st : AppState),
    List.NoDup (map q_id (bookmarks st)) ->
    List.NoDup (map q_id (bookmarks (toggleBookmark now q st))) /\
    isBookmarked q (toggleBookmark now q st) = negb (isBookmarked q st).
Proof.
  intros now q st Hnd. unfold isBookmarked, toggleBookmark.
  destruct (existsb (fun b => String.eqb (q_id b) (q_id q)) (bookmarks st)) eqn:Ex;
    cbn [bookmarks negb].
  - split; [ apply NoDup_ids_filter; exact Hnd | ].
    apply not_true_is_false. intros H.
    apply existsb_exists in H as (b & Hin & Hb).
    apply filter_In in Hin as [_ Hf]. rewrite Hb in Hf. discriminate.
  - split; [ | apply existsb_snoc_self ].
    rewrite map_app. cbn [map].
    apply (Permutation_NoDup (Permutation_cons_append (map q_id (bookmarks st)) (q_id q))).
    constructor; [ | exact Hnd ]. intros Hin.
    apply in_map_iff in Hin as (b & Hb & Hin).
    assert (Ht : existsb (fun b => String.eqb (q_id b) (q_id q)) (bookmarks st) = true).
    { apply existsb_exists. exists b. split; [ exact Hin | ].
      rewrite Hb. apply String.eqb_refl. }
    rewrite Ht in Ex. discriminate.
Qed.

Lemma toggleBookmark_distinct_ids_witness :
  List.NoDup (map q_id (bookmarks (toggleBookmark (JS.of_Z 1000) (exampleQuestion "q-2")
                                     (toggleBookmark (JS.of_Z 1000) (exampleQuestion "q-1")
                                        initialAppState)))).
Proof.
  apply (toggleBookmark_distinct_ids (JS.of_Z 1000) (exampleQuestion "q-2")
           (toggleBookmark (JS.of_Z 1000) (exampleQuestion "q-1") initialAppState)).
  cbn. repeat constructor; cbn; intuition discriminate.
Defined.

(** *** Mastery cards *)

Lemma again_card (t : Z) (c : SRSState) :
  let s := updateSRS_card (JS.of_Z t) c again in
  cardId s = cardId c /\ interval s = JS.n0 /\ repetitions s = JS.n0 /\
  nextReview s = JS.of_Z t /\ isDue (JS.of_Z t) s = true.
Proof.
  intros s. unfold s, isDue. rewrite updateSRS_card_unfold.
  cbn [cardId interval repetitions nextReview Spec.intervalDays' Spec.repetitionCount'].
  change (Spec.daysToMs JS.n0) with JS.n0.
  destruct (of_Z_not_negative_zero t) as [Hnz Hnan].
  rewrite (add_zero_r _ Hnz).
  repeat split; try reflexivity. apply leb_refl. exact Hnan.
Qed.

Lemma updateSRS_keyed (now : Number) (id : string) (rating : SRSRating)
    (states : gmap string SRSState) :
  keyed states -> keyed (updateSRS now id rating states).
Proof.
  intros Hk. unfold keyed, updateSRS. apply map_Forall_insert_2; [ | exact Hk ].
  rewrite updateSRS_card_unfold. cbn [cardId].
  destruct (states !! id) as [ s | ] eqn:Es; [ | reflexivity ].
  cbn [default]. exact (Hk id s Es).
Qed.

Lemma rateAll_other (clock : nat -> Z) (layers : list MasteryCard) :
  forall (i : nat) (states : gmap string SRSState) (id : string),
    ~ In id (map mc_id layers) ->
    rateAll clock i layers states !! id = states !! id.
Proof.
  induction layers as [ | card rest IH ]; intros i states id Hid; [ reflexivity | ].
  cbn [rateAll]. cbn [map In] in Hid.
  rewrite IH by tauto. unfold updateSRS.
  apply lookup_insert_ne. intros E. apply Hid. left. exact E.
Qed.

Lemma rateAll_rated (clock : nat -> Z) (layers : list MasteryCard) :
  forall (i : nat) (states : gmap string SRSState) (id : string),
    keyed states ->
    In id (map mc_id layers) ->
    exists (j : nat) (c : SRSState),
      (i <= j < i + length layers)%nat /\ cardId c = id /\
      rateAll clock i layers states !! id
      = Some (updateSRS_card (JS.of_Z (clock j)) c again).
Proof.
  induction layers as [ | card rest IH ]; intros i states id Hk Hid; [ contradiction | ].
  cbn [rateAll length].
  destruct (in_dec string_dec id (map mc_id rest)) as [Hin | Hout].
  - destruct (IH (S i) _ id (updateSRS_keyed (JS.of_Z (clock i)) (mc_id card) again states Hk) Hin)
      as (j & c & Hj & Hc & Hl).
    exists j, c. split; [ lia | ]. split; assumption.
  - destruct Hid as [E | Hin]; [ | contradiction ]. subst id.
    rewrite rateAll_other by exact Hout.
    exists i, (default (defaultSRSState (mc_id card)) (states !! mc_id card)).
    split; [ lia | ]. split.
    + destruct (states !! mc_id card) as [ s | ] eqn:Es; [ | reflexivity ].
      cbn [default]. exact (Hk _ s Es).
    + unfold updateSRS. apply lookup_insert_eq.
Qed.

Lemma Object_set_In {V : Type} (o : list (string * V)) (key : string) (value : V) :
  In (key, value) (Object_set o key value).
Proof.
  induction o as [ | [k v] rest IH ]; cbn [Object_set]; [ left; reflexivity | ].
  destruct (String.eqb k key); [ left; reflexivity | right; exact IH ].
Qed.

(** X15. When [dissectQuestion] does its work, every generated card gets
    a card state under its id that has interval 0 and no repetition and is
    scheduled at the clock reading of its own update, so that it is due at
    once; the card is found by [dueSRSItems], never dropped as an orphan,
    and carries the id of the question as its parent. *)
Theorem dissectQuestion_seeds_due_cards :
  forall (clock : nat -> Z) (q : Question) (forceRegen : bool)
         (cards : list MasteryCard) (st : AppState),
    keyed (srsStates st) ->
    hasKey (masteryCards st) (q_id q) = false \/ forceRegen = true ->
    let st' := dissectQuestion clock q forceRegen (Some cards) st in
    In (q_id q, withParent q cards) (masteryCards st') /\
    (forall card : MasteryCard,
       In card (withParent q cards) -> parentId card = q_id q) /\
    (forall card : MasteryCard,
       In card cards ->
       exists (s : SRSState) (j : nat),
         (j < length cards)%nat /\
         srsStates st' !! mc_id card = Some s /\
         cardId s = mc_id card /\
         interval s = JS.n0 /\ repetitions s = JS.n0 /\
         nextReview s = JS.of_Z (clock j) /\
         isDue (JS.of_Z (clock j)) s = true /\
         isOrphan (questionLibrary st') (masteryCards st') s = false).
Proof.
  intros clock q forceRegen cards st Hk Hrun st'.
  assert (E : st' = {| bookmarks := bookmarks st;
                       questionLibrary := questionLibrary st;
                       srsStates := rateAll clock 0 (withParent q cards) (srsStates st);
                       masteryCards :=
                         Object_set (masteryCards st) (q_id q) (withParent q cards) |}).
  { unfold st', dissectQuestion.
    destruct Hrun as [-> | ->]; [ reflexivity | ].
    rewrite andb_false_r. reflexivity. }
  rewrite E. cbn [masteryCards srsStates questionLibrary].
  split; [ apply Object_set_In | ].
  split.
  { intros card Hin. unfold withParent in Hin.
    apply in_map_iff in Hin as (c & <- & _). reflexivity. }
  intros card Hin.
  assert (Hid : In (mc_id card) (map mc_id (withParent q cards))).
  { unfold withParent. rewrite map_map. cbn [mc_id].
    apply in_map_iff. exists card. split; [ reflexivity | exact Hin ]. }
  destruct (rateAll_rated clock (withParent q cards) 0 (srsStates st) (mc_id card) Hk Hid)
    as (j & c & Hj & Hc & Hl).
  destruct (again_card (clock j) c) as (Hcard & Hi & Hr & Hn & Hd).
  exists (updateSRS_card (JS.of_Z (clock j)) c again), j.
  unfold withParent in Hj. rewrite length_map in Hj.
  split; [ lia | ]. split; [ exact Hl | ].
  split; [ rewrite Hcard; exact Hc | ].
  split; [ exact Hi | ]. split; [ exact Hr | ]. split; [ exact Hn | ].
  split; [ exact Hd | ].
  unfold isOrphan, resolveDue. rewrite Hcard, Hc.
  destruct (questionLibrary st !! mc_id card); [ reflexivity | ].
  destruct (findMasteryCard _ (mc_id card)) as [ found | ] eqn:Ef; [ reflexivity | ].
  exfalso. rewrite findMasteryCard_None in Ef.
  apply in_map_iff in Hid as (card' & Hid' & Hin').
  exact (Ef (q_id q) (withParent q cards) card' (Object_set_In _ _ _) Hin' Hid').
Qed.

Lemma dissectQuestion_seeds_due_cards_witness :
  In ("q-1"%string,
      withParent (exampleQuestion "q-1") [ {| mc_id := "m-1"; parentId := "q-0" |} ])
     (masteryCards
        (dissectQuestion (fun i => 1700000000000%Z) (exampleQuestion "q-1") false
           (Some [ {| mc_id := "m-1"; parentId := "q-0" |} ]) initialAppState)).
Proof.
  apply (dissectQuestion_seeds_due_cards (fun i => 1700000000000%Z)
           (exampleQuestion "q-1") false
           [ {| mc_id := "m-1"; parentId := "q-0" |} ] initialAppState).
  - apply map_Forall_empty.
  - left. reflexivity.
Defined.

(** *** The quiz session *)

Section QuizFacts.
Import Quiz.

Lemma array_set_length {A : Type} (a : list (option A)) (i : nat) (v : A) :
  length (array_set a i v) = Nat.max (length a) (S i).
Proof.
  revert a. induction i as [ | i IH ]; intros [ | x a ]; cbn [array_set length].
  - reflexivity.
  - lia.
  - rewrite IH. cbn [length]. lia.
  - rewrite IH. lia.
Qed.

Lemma array_set_answered (a : list (option Z)) (i : nat) (v : Z) :
  forallb answered a = true -> (i <= length a)%nat ->
  forallb answered (array_set a i v) = true.
Proof.
  revert a. induction i as [ | i IH ]; intros [ | x a ]; cbn [array_set forallb length answered].
  - reflexivity.
  - intros H _. apply andb_prop in H as [_ H]. exact H.
  - lia.
  - intros H Hi. apply andb_prop in H as [Hx H]. rewrite Hx.
    apply IH; [ exact H | lia ].
Qed.

Lemma filter_answered (a : list (option Z)) :
  forallb answered a = true -> List.filter answered a = a.
Proof.
  induction a as [ | x a IH ]; [ reflexivity | ].
  cbn [forallb List.filter]. intros H. apply andb_prop in H as [Hx H].
  rewrite Hx, (IH H). reflexivity.
Qed.

Lemma detailsOf_length (qs : list QuizQuestion) (answers : list (option Z)) :
  length (detailsOf qs answers) = length qs.
Proof.
  revert answers. induction qs as [ | q qs IH ]; intros answers; [ reflexivity | ].
  cbn [detailsOf length]. rewrite IH. reflexivity.
Qed.

Lemma detailsOf_ids (qs : list QuizQuestion) (answers : list (option Z)) :
  map questionId (detailsOf qs answers) = map (fun q => q_id (question q)) qs.
Proof.
  revert answers. induction qs as [ | q qs IH ]; intros answers; [ reflexivity | ].
  cbn [detailsOf map questionId]. rewrite IH. reflexivity.
Qed.

Lemma detailsOf_unanswered (qs : list QuizQuestion) :
  countTrue (map isCorrect (detailsOf qs [])) = 0%Z.
Proof.
  unfold countTrue. induction qs as [ | q qs IH ]; [ reflexivity | ].
  cbn [detailsOf map isCorrect answerIs tl List.filter]. exact IH.
Qed.

Lemma countTrue_cons (b : bool) (l : list bool) :
  countTrue (b :: l) = ((if b then 1 else 0) + countTrue l)%Z.
Proof. unfold countTrue. cbn [List.filter]. destruct b; cbn [length]; lia. Qed.

(** The count of the [reduce] is the number of details marked correct. *)
Lemma correctCount_spec (answers : list (option Z)) :
  forall (qs : list QuizQuestion) (acc : Z),
    (length answers <= length qs)%nat ->
    correctCount acc answers qs
    = Some (acc + countTrue (map isCorrect (detailsOf qs answers)))%Z.
Proof.
  induction answers as [ | a answers IH ]; intros qs acc Hlen.
  - cbn [correctCount]. rewrite detailsOf_unanswered. f_equal. lia.
  - destruct qs as [ | q qs ]; [ cbn [length] in Hlen; lia | ].
    cbn [correctCount detailsOf map isCorrect tl]. cbn [length] in Hlen.
    rewrite IH by lia. rewrite countTrue_cons.
    destruct (answerIs a q); f_equal; lia.
Qed.

(** The history entry of a session whose answers do not go past its
    questions. *)
Lemma processSessionCompletion_entry (id : string) (now timeTaken : Z)
    (s : QuizSession) :
  (length (userAnswers s) <= length (questions s))%nat ->
  exists e : HistoricalSession,
    processSessionCompletion id now timeTaken s = Some e /\
    session_id e = id /\ timestamp e = now /\ timeTakenMs e = timeTaken /\
    totalQuestions e = Z.of_nat (length (questions s)) /\
    map questionId (details e) = map (fun q => q_id (question q)) (questions s) /\
    correctAnswers e = countTrue (map isCorrect (details e)) /\
    (0 <= correctAnswers e <= totalQuestions e)%Z.
Proof.
  intros Hlen. unfold processSessionCompletion.
  rewrite (correctCount_spec _ _ 0%Z Hlen).
  eexists. split; [ reflexivity | ].
  cbn [session_id timestamp timeTakenMs totalQuestions details correctAnswers].
  repeat (split; [ reflexivity | ]).
  split; [ apply detailsOf_ids | ].
  split; [ reflexivity | ].
  pose proof (countTrue_bounds (map isCorrect (detailsOf (questions s) (userAnswers s)))) as Hb.
  rewrite length_map, detailsOf_length in Hb. lia.
Qed.

Lemma quizInv_session (st : QuizState) (s : QuizSession) :
  quizInv st = true -> session st = Some s ->
  (currentQuestionIndex s < length (questions s))%nat /\
  (currentQuestionIndex s <= length (userAnswers s))%nat /\
  (length (userAnswers s) <= length (questions s))%nat /\
  forallb answered (userAnswers s) = true.
Proof.
  unfold quizInv. intros H Es. rewrite Es in H.
  apply andb_prop in H as [H Hall]. apply andb_prop in H as [H Hlen].
  apply andb_prop in H as [Hidx Hans].
  apply Nat.ltb_lt in Hidx. apply Nat.leb_le in Hans. apply Nat.leb_le in Hlen.
  repeat split; assumption.
Qed.

Lemma quizInv_intro (s : QuizSession) (sel : option Z) (h : list HistoricalSession) :
  (currentQuestionIndex s < length (questions s))%nat ->
  (currentQuestionIndex s <= length (userAnswers s))%nat ->
  (length (userAnswers s) <= length (questions s))%nat ->
  forallb answered (userAnswers s) = true ->
  quizInv {| session := Some s; selectedAnswer := sel; history := h |} = true.
Proof.
  intros Hidx Hans Hlen Hall. unfold quizInv. cbn [session].
  rewrite Hall, andb_true_r.
  apply Nat.ltb_lt in Hidx. apply Nat.leb_le in Hans. apply Nat.leb_le in Hlen.
  rewrite Hidx, Hans, Hlen. reflexivity.
Qed.

(** X16. A session started by [startQuiz] satisfies the invariant of
    running sessions, and every handler keeps it: choosing an answer, going
    back, receiving further questions, going on and quitting.  In such a
    state [handleNext] never reads past the questions; when the question is
    not the last one it stores the chosen answer at the index and moves the
    index by one. *)
Theorem quiz_steps_keep_invariant :
  forall st : QuizState,
    quizInv st = true ->
    (forall (batch : list QuizQuestion) (auto : bool),
       quizInv (startSession batch auto st) = true) /\
    (forall answer : option Z, quizInv (selectAnswer answer st) = true) /\
    quizInv (handlePrev st) = true /\
    (forall batch : list QuizQuestion, quizInv (appendQuestions batch st) = true) /\
    (forall (id : string) (now timeTaken : Z) (pending : option Z),
       quizInv (executeQuit id now timeTaken pending st) = true) /\
    (forall (id : string) (now timeTaken : Z),
       exists st' : QuizState,
         handleNext id now timeTaken st = Some st' /\ quizInv st' = true /\
         forall (s : QuizSession) (a : Z),
           session st = Some s -> selectedAnswer st = Some a ->
           (S (currentQuestionIndex s) < length (questions s))%nat ->
           exists s' : QuizSession,
             session st' = Some s' /\
             questions s' = questions s /\
             currentQuestionIndex s' = S (currentQuestionIndex s) /\
             userAnswers s' !! currentQuestionIndex s = Some (Some a) /\
             length (userAnswers s')
             = Nat.max (length (userAnswers s)) (S (currentQuestionIndex s)) /\
             history st' = history st).
Proof.
  intros st Hinv.
  split; [ | split; [ | split; [ | split; [ | split ] ] ] ].
  - intros [ | q batch ] auto; [ exact Hinv | reflexivity ].
  - intros answer. exact Hinv.
  - unfold handlePrev. destruct (session st) as [ s | ] eqn:Es; [ | exact Hinv ].
    destruct (quizInv_session st s Hinv Es) as (Hidx & Hans & Hlen & Hall).
    destruct (currentQuestionIndex s) as [ | prevIdx ] eqn:Ei; [ exact Hinv | ].
    apply quizInv_intro; cbn [questions currentQuestionIndex userAnswers];
      first [ lia | assumption ].
  - intros batch. unfold appendQuestions.
    destruct (session st) as [ s | ] eqn:Es; [ | exact Hinv ].
    destruct (quizInv_session st s Hinv Es) as (Hidx & Hans & Hlen & Hall).
    apply quizInv_intro; cbn [questions currentQuestionIndex userAnswers];
      rewrite ?length_app; first [ lia | assumption ].
  - intros id now timeTaken pending. unfold executeQuit.
    destruct (session st) as [ s | ] eqn:Es; [ | exact Hinv ].
    destruct (length (List.filter answered _)); reflexivity.
  - intros id now timeTaken. unfold handleNext.
    destruct (session st) as [ s | ] eqn:Es;
      [ | exists st; split; [ reflexivity | split; [ exact Hinv | discriminate ] ] ].
    destruct (quizInv_session st s Hinv Es) as (Hidx & Hans & Hlen & Hall).
    destruct (selectedAnswer st) as [ selected | ] eqn:Esel;
      [ | exists st; split; [ reflexivity | split; [ exact Hinv | discriminate ] ] ].
    destruct (questions s !! currentQuestionIndex s) as [ currentQuestion | ] eqn:Eq.
    2: { apply lookup_ge_None in Eq. lia. }
    destruct (Nat.ltb_spec (S (currentQuestionIndex s)) (length (questions s)))
      as [Hmore | Hlast].
    + eexists. split; [ reflexivity | ]. split.
      * apply quizInv_intro; cbn [questions currentQuestionIndex userAnswers];
          rewrite ?array_set_length; try lia.
        apply array_set_answered; assumption.
      * intros s0 a Hs0 Ha _. injection Hs0 as <-. injection Ha as <-.
        eexists. split; [ reflexivity | ].
        cbn [questions currentQuestionIndex userAnswers history].
        split; [ reflexivity | ]. split; [ reflexivity | ].
        split; [ | split; [ apply array_set_length | reflexivity ] ].
        clear. generalize (currentQuestionIndex s) as i. generalize (userAnswers s) as l.
        intros l i. revert l.
        induction i as [ | i IH ]; intros [ | x l ]; cbn [array_set]; try reflexivity.
        -- exact (IH []).
        -- exact (IH l).
    + eexists. split; [ reflexivity | ]. split; [ reflexivity | ].
      intros s0 a Hs0 _ Hmore. injection Hs0 as <-. lia.
Qed.

Lemma quiz_steps_keep_invariant_witness :
  quizInv (handlePrev
             (startSession [ {| question := exampleQuestion "q-1"; correctIndex := 2 |} ]
                true
                {| session := None; selectedAnswer := None; history := [] |}))
  = true.
Proof.
  apply (quiz_steps_keep_invariant
           (startSession [ {| question := exampleQuestion "q-1"; correctIndex := 2 |} ]
              true
              {| session := None; selectedAnswer := None; history := [] |})).
  reflexivity.
Defined.

(** X17. Going on from the last question with an answer chosen ends the
    session and puts one entry in front of the history.  The entry counts
    every question of the session, lists their ids in order, and its number
    of correct answers is the number of its details marked correct. *)
Theorem handleNext_records_whole_session :
  forall (id : string) (now timeTaken : Z) (st : QuizState)
         (s : QuizSession) (a : Z),
    quizInv st = true ->
    session st = Some s ->
    selectedAnswer st = Some a ->
    S (currentQuestionIndex s) = length (questions s) ->
    exists e : HistoricalSession,
      handleNext id now timeTaken st
      = Some {| session := None; selectedAnswer := Some a;
                history := e :: history st |} /\
      session_id e = id /\ timestamp e = now /\ timeTakenMs e = timeTaken /\
      totalQuestions e = Z.of_nat (length (questions s)) /\
      map questionId (details e) = map (fun q => q_id (question q)) (questions s) /\
      correctAnswers e = countTrue (map isCorrect (details e)) /\
      (0 <= correctAnswers e <= totalQuestions e)%Z.
Proof.
  intros id now timeTaken st s a Hinv Es Ea Hlast.
  destruct (quizInv_session st s Hinv Es) as (Hidx & Hans & Hlen & Hall).
  unfold handleNext. rewrite Es, Ea.
  destruct (questions s !! currentQuestionIndex s) as [ currentQuestion | ] eqn:Eq.
  2: { apply lookup_ge_None in Eq. lia. }
  destruct (Nat.ltb_spec (S (currentQuestionIndex s)) (length (questions s)))
    as [Hmore | _]; [ lia | ].
  set (finalSession := {| questions := questions s;
                          currentQuestionIndex := currentQuestionIndex s;
                          userAnswers := array_set (userAnswers s)
                                           (currentQuestionIndex s) a;
                          autoReinforce := autoReinforce s |}).
  destruct (processSessionCompletion_entry id now timeTaken finalSession)
    as (e & He & Hfields).
  { cbn [finalSession userAnswers questions]. rewrite array_set_length. lia. }
  exists e. rewrite He. split; [ reflexivity | exact Hfields ].
Qed.

Lemma handleNext_records_whole_session_witness :
  exists e : HistoricalSession,
    handleNext "s-9" 1700000000000 60000
      {| session := Some {| questions :=
                              [ {| question := exampleQuestion "q-1"; correctIndex := 2 |} ];
                            currentQuestionIndex := 0; userAnswers := [];
                            autoReinforce := false |};
         selectedAnswer := Some 2%Z; history := [] |}
    = Some {| session := None; selectedAnswer := Some 2%Z; history := [e] |} /\
    correctAnswers e = 1%Z.
Proof.
  destruct (handleNext_records_whole_session "s-9" 1700000000000 60000
              {| session := Some {| questions :=
                                      [ {| question := exampleQuestion "q-1";
                                           correctIndex := 2 |} ];
                                    currentQuestionIndex := 0; userAnswers := [];
                            autoReinforce := false |};
                 selectedAnswer := Some 2%Z; history := [] |}
              _ 2%Z eq_refl eq_refl eq_refl eq_refl) as (e & He & _).
  exists e. split; [ exact He | ].
  vm_compute in He. injection He as <-. reflexivity.
Defined.

(** X18. Quitting ends the session.  With no answer given and none put
    aside, nothing is recorded; otherwise one entry is put in front of the
    history that counts exactly the questions answered, lists their ids in
    order, and whose number of correct answers is the number of its details
    marked correct. *)
Theorem executeQuit_records_answered :
  forall (id : string) (now timeTaken : Z) (pending : option Z)
         (st : QuizState) (s : QuizSession),
    quizInv st = true ->
    session st = Some s ->
    let st' := executeQuit id now timeTaken pending st in
    let n := match pending with
             | Some _ => Nat.max (length (userAnswers s)) (S (currentQuestionIndex s))
             | None => length (userAnswers s)
             end in
    session st' = None /\
    (n = 0%nat -> history st' = history st) /\
    (n <> 0%nat ->
     exists e : HistoricalSession,
       history st' = e :: history st /\
       totalQuestions e = Z.of_nat n /\
       map questionId (details e)
       = map (fun q => q_id (question q)) (firstn n (questions s)) /\
       correctAnswers e = countTrue (map isCorrect (details e)) /\
       (0 <= correctAnswers e <= totalQuestions e)%Z).
Proof.
  intros id now timeTaken pending st s Hinv Es st' n.
  destruct (quizInv_session st s Hinv Es) as (Hidx & Hans & Hlen & Hall).
  set (finalAnswers := match pending with
                       | Some a => array_set (userAnswers s) (currentQuestionIndex s) a
                       | None => userAnswers s
                       end).
  assert (Hfa : forallb answered finalAnswers = true /\ length finalAnswers = n).
  { unfold finalAnswers, n. destruct pending as [ a | ].
    - split; [ apply array_set_answered; assumption | apply array_set_length ].
    - split; [ exact Hall | reflexivity ]. }
  destruct Hfa as [Hdense Hn].
  assert (Hnq : (n <= length (questions s))%nat).
  { unfold n. destruct pending; lia. }
  assert (Est : st' = match n with
                      | O => {| session := None; selectedAnswer := selectedAnswer st;
                                history := history st |}
                      | S _ =>
                          {| session := None; selectedAnswer := selectedAnswer st;
                             history :=
                               record (processSessionCompletion id now timeTaken
                                         {| questions := firstn n (questions s);
                                            currentQuestionIndex := currentQuestionIndex s;
                                            userAnswers := firstn n finalAnswers;
                                            autoReinforce := autoReinforce s |})
                                      (history st) |}
                      end).
  { unfold st', executeQuit. rewrite Es. fold finalAnswers.
    rewrite (filter_answered _ Hdense), Hn. reflexivity. }
  rewrite Est. destruct n as [ | k ] eqn:En.
  - split; [ reflexivity | ]. split; [ reflexivity | ]. intros H. contradiction.
  - split; [ reflexivity | ]. split; [ discriminate | ]. intros _.
    rewrite <- En in *.
    destruct (processSessionCompletion_entry id now timeTaken
                {| questions := firstn n (questions s);
                   currentQuestionIndex := currentQuestionIndex s;
                   userAnswers := firstn n finalAnswers;
                   autoReinforce := autoReinforce s |})
      as (e & He & _ & _ & _ & Ht & Hids & Hc & Hb).
    { cbn [userAnswers questions]. rewrite !length_firstn. lia. }
    exists e. rewrite He. cbn [record history questions] in *.
    rewrite length_firstn in Ht.
    split; [ reflexivity | ].
    split; [ rewrite Ht; f_equal; lia | ].
    split; [ exact Hids | ]. split; [ exact Hc | exact Hb ].
Qed.

Lemma executeQuit_records_answered_witness :
  session (executeQuit "s-9" 1700000000000 60000 (Some 1%Z)
             {| session := Some {| questions :=
                                     [ {| question := exampleQuestion "q-1";
                                          correctIndex := 2 |};
                                       {| question := exampleQuestion "q-2";
                                          correctIndex := 0 |} ];
                                   currentQuestionIndex := 0; userAnswers := [];
                            autoReinforce := false |};
                selectedAnswer := None; history := [] |})
  = None.
Proof.
  apply (executeQuit_records_answered "s-9" 1700000000000 60000 (Some 1%Z)
           {| session := Some {| questions :=
                                   [ {| question := exampleQuestion "q-1";
                                        correctIndex := 2 |};
                                     {| question := exampleQuestion "q-2";
                                        correctIndex := 0 |} ];
                                 currentQuestionIndex := 0; userAnswers := [];
                            autoReinforce := false |};
              selectedAnswer := None; history := [] |} _ eq_refl eq_refl).
Defined.

End QuizFacts.

(** *** Automatic remediation *)

Section Reinforce.
Import Quiz.

Lemma array_set_get (a : list (option Z)) (i : nat) (v : Z) :
  array_get (array_set a i v) i = Some v.
Proof.
  unfold array_get. revert a.
  induction i as [ | i IH ]; intros [ | x a ]; cbn [array_set]; try reflexivity.
  - exact (IH []).
  - exact (IH a).
Qed.

Lemma array_get_answered (a : list (option Z)) (i : nat) :
  forallb answered a = true ->
  match array_get a i with Some _ => false | None => true end
  = (length a <=? i)%nat.
Proof.
  unfold array_get. revert i.
  induction a as [ | x a IH ]; intros i Hall; [ destruct i; reflexivity | ].
  cbn [forallb] in Hall. apply andb_prop in Hall as [Hx Hall].
  destruct i as [ | i ].
  - destruct x; [ reflexivity | discriminate ].
  - cbn [length]. exact (IH i Hall).
Qed.

(** X19. In a running session, remediation starts on its own exactly
    when the chosen answer is wrong, the session has automatic reinforcement
    on, and the question has no answer yet; asked for by hand it always
    starts.  Once [handleNext] has stored an answer for the question, coming
    back to it and answering again never starts it on its own. *)
Theorem auto_reinforce_first_answer_only :
  forall (st : QuizState) (s : QuizSession) (a : Z),
    quizInv st = true ->
    session st = Some s ->
    (exists q : QuizQuestion,
       questions s !! currentQuestionIndex s = Some q /\
       shouldReinforce true s a = Some true /\
       shouldReinforce false s a
       = Some (negb (a =? correctIndex q)%Z
               && (length (userAnswers s) =? currentQuestionIndex s)%nat
               && autoReinforce s)) /\
    (forall (id : string) (now timeTaken : Z) (st' : QuizState)
            (s' : QuizSession) (a' : Z),
       selectedAnswer st = Some a ->
       handleNext id now timeTaken st = Some st' ->
       session (handlePrev st') = Some s' ->
       currentQuestionIndex s' = currentQuestionIndex s ->
       shouldReinforce false s' a' = Some false).
Proof.
  intros st s a Hinv Es.
  unfold quizInv in Hinv. rewrite Es in Hinv.
  apply andb_prop in Hinv as [Hinv Hall]. apply andb_prop in Hinv as [Hinv Hlen].
  apply andb_prop in Hinv as [Hidx Hans].
  apply Nat.ltb_lt in Hidx. apply Nat.leb_le in Hans. apply Nat.leb_le in Hlen.
  destruct (questions s !! currentQuestionIndex s) as [ q | ] eqn:Eq.
  2: { apply lookup_ge_None in Eq. lia. }
  split.
  - exists q. split; [ reflexivity | ]. unfold shouldReinforce. rewrite Eq.
    split; [ reflexivity | ].
    rewrite (array_get_answered _ _ Hall). cbn [orb answerIs].
    destruct (Nat.leb_spec (length (userAnswers s)) (currentQuestionIndex s)),
             (Nat.eqb_spec (length (userAnswers s)) (currentQuestionIndex s));
      try reflexivity; lia.
  - intros id now timeTaken st' s' a' Ea Hnext Hprev Hsame.
    unfold handleNext in Hnext. rewrite Es, Ea, Eq in Hnext.
    destruct (Nat.ltb_spec (S (currentQuestionIndex s)) (length (questions s)))
      as [Hmore | Hlast].
    + injection Hnext as <-. unfold handlePrev in Hprev.
      cbn [session currentQuestionIndex questions userAnswers autoReinforce] in Hprev.
      injection Hprev as <-.
      unfold shouldReinforce.
      cbn [currentQuestionIndex questions userAnswers autoReinforce].
      rewrite Eq, array_set_get. cbn [orb]. rewrite andb_false_r. reflexivity.
    + injection Hnext as <-. discriminate Hprev.
Qed.

Lemma auto_reinforce_first_answer_only_witness :
  exists q : QuizQuestion,
    [ {| question := exampleQuestion "q-1"; correctIndex := 2 |} ] !! 0%nat = Some q /\
    shouldReinforce true
      {| questions := [ {| question := exampleQuestion "q-1"; correctIndex := 2 |} ];
         currentQuestionIndex := 0; userAnswers := []; autoReinforce := true |} 1%Z
    = Some true.
Proof.
  destruct (auto_reinforce_first_answer_only
              {| session := Some {| questions :=
                                      [ {| question := exampleQuestion "q-1";
                                           correctIndex := 2 |} ];
                                    currentQuestionIndex := 0; userAnswers := [];
                                    autoReinforce := true |};
                 selectedAnswer := None; history := [] |}
              _ 1%Z eq_refl eq_refl) as [(q & Hq & Hmanual & _) _].
  exists q. split; [ exact Hq | exact Hmanual ].
Defined.

End Reinforce.

(** *** Question generation *)

Lemma array_put_length (a : list (option string)) (k : nat) (v : option string) :
  (k < length a)%nat -> length (array_put a k v) = length a.
Proof.
  revert a. induction k as [ | k IH ]; intros [ | x a ]; cbn [array_put length]; try lia.
  intros H. rewrite IH by lia. reflexivity.
Qed.

(** Taking the cell at [k] out and putting [x] in its place. *)
Lemma array_put_perm (a : list (option string)) (k : nat) (x : option string) :
  (k < length a)%nat ->
  Permutation (x :: a) (array_read a k :: array_put a k x).
Proof.
  revert a. induction k as [ | k IH ]; intros [ | y a ]; cbn [length]; try lia.
  - intros _. cbn. apply perm_swap.
  - intros H. specialize (IH a ltac:(lia)).
    change (array_read (y :: a) (S k)) with (array_read a k).
    cbn [array_put].
    apply perm_trans with (y :: x :: a); [ apply perm_swap | ].
    apply perm_trans with (y :: array_read a k :: array_put a k x);
      [ apply perm_skip; exact IH | apply perm_swap ].
Qed.

Lemma array_read_put_same (a : list (option string)) (k : nat) (v : option string) :
  array_read (array_put a k v) k = v.
Proof.
  revert a. induction k as [ | k IH ]; intros [ | x a ]; cbn [array_put]; try reflexivity.
  - exact (IH []).
  - exact (IH a).
Qed.

Lemma array_read_nil (j : nat) : array_read [] j = None.
Proof. destruct j; reflexivity. Qed.

Lemma array_read_cons (x : option string) (a : list (option string)) (j : nat) :
  array_read (x :: a) (S j) = array_read a j.
Proof. reflexivity. Qed.

Lemma array_read_put_other (a : list (option string)) (k j : nat) (v : option string) :
  k <> j -> array_read (array_put a k v) j = array_read a j.
Proof.
  revert a j. induction k as [ | k IH ]; intros a j Hkj.
  - destruct j as [ | j ]; [ lia | ].
    destruct a as [ | x a ]; cbn [array_put]; rewrite !array_read_cons; reflexivity.
  - destruct a as [ | x a ]; cbn [array_put]; (destruct j as [ | j ]; [ reflexivity | ]).
    + rewrite !array_read_cons, IH by lia. reflexivity.
    + rewrite !array_read_cons, IH by lia. reflexivity.
Qed.

Lemma array_put_same (a : list (option string)) (k : nat) :
  (k < length a)%nat -> array_put a k (array_read a k) = a.
Proof.
  revert a. induction k as [ | k IH ]; intros [ | x a ]; cbn [length]; try lia.
  - reflexivity.
  - intros H. cbn [array_put].
    change (array_read (x :: a) (S k)) with (array_read a k).
    rewrite IH by lia. reflexivity.
Qed.

Lemma swap_perm (a : list (option string)) (i j : nat) :
  (i < length a)%nat -> (j < length a)%nat ->
  Permutation a (swap a i j) /\ length (swap a i j) = length a.
Proof.
  intros Hi Hj. unfold swap. split.
  - destruct (Nat.eq_dec i j) as [-> | Hij].
    + rewrite (array_put_same a j Hj), (array_put_same a j Hj). reflexivity.
    + pose proof (array_put_perm a i (array_read a j) Hi) as H1.
      pose proof (array_put_perm (array_put a i (array_read a j)) j (array_read a i)
                    ltac:(rewrite array_put_length; lia)) as H2.
      rewrite array_read_put_other in H2 by exact Hij.
      apply (Permutation_cons_inv (a := array_read a j)).
      apply perm_trans with (array_read a i :: array_put a i (array_read a j));
        [ exact H1 | exact H2 ].
  - rewrite !array_put_length; rewrite ?array_put_length; lia.
Qed.

Lemma shuffleFrom_perm (draw : nat -> nat) :
  (forall i : nat, (draw i <= i)%nat) ->
  forall (i : nat) (a : list (option string)),
    (i < length a)%nat ->
    Permutation a (shuffleFrom draw i a) /\ length (shuffleFrom draw i a) = length a.
Proof.
  intros Hdraw. induction i as [ | k IH ]; intros a Hi; cbn [shuffleFrom].
  - split; reflexivity.
  - pose proof (Hdraw (S k)) as Hj.
    destruct (swap_perm a (S k) (draw (S k)) Hi ltac:(lia)) as [Hp Hl].
    destruct (IH (swap a (S k) (draw (S k))) ltac:(lia)) as [Hp' Hl'].
    split; [ apply perm_trans with (swap a (S k) (draw (S k))); assumption | lia ].
Qed.

Lemma cell_eqb_eq (x y : option string) : cell_eqb x y = true <-> x = y.
Proof.
  destruct x as [ s | ], y as [ t | ]; cbn [cell_eqb]; try (split; [ discriminate | discriminate ]).
  - rewrite String.eqb_eq. split; [ intros ->; reflexivity | intros [= ->]; reflexivity ].
  - split; reflexivity.
Qed.

Lemma indexOf_from_found (a : list (option string)) (x : option string) :
  In x a ->
  forall k : Z,
    (k <= indexOf_from a x k < k + Z.of_nat (length a))%Z /\
    a !! Z.to_nat (indexOf_from a x k - k) = Some x.
Proof.
  induction a as [ | cell rest IH ]; intros Hin k; [ contradiction | ].
  cbn [indexOf_from length]. destruct (cell_eqb cell x) eqn:Ec.
  - apply cell_eqb_eq in Ec. subst cell. rewrite Z.sub_diag.
    split; [ lia | reflexivity ].
  - destruct Hin as [E | Hin].
    { subst cell. assert (Ht : cell_eqb x x = true) by (apply cell_eqb_eq; reflexivity).
      rewrite Ht in Ec. discriminate. }
    destruct (IH Hin (k + 1)%Z) as [Hr Hl]. split; [ lia | ].
    replace (Z.to_nat (indexOf_from rest x (k + 1) - k))
      with (S (Z.to_nat (indexOf_from rest x (k + 1) - (k + 1)))) by lia.
    exact Hl.
Qed.

Lemma actualCorrectIndex_range (correctIndex : option Z) (options : list string) :
  options <> [] ->
  (0 <= actualCorrectIndex correctIndex options < Z.of_nat (length options))%Z.
Proof.
  intros Hne. assert (0 < length options)%nat by (destruct options; [ contradiction | cbn; lia ]).
  unfold actualCorrectIndex. destruct correctIndex as [ c | ]; [ | lia ].
  destruct (Z.ltb_spec c 0), (Z.leb_spec (Z.of_nat (length options)) c); cbn [orb]; lia.
Qed.

(** X20. Whatever the random draws (each within its range), the shuffled
    options are the options of the response in some order.  When there are
    options, the new correct index is within them, and the option at the
    new index is the text of the option at the normalised index of the
    response; a missing, negative or too large index of the response counts
    as 0.  Without options the new index is -1. *)
Theorem shuffle_keeps_correct_option :
  forall (draw : nat -> nat) (correctIndex : option Z) (options : list string),
    (forall i : nat, (draw i <= i)%nat) ->
    Permutation (map Some options) (shuffledOptions draw options) /\
    (options <> [] ->
     exists text : string,
       options !! Z.to_nat (actualCorrectIndex correctIndex options) = Some text /\
       (0 <= newCorrectIndex draw correctIndex options < Z.of_nat (length options))%Z /\
       shuffledOptions draw options !! Z.to_nat (newCorrectIndex draw correctIndex options)
       = Some (Some text)) /\
    (options = [] -> newCorrectIndex draw correctIndex options = (-1)%Z) /\
    (correctIndex = None \/
     (exists c, correctIndex = Some c /\ (c < 0 \/ Z.of_nat (length options) <= c)%Z) ->
     actualCorrectIndex correctIndex options = 0%Z).
Proof.
  intros draw correctIndex options Hdraw.
  assert (Hperm : Permutation (map Some options) (shuffledOptions draw options) /\
                  length (shuffledOptions draw options) = length options).
  { unfold shuffledOptions. destruct options as [ | o options ].
    - split; reflexivity.
    - destruct (shuffleFrom_perm draw Hdraw (length (o :: options) - 1)
                  (map Some (o :: options))) as [Hp Hl].
      { rewrite length_map. cbn [length]. lia. }
      split; [ exact Hp | ]. rewrite Hl, length_map. reflexivity. }
  destruct Hperm as [Hperm Hlen].
  split; [ exact Hperm | ]. split; [ | split ].
  - intros Hne.
    pose proof (actualCorrectIndex_range correctIndex options Hne) as Hrange.
    destruct (lookup_lt_is_Some_2 options (Z.to_nat (actualCorrectIndex correctIndex options))
                ltac:(lia)) as [text Htext].
    exists text. split; [ exact Htext | ].
    assert (Horig : originalCorrectOption correctIndex options = Some text).
    { unfold originalCorrectOption, array_read.
      rewrite list_lookup_fmap, Htext. reflexivity. }
    assert (Hin : In (Some text) (shuffledOptions draw options)).
    { apply (Permutation_in _ Hperm). apply in_map.
      apply list_elem_of_In. apply (list_elem_of_lookup_2 _ _ _ Htext). }
    destruct (indexOf_from_found _ _ Hin 0%Z) as [Hr Hl].
    unfold newCorrectIndex, indexOf. rewrite Horig.
    rewrite Z.sub_0_r in Hl. rewrite Hlen in Hr. split; [ lia | exact Hl ].
  - intros ->. reflexivity.
  - intros [-> | (c & -> & Hc)]; [ reflexivity | ].
    unfold actualCorrectIndex.
    destruct (Z.ltb_spec c 0), (Z.leb_spec (Z.of_nat (length options)) c);
      cbn [orb]; first [ reflexivity | lia ].
Qed.

Lemma shuffle_keeps_correct_option_witness :
  Permutation (map Some ["A"; "B"; "C"; "D"]%string)
    (shuffledOptions (fun i => (i - 1)%nat) ["A"; "B"; "C"; "D"]%string).
Proof.
  apply (shuffle_keeps_correct_option (fun i => (i - 1)%nat) (Some 2%Z)
           ["A"; "B"; "C"; "D"]%string).
  intros i. lia.
Defined.

(** *** Appended tags *)

Lemma find_app_none {A : Type} (f : A -> bool) (l extra : list A) :
  forallb (fun x => negb (f x)) extra = true ->
  List.find f (l ++ extra) = List.find f l.
Proof.
  intros Hextra. induction l as [ | x l IH ]; cbn [app List.find].
  - induction extra as [ | y extra IHe ]; [ reflexivity | ].
    cbn [forallb] in Hextra. apply andb_prop in Hextra as [Hy He].
    cbn [List.find]. apply negb_true_iff in Hy. rewrite Hy. apply IHe. exact He.
  - destruct (f x); [ reflexivity | exact IH ].
Qed.

Lemma dissectClinicalTopic_find (tags : list string) :
  dissectClinicalTopic tags
  = match List.find (fun tag => negb (isIgnored tag) && negb (isBroad tag)) tags with
    | Some tag => Some tag
    | None => List.find (fun tag => negb (isIgnored tag) && isBroad tag) tags
    end.
Proof.
  destruct tags as [ | tag rest ]; [ reflexivity | ].
  unfold dissectClinicalTopic.
  rewrite dissectClinicalTopic_loop_spec by discriminate. reflexivity.
Qed.

Lemma ignored_never_found (extra : list string) (f : string -> bool) :
  forallb isIgnored extra = true ->
  forallb (fun tag => negb (negb (isIgnored tag) && f tag)) extra = true.
Proof.
  intros H. rewrite forallb_forall in *. intros tag Hin.
  rewrite (H tag Hin). reflexivity.
Qed.

(** X21. The tags that [generateQuestions] appends do not change the topic
    of a question, as long as the exam types are ignored tags (such as
    [USMLE Step 2 CK]): the canonical topic of the stored tags is that of
    the tags of the response. *)
Theorem generated_tags_keep_topic :
  forall (tags : option (list string)) (examTypes : list string),
    forallb isIgnored examTypes = true ->
    dissectClinicalTopic (generatedTags tags examTypes)
    = dissectClinicalTopic (default [] tags).
Proof.
  intros tags examTypes Hexam. unfold generatedTags.
  assert (Hextra : forallb isIgnored (examTypes ++ ["Board Style"%string]) = true).
  { rewrite forallb_app, Hexam. reflexivity. }
  rewrite !dissectClinicalTopic_find.
  rewrite !find_app_none by (apply ignored_never_found; exact Hextra).
  reflexivity.
Qed.

Lemma generated_tags_keep_topic_witness :
  dissectClinicalTopic
    (generatedTags (Some ["Cardiology"; "Aortic Dissection"]%string)
       ["USMLE Step 2 CK"]%string)
  = dissectClinicalTopic ["Cardiology"; "Aortic Dissection"]%string.
Proof.
  apply (generated_tags_keep_topic (Some ["Cardiology"; "Aortic Dissection"]%string)
           ["USMLE Step 2 CK"]%string).
  reflexivity.
Defined.

(** X22. A question made by [generateSimilarQuestions] never falls back to
    a broad system: with ignored exam types, its canonical topic is the
    first specific tag of the response or, when there is none, the appended
    tag [Remediation]. *)
Theorem remediation_tags_topic :
  forall (tags : option (list string)) (examTypes : list string),
    forallb isIgnored examTypes = true ->
    dissectClinicalTopic (remediationTags tags examTypes)
    = match List.find isSpecific (default [] tags) with
      | Some tag => Some tag
      | None => Some "Remediation"%string
      end.
Proof.
  intros tags examTypes Hexam. unfold remediationTags.
  rewrite dissectClinicalTopic_find. fold isSpecific.
  change (fun tag => negb (isIgnored tag) && negb (isBroad tag)) with isSpecific.
  assert (Hfind : List.find isSpecific
                    (default [] tags ++ examTypes ++ ["Remediation"; "Board Style"]%string)
                  = match List.find isSpecific (default [] tags) with
                    | Some tag => Some tag
                    | None => Some "Remediation"%string
                    end).
  { induction (default [] tags) as [ | tag rest IH ]; cbn [app List.find].
    - induction examTypes as [ | e examTypes IHe ]; [ reflexivity | ].
      cbn [forallb] in Hexam. apply andb_prop in Hexam as [He Hrest].
      cbn [app List.find]. unfold isSpecific at 1. rewrite He. cbn [negb andb].
      apply IHe. exact Hrest.
    - destruct (isSpecific tag); [ reflexivity | exact IH ]. }
  rewrite Hfind. destruct (List.find isSpecific (default [] tags)); reflexivity.
Qed.

Lemma remediation_tags_topic_witness :
  dissectClinicalTopic (remediationTags (Some ["Cardiology"]%string)
                          ["USMLE Step 2 CK"]%string)
  = Some "Remediation"%string.
Proof.
  apply (remediation_tags_topic (Some ["Cardiology"]%string) ["USMLE Step 2 CK"]%string).
  reflexivity.
Defined.

(** *** The batches of a quiz *)

Section Plan.
Local Open Scope Z_scope.

Lemma total_full_batches (r : Z) (n : nat) (k : nat) :
  10 * Z.of_nat (k + n) <= r ->
  SpecPlan.total (map (fun i => Z.min (r - Z.of_nat i * 10) 10) (seq k n))
  = 10 * Z.of_nat n.
Proof.
  revert k. induction n as [ | n IH ]; intros k Hr; [ reflexivity | ].
  cbn [seq map SpecPlan.total fold_right].
  change (fold_right Z.add 0 ?l) with (SpecPlan.total l).
  rewrite IH by lia. lia.
Qed.

Lemma all_full_batches (r : Z) (n : nat) (k : nat) :
  10 * Z.of_nat (k + n) <= r ->
  Forall (fun size => size = 10)
         (map (fun i => Z.min (r - Z.of_nat i * 10) 10) (seq k n)).
Proof.
  revert k. induction n as [ | n IH ]; intros k Hr; cbn [seq map]; constructor.
  - lia.
  - apply IH. lia.
Qed.

Lemma plan_background (r : Z) :
  0 <= r ->
  let sizes := map (fun i => Z.min (r - Z.of_nat i * 10) 10)
                   (seq 0 (Z.to_nat ((r + 9) / 10))) in
  SpecPlan.total sizes = r /\ Forall (fun size => 1 <= size <= 10) sizes.
Proof.
  intros Hr sizes. unfold sizes.
  destruct (Z.eq_dec r 0) as [-> | Hpos]; [ split; [ reflexivity | constructor ] | ].
  pose proof (Z.div_mod (r + 9) 10 ltac:(lia)) as Hdm.
  pose proof (Z.mod_pos_bound (r + 9) 10 ltac:(lia)) as Hmod.
  set (q := (r + 9) / 10) in *.
  assert (Hq : 1 <= q) by lia.
  replace (Z.to_nat q) with (Z.to_nat (q - 1) + 1)%nat by lia.
  rewrite seq_app, map_app. cbn [seq map Nat.add].
  assert (Hfull : 10 * Z.of_nat (0 + Z.to_nat (q - 1)) <= r) by lia.
  split.
  - unfold SpecPlan.total. rewrite fold_right_app. cbn [fold_right].
    assert (Hshift : forall (l : list Z) (a : Z),
              fold_right Z.add a l = fold_right Z.add 0 l + a).
    { induction l as [ | x l IHl ]; intros a; cbn [fold_right]; [ lia | ].
      rewrite IHl. lia. }
    rewrite Hshift.
    change (fold_right Z.add 0 ?l) with (SpecPlan.total l).
    rewrite total_full_batches by exact Hfull. lia.
  - apply Forall_app. split.
    + eapply Forall_impl; [ exact (all_full_batches r _ 0%nat Hfull) | ].
      cbv beta. intros size ->. lia.
    + constructor; [ lia | constructor ].
Qed.

Lemma plan_agrees_up_to_200 :
  forallb (planAgrees 30) (counts 200) = true.
Proof. vm_compute. reflexivity. Qed.

Lemma same_numbers_eq (xs ys : list Number) : same_numbers xs ys = true -> xs = ys.
Proof.
  unfold same_numbers. revert ys.
  induction xs as [ | x xs IH ]; intros [ | y ys ]; cbn [length combine forallb];
    try discriminate; try reflexivity.
  - intros H. apply andb_prop in H as [Hlen H]. apply andb_prop in H as [Hxy H].
    cbn [fst snd] in Hxy. apply same_number_eq in Hxy. subst y.
    f_equal. apply IH. rewrite H, andb_true_r. exact Hlen.
Qed.

(** X23. For a quiz of [count] questions the planned batches add up to
    [count], each asks for between 1 and 10 questions, and there are
    [ceil(count / 10)] of them.  For every count up to 200 the sizes that
    [startQuiz] computes on numbers are exactly this plan. *)
Theorem startQuiz_batches :
  (forall count : Z,
     1 <= count ->
     SpecPlan.total (SpecPlan.plan count) = count /\
     Forall (fun size => 1 <= size <= 10) (SpecPlan.plan count) /\
     Z.of_nat (length (SpecPlan.plan count)) = (count + 9) / 10) /\
  (forall count : Z,
     1 <= count <= 200 ->
     batchSizes 30 (JS.of_Z count) = Some (map JS.of_Z (SpecPlan.plan count))).
Proof.
  split.
  - intros count Hcount. unfold SpecPlan.plan.
    set (initial := Z.min count 10).
    assert (Hr : 0 <= count - initial) by (unfold initial; lia).
    destruct (plan_background (count - initial) Hr) as [Hsum Hall].
    split; [ | split ].
    + cbn [SpecPlan.total fold_right].
      change (fold_right Z.add 0 ?l) with (SpecPlan.total l).
      rewrite Hsum. lia.
    + constructor; [ unfold initial; lia | exact Hall ].
    + cbn [length]. rewrite length_map, length_seq.
      destruct (Z.le_gt_cases count 10) as [Hsmall | Hlarge].
      * replace (count - initial) with 0 by (unfold initial; lia).
        change (Z.of_nat (S (Z.to_nat ((0 + 9) / 10)))) with 1.
        apply (Z.div_unique (count + 9) 10 1 (count - 1)); lia.
      * replace (count - initial) with (count - 10) by (unfold initial; lia).
        pose proof (Z.div_mod (count - 10 + 9) 10 ltac:(lia)) as H1.
        pose proof (Z.mod_pos_bound (count - 10 + 9) 10 ltac:(lia)) as H2.
        assert (H3 : 0 <= (count - 10 + 9) / 10) by (apply Z.div_pos; lia).
        rewrite Nat2Z.inj_succ, Z2Nat.id by exact H3.
        apply (Z.div_unique (count + 9) 10 _ ((count - 10 + 9) mod 10)); lia.
  - intros count Hcount.
    pose proof plan_agrees_up_to_200 as Hall. rewrite forallb_forall in Hall.
    assert (Hin : In count (counts 200)).
    { unfold counts. apply in_map_iff. exists (Z.to_nat (count - 1)).
      split; [ lia | apply in_seq; lia ]. }
    specialize (Hall count Hin). unfold planAgrees in Hall.
    destruct (batchSizes 30 (JS.of_Z count)) as [ sizes | ]; [ | discriminate ].
    f_equal. apply same_numbers_eq. exact Hall.
Qed.

(** *** The active time *)

Lemma handleVisibilityChange_step (hidden : bool) (now : Z) (t : Timer) :
  activeTimeMs t <= activeTimeMs (handleVisibilityChange hidden now t)
  <= activeTimeMs t + (if hidden then 86399999 else 0).
Proof.
  unfold handleVisibilityChange. destruct hidden; [ | cbn [activeTimeMs]; lia ].
  destruct (Z.ltb_spec 0 (now - lastActiveTime t)),
           (Z.ltb_spec (now - lastActiveTime t) 86400000);
    cbn [andb activeTimeMs]; lia.
Qed.

(** X24. From the start of a quiz, whatever visibility events arrive and
    whatever the clock shows, the active time never decreases, is never
    negative, and has grown by less than a day for each time the page was
    hidden.  At completion a hidden page adds nothing, and a visible page
    adds the time since the last activation, which keeps the total from
    decreasing when the clock has not gone back. *)
Theorem active_time_never_decreases :
  forall (start : Z) (events : list (bool * Z)) (hidden : bool) (now later : Z),
    let t := visibilityEvents events (startTimer start) in
    0 <= activeTimeMs t
      <= 86399999 * Z.of_nat (length (List.filter fst events)) /\
    (forall (h : bool) (n : Z),
       activeTimeMs t <= activeTimeMs (handleVisibilityChange h n t)) /\
    activeTimeMs (finalTimer true now later t) = activeTimeMs t /\
    activeTimeMs (finalTimer false now later t)
    = activeTimeMs t + (now - lastActiveTime t) /\
    (lastActiveTime t <= now ->
     activeTimeMs t <= activeTimeMs (finalTimer hidden now later t)).
Proof.
  intros start events hidden now later t.
  assert (Hbound : 0 <= activeTimeMs t
                     <= 86399999 * Z.of_nat (length (List.filter fst events))).
  { unfold t, visibilityEvents.
    induction events as [ | [h n] events IH ] using rev_ind; [ cbn; lia | ].
    rewrite fold_left_app, List.filter_app, length_app. cbn [fold_left fst snd List.filter].
    pose proof (handleVisibilityChange_step h n
                  (fold_left (fun t e => handleVisibilityChange (fst e) (snd e) t)
                             events (startTimer start))) as Hstep.
    destruct h; cbn [length] in *; lia. }
  split; [ exact Hbound | ].
  split; [ intros h n; apply handleVisibilityChange_step | ].
  split; [ reflexivity | ]. split; [ reflexivity | ].
  intros Hclock. destruct hidden; cbn [finalTimer negb activeTimeMs]; lia.
Qed.

End Plan.

(** *** The list of topics shown *)

Lemma includes_empty (s : string) : includes s EmptyString = true.
Proof. destruct s; reflexivity. Qed.

Lemma filter_true {A : Type} (f : A -> bool) (l : list A) :
  (forall x, f x = true) -> List.filter f l = l.
Proof.
  intros Hf. induction l as [ | x l IH ]; [ reflexivity | ].
  cbn [List.filter]. rewrite Hf, IH. reflexivity.
Qed.

(** X25. Without a search text the list shows the first 20 topics of the
    sorted rows and nothing else; with a search text it shows every row
    whose name contains the text, whatever the case of the letters, with no
    limit. *)
Theorem visibleTopics_limit :
  forall rows : list TopicRow,
    visibleTopics EmptyString rows = firstn 20 rows /\
    (length (visibleTopics EmptyString rows) <= 20)%nat /\
    (forall searchQuery : string,
       searchQuery <> EmptyString ->
       visibleTopics searchQuery rows
       = List.filter
           (fun topic => includes (toLowerCase (name topic)) (toLowerCase searchQuery))
           rows).
Proof.
  intros rows.
  assert (H0 : visibleTopics EmptyString rows = firstn 20 rows).
  { unfold visibleTopics. cbn [truthy_string toLowerCase].
    rewrite filter_true by (intros topic; apply includes_empty). reflexivity. }
  split; [ exact H0 | ]. split.
  - rewrite H0, length_firstn. lia.
  - intros searchQuery Hne. unfold visibleTopics.
    destruct searchQuery; [ contradiction | reflexivity ].
Qed.

(** *** Retrying a request *)

Section RetryFacts.

Context {T E : Type}.
Variable retryable : E -> bool.
Variable withStatus : E -> E.

(** From [retries <= maxRetries] on, with every earlier call counted, the
    loop ends within the calls that are left. *)
Lemma retryLoop_ends (fn : nat -> T + E) (maxRetries : nat) :
  forall (left retries fuel : nat),
    (retries + left = maxRetries)%nat ->
    (left < fuel)%nat ->
    exists (outcome : Outcome) (calls : nat),
      retryLoop retryable withStatus fuel fn maxRetries retries = Some (outcome, calls) /\
      (retries < calls <= S maxRetries)%nat /\
      (forall k, (retries <= k)%nat -> (S k < calls)%nat ->
                 failsRetryably retryable fn k) /\
      match outcome with
      | Resolved value => fn (calls - 1)%nat = inl value
      | Rejected error =>
          exists e, fn (calls - 1)%nat = inr e /\ error = withStatus e /\
                    (retryable e = false \/ calls = S maxRetries)
      | ResolvedUndefined => False
      end.
Proof.
  induction left as [ | left IH ]; intros retries fuel Hsum Hfuel;
    (destruct fuel as [ | fuel ]; [ lia | ]); cbn [retryLoop].
  - assert (Hle : (retries <=? maxRetries)%nat = true) by (apply Nat.leb_le; lia).
    assert (Hlt : (retries <? maxRetries)%nat = false) by (apply Nat.ltb_ge; lia).
    rewrite Hle, Hlt.
    destruct (fn retries) as [ value | error ] eqn:Ef; rewrite ?andb_false_r;
      eexists; eexists;
      (split; [ reflexivity | ]); (split; [ lia | ]); (split; [ intros k H1 H2; lia | ]).
    + replace (S retries - 1)%nat with retries by lia. exact Ef.
    + exists error. replace (S retries - 1)%nat with retries by lia.
      split; [ exact Ef | ]. split; [ reflexivity | right; lia ].
  - assert (Hle : (retries <=? maxRetries)%nat = true) by (apply Nat.leb_le; lia).
    assert (Hlt : (retries <? maxRetries)%nat = true) by (apply Nat.ltb_lt; lia).
    rewrite Hle, Hlt.
    destruct (fn retries) as [ value | error ] eqn:Ef; rewrite ?andb_true_r.
    + eexists; eexists. split; [ reflexivity | ]. split; [ lia | ].
      split; [ intros k H1 H2; lia | ].
      replace (S retries - 1)%nat with retries by lia. exact Ef.
    + destruct (retryable error) eqn:Er.
      * destruct (IH (S retries) fuel ltac:(lia) ltac:(lia))
          as (outcome & calls & Hrun & Hcalls & Hfailed & Hlast).
        exists outcome, calls. split; [ exact Hrun | ]. split; [ lia | ].
        split; [ | exact Hlast ].
        intros k H1 H2. destruct (Nat.eq_dec k retries) as [-> | Hk].
        -- unfold failsRetryably. rewrite Ef. exact Er.
        -- apply Hfailed; lia.
      * eexists; eexists. split; [ reflexivity | ]. split; [ lia | ].
        split; [ intros k H1 H2; lia | ].
        exists error. replace (S retries - 1)%nat with retries by lia.
        split; [ exact Ef | ]. split; [ reflexivity | left; exact Er ].
Qed.

(** X26. [fetchWithRetry] always ends, after at most [maxRetries + 1]
    calls.  Every call before the last one failed with an error that is
    tried again.  It resolves with the value of the last call when that call
    succeeds; it rejects with the error of the last call when that error is
    not tried again or the calls are used up; and it never falls out of the
    loop without a result. *)
Theorem fetchWithRetry_attempts :
  forall (fn : nat -> T + E) (maxRetries fuel : nat),
    (maxRetries < fuel)%nat ->
    exists (outcome : Outcome) (calls : nat),
      fetchWithRetry retryable withStatus fuel fn maxRetries = Some (outcome, calls) /\
      (1 <= calls <= S maxRetries)%nat /\
      (forall k, (S k < calls)%nat -> failsRetryably retryable fn k) /\
      match outcome with
      | Resolved value => fn (calls - 1)%nat = inl value
      | Rejected error =>
          exists e, fn (calls - 1)%nat = inr e /\ error = withStatus e /\
                    (retryable e = false \/ calls = S maxRetries)
      | ResolvedUndefined => False
      end.
Proof.
  intros fn maxRetries fuel Hfuel. unfold fetchWithRetry.
  destruct (retryLoop_ends fn maxRetries maxRetries 0 fuel ltac:(lia) Hfuel)
    as (outcome & calls & Hrun & Hcalls & Hfailed & Hlast).
  exists outcome, calls. split; [ exact Hrun | ]. split; [ lia | ].
  split; [ | exact Hlast ].
  intros k Hk. apply Hfailed; lia.
Qed.

End RetryFacts.

Lemma fetchWithRetry_attempts_witness :
  exists (outcome : @Outcome Z string) (calls : nat),
    fetchWithRetry (fun e => String.eqb e "429") (fun e => e) 6
      (fun k => if (k <? 2)%nat then inr "429"%string else inl 7%Z) 5
    = Some (outcome, calls) /\ (1 <= calls <= 6)%nat.
Proof.
  destruct (fetchWithRetry_attempts (fun e => String.eqb e "429") (fun e => e)
              (fun k => if (k <? 2)%nat then inr "429"%string else inl 7%Z) 5 6
              ltac:(lia)) as (outcome & calls & Hrun & Hcalls & _).
  exists outcome, calls. split; [ exact Hrun | exact Hcalls ].
Defined.

